(** * gloriousEggRoll: the GE-Proton downloader

    A shallow embedding of [gloriousEggRoll.go].  The program asks the GitHub
    API for the latest release of GloriousEggroll/proton-ge-custom, downloads
    the release's .tar.gz asset into the Steam compatibility tools folder,
    unpacks it there and removes the downloaded archive.

    The Go functions become Rocq functions over an explicit [World] (file
    system, log of HTTP requests, standard output and standard error).  What
    the program cannot decide by itself (the answers of the network and of
    the JSON, gzip and tar decoders, the environment variables, the limit on
    open files) is collected in a record [Env].  The calls into Go's standard
    library ([path/filepath], [os]) are modelled next to the code that uses
    them. *)

From Stdlib Require Import ZArith Ascii String List.
From Stdlib.Strings Require Import Byte.
From stdpp Require Import base option list strings gmap fin_maps.

Local Open Scope string_scope.
Local Open Scope list_scope.

(** ** Errors *)

Inductive errno : Type :=
| ENOENT | ENOTDIR | EISDIR | EACCES | EEXIST | ENOTEMPTY | EMFILE.

(** The error values the program can see, one constructor per Go error type:
    [*fs.PathError], [*url.Error], the errors of [encoding/json],
    [compress/gzip] and [archive/tar], [io.ErrUnexpectedEOF], and the plain
    text errors made by [errors.New] and [fmt.Errorf]. *)
Inductive error : Type :=
| PathError (op path : string) (e : errno)
| UrlError (op url msg : string)
| JsonError (msg : string)
| GzipError (msg : string)
| TarError (msg : string)
| ErrUnexpectedEOF
| ErrorString (msg : string).

Inductive result (A : Type) : Type :=
| Ok (a : A)
| Err (e : error).
Arguments Ok {A} a.
Arguments Err {A} e.

Definition errno_text (e : errno) : string :=
  match e with
  | ENOENT => "no such file or directory"
  | ENOTDIR => "not a directory"
  | EISDIR => "is a directory"
  | EACCES => "permission denied"
  | EEXIST => "file exists"
  | ENOTEMPTY => "directory not empty"
  | EMFILE => "too many open files"
  end.

Definition dq : string := String (ascii_of_nat 34) EmptyString.
Definition nl : string := String (ascii_of_nat 10) EmptyString.

(** The [Error()] method, used by the [%v] verbs of [main]. *)
Definition Error (e : error) : string :=
  match e with
  | PathError op path no => op +:+ " " +:+ path +:+ ": " +:+ errno_text no
  | UrlError op url msg => op +:+ " " +:+ dq +:+ url +:+ dq +:+ ": " +:+ msg
  | JsonError msg => msg
  | GzipError msg => "gzip: " +:+ msg
  | TarError msg => "archive/tar: " +:+ msg
  | ErrUnexpectedEOF => "unexpected EOF"
  | ErrorString msg => msg
  end.

(** ** [path/filepath] on Unix *)

Module filepath.

Definition Separator : ascii := "/"%char.

Definition IsPathSeparator (c : ascii) : bool := bool_decide (c = Separator).

(** [Ext] walks back from the end of the path to the last dot of its last
    element; [suffix] is what has been walked over. *)
Fixpoint ext_scan (rev_path suffix : list ascii) : list ascii :=
  match rev_path with
  | [] => []
  | c :: r =>
      if IsPathSeparator c then []
      else if bool_decide (c = "."%char) then c :: suffix
      else ext_scan r (c :: suffix)
  end.

Definition Ext (path : string) : string :=
  string_of_list_ascii (ext_scan (rev (list_ascii_of_string path)) []).

(** The elements of a path between its separators, empty ones included. *)
Fixpoint elems (s : string) : list string :=
  match s with
  | EmptyString => [EmptyString]
  | String c s' =>
      if IsPathSeparator c then EmptyString :: elems s'
      else match elems s' with
           | [] => [String c EmptyString]
           | e :: es => String c e :: es
           end
  end.

Definition rooted (path : string) : bool :=
  match path with
  | String c _ => IsPathSeparator c
  | EmptyString => false
  end.

(** One element of [Clean]'s loop; [out] holds the elements written so far,
    the last one first.  A ".." removes the last element written, unless
    there is none (dropped under the root, kept otherwise) or it is a ".."
    itself. *)
Definition clean_step (is_rooted : bool) (out : list string) (e : string)
  : list string :=
  if bool_decide (e = "") then out
  else if bool_decide (e = ".") then out
  else if bool_decide (e = "..") then
    match out with
    | top :: out' => if bool_decide (top = "..") then e :: out else out'
    | [] => if is_rooted then [] else [e]
    end
  else e :: out.

Fixpoint join_elems (es : list string) : string :=
  match es with
  | [] => ""
  | [e] => e
  | e :: es' => e +:+ "/" +:+ join_elems es'
  end.

Definition Clean (path : string) : string :=
  if bool_decide (path = "") then "."
  else
    let out := fold_left (clean_step (rooted path)) (elems path) [] in
    let body := join_elems (rev out) in
    let s := if rooted path then "/" +:+ body else body in
    if bool_decide (s = "") then "." else s.

(** [Join] of two elements: empty leading elements are ignored, the rest is
    joined by separators and cleaned. *)
Definition Join (a b : string) : string :=
  if bool_decide (a = "") then
    if bool_decide (b = "") then "" else Clean b
  else Clean (a +:+ "/" +:+ b).

End filepath.

(** [strings.HasSuffix], as a proposition. *)
Definition HasSuffix (s suffix : string) : Prop :=
  ∃ prefix : string, s = prefix +:+ suffix.

(** ** Release metadata *)

(** Asset represents an asset in a GitHub release. *)
Record Asset : Type := mkAsset {
  Name : string;
  DownloadURL : string
}.

(** GitHubRelease represents a GitHub release. *)
Record GitHubRelease : Type := mkRelease {
  TagName : string;
  Assets : list Asset
}.

(** The loop of [getLatestReleaseURL] over the assets: [tarGzDownloadURL]
    starts empty and takes the URL of the first asset with extension ".gz". *)
Fixpoint findTarGz (assets : list Asset) : string :=
  match assets with
  | [] => ""
  | asset :: rest =>
      if bool_decide (filepath.Ext (Name asset) = ".gz") then DownloadURL asset
      else findTarGz rest
  end.

Definition noTarGz : error :=
  ErrorString "no .tar.gz file found in the latest release".

(** [getLatestReleaseURL] from the decoded release on. *)
Definition selectRelease (release : GitHubRelease) : result (string * string) :=
  let tarGzDownloadURL := findTarGz (Assets release) in
  if bool_decide (tarGzDownloadURL = "") then Err noTarGz
  else Ok (TagName release, tarGzDownloadURL).

(** ** The file system *)

Abbreviation bytes := (list byte).

(** A path as the kernel sees it: the names from the root down. *)
Abbreviation path := (list string).

(** A directory or a regular file; [writable] tells whether the user running
    the program may change it (add and remove names of a directory, write a
    file). *)
Inductive node : Type :=
| Dir (writable : bool)
| File (writable : bool) (content : bytes).

(** The calls of package [os] that the program makes, on a file system
    without symbolic links whose only permission is the write bit of a node.
    What the program creates is writable (the modes 0755, 0777 and 0666 under
    a umask that keeps the write bit of the owner).  An error carries the
    name that was asked for; so does the error of [MkdirAll], where Go names
    the directory on the way at which it failed. *)
Module os.

(** Path resolution without symbolic links: empty names and "." are
    dropped, ".." steps back to the parent and stays at the root.  The names
    are gathered last one first, from the root for an absolute path and from
    the working directory otherwise.  This is what the kernel does for the
    paths that [filepath.Clean] and [filepath.Join] return, the ones [main]
    and [extractTarGzFile] pass: there ".." only comes first; for a name
    followed by ".." the kernel looks the name up before it steps back. *)
Definition resolve_step (stack : list string) (e : string) : list string :=
  if bool_decide (e = "") then stack
  else if bool_decide (e = ".") then stack
  else if bool_decide (e = "..") then tail stack
  else e :: stack.

Definition resolve (cwd : path) (name : string) : path :=
  rev (fold_left resolve_step (filepath.elems name)
         (if filepath.rooted name then [] else rev cwd)).

(** The walk from directory [cur] down the names [rest]: every node on the
    way but the last must be a directory. *)
Fixpoint walk (fs : gmap path node) (cur : path) (rest : list string)
  : errno + node :=
  match fs !! cur with
  | None => inl ENOENT
  | Some n =>
      match rest with
      | [] => inr n
      | c :: rest' =>
          match n with
          | Dir _ => walk fs (cur ++ [c]) rest'
          | File _ _ => inl ENOTDIR
          end
      end
  end.

Definition lookup_path (fs : gmap path node) (p : path) : errno + node :=
  walk fs [] p.

Definition parent (p : path) : path := removelast p.

Definition has_entries (fs : gmap path node) (p : path) : bool :=
  existsb (λ q, bool_decide (q ≠ [] ∧ parent q = p)) (map_to_list fs).*1.

Section syscalls.
Variable cwd : path.

(** [os.Stat]: the node at [name]. *)
Definition Stat (fs : gmap path node) (name : string) : result node :=
  if bool_decide (name = "") then Err (PathError "stat" name ENOENT)
  else match lookup_path fs (resolve cwd name) with
       | inl no => Err (PathError "stat" name no)
       | inr n => Ok n
       end.

(** [os.IsNotExist]. *)
Definition IsNotExist (e : error) : bool :=
  match e with
  | PathError _ _ ENOENT => true
  | _ => false
  end.

(** The system call behind [os.Mkdir]: one new directory in an existing,
    writable parent. *)
Definition mkdir_at (fs : gmap path node) (p : path)
  : errno + gmap path node :=
  if bool_decide (p = []) then inl EEXIST
  else
    match lookup_path fs (parent p) with
    | inl no => inl no
    | inr (File _ _) => inl ENOTDIR
    | inr (Dir w) =>
        match fs !! p with
        | Some _ => inl EEXIST
        | None => if w then inr (<[p := Dir true]> fs) else inl EACCES
        end
    end.

Definition Mkdir (fs : gmap path node) (name : string)
  : result (gmap path node) :=
  if bool_decide (name = "") then Err (PathError "mkdir" name ENOENT)
  else match mkdir_at fs (resolve cwd name) with
       | inl no => Err (PathError "mkdir" name no)
       | inr fs' => Ok fs'
       end.

(** [os.MkdirAll] on the resolved path, given last name first as
    [rev_p]: nothing to do for a directory, an error for a file; otherwise
    the parent is made first and then the directory itself.  The file
    system comes back also with an error: the parents made stay. *)
Fixpoint mkdir_all (fs : gmap path node) (rev_p : list string)
  : gmap path node * option errno :=
  match lookup_path fs (rev rev_p) with
  | inr (Dir _) => (fs, None)
  | inr (File _ _) => (fs, Some ENOTDIR)
  | inl _ =>
      match rev_p with
      | [] => (fs, Some ENOENT)
      | _ :: rev_parent =>
          match mkdir_all fs rev_parent with
          | (fs1, Some no) => (fs1, Some no)
          | (fs1, None) =>
              match mkdir_at fs1 (rev rev_p) with
              | inl no => (fs1, Some no)
              | inr fs2 => (fs2, None)
              end
          end
      end
  end.

Definition MkdirAll (fs : gmap path node) (name : string)
  : gmap path node * option error :=
  if bool_decide (name = "") then (fs, Some (PathError "mkdir" name ENOENT))
  else match mkdir_all fs (rev (resolve cwd name)) with
       | (fs', Some no) => (fs', Some (PathError "mkdir" name no))
       | (fs', None) => (fs', None)
       end.

(** [os.Open]: the node read from; a directory opens, reading it fails. *)
Definition Open (fs : gmap path node) (name : string) : result node :=
  if bool_decide (name = "") then Err (PathError "open" name ENOENT)
  else match lookup_path fs (resolve cwd name) with
       | inl no => Err (PathError "open" name no)
       | inr n => Ok n
       end.

(** [os.Create]: a new empty file in a writable directory, or an existing
    writable file cut to length zero. *)
Definition create_at (fs : gmap path node) (p : path)
  : errno + gmap path node :=
  if bool_decide (p = []) then inl EISDIR
  else
    match lookup_path fs (parent p) with
    | inl no => inl no
    | inr (File _ _) => inl ENOTDIR
    | inr (Dir w) =>
        match fs !! p with
        | Some (Dir _) => inl EISDIR
        | Some (File fw _) =>
            if fw then inr (<[p := File fw []]> fs) else inl EACCES
        | None =>
            if w then inr (<[p := File true []]> fs) else inl EACCES
        end
    end.

Definition Create (fs : gmap path node) (name : string)
  : result (gmap path node) :=
  if bool_decide (name = "") then Err (PathError "open" name ENOENT)
  else match create_at fs (resolve cwd name) with
       | inl no => Err (PathError "open" name no)
       | inr fs' => Ok fs'
       end.

(** Writing through the handle that [Create] returned: the bytes are
    appended to the file. *)
Definition append_at (fs : gmap path node) (p : path) (data : bytes)
  : gmap path node :=
  match fs !! p with
  | Some (File fw old) => <[p := File fw (old ++ data)]> fs
  | _ => fs
  end.

Definition Write (fs : gmap path node) (name : string) (data : bytes)
  : gmap path node :=
  append_at fs (resolve cwd name) data.

(** [os.Remove]: a file, or an empty directory, out of a writable
    directory. *)
Definition remove_at (fs : gmap path node) (p : path)
  : errno + gmap path node :=
  if bool_decide (p = []) then inl EACCES
  else
    match lookup_path fs (parent p) with
    | inl no => inl no
    | inr (File _ _) => inl ENOTDIR
    | inr (Dir w) =>
        match fs !! p with
        | None => inl ENOENT
        | Some (File _ _) =>
            if w then inr (delete p fs) else inl EACCES
        | Some (Dir _) =>
            if has_entries fs p then inl ENOTEMPTY
            else if w then inr (delete p fs) else inl EACCES
        end
    end.

Definition Remove (fs : gmap path node) (name : string)
  : result (gmap path node) :=
  if bool_decide (name = "") then Err (PathError "remove" name ENOENT)
  else match remove_at fs (resolve cwd name) with
       | inl no => Err (PathError "remove" name no)
       | inr fs' => Ok fs'
       end.

End syscalls.

End os.

(** ** The world around the program *)

(** An HTTP response whose status line and headers arrived: the bytes the
    body delivers, and whether the connection breaks after them. *)
Record Response : Type := mkResponse {
  Body : bytes;
  body_breaks : bool
}.

(** [archive/tar]'s header, with the two fields the program reads. *)
Record Header : Type := mkHeader {
  HName : string;
  Typeflag : ascii
}.

Module tar.
Definition TypeReg : ascii := "0"%char.
Definition TypeSymlink : ascii := "2"%char.
Definition TypeDir : ascii := "5"%char.
End tar.

(** What one call of [tarReader.Next] gives: an entry, with the bytes its
    payload delivers when it is read and whether the stream breaks after
    them, or the error that [Next] returns (of [archive/tar], of
    [compress/gzip] below it, or of the read of the file).  The end of the
    list is [io.EOF]. *)
Inductive TarItem : Type :=
| Entry (header : Header) (payload : bytes) (breaks : bool)
| BadEntry (err : error).

(** What the program gets from outside: [$HOME], the working directory, the
    answer to an HTTP GET (a transport error or a response), what
    [encoding/json] decodes a response body into, the number of files the
    process may still open while it reads an archive, and what
    [compress/gzip] and [archive/tar] deliver.

    [nofile] is the limit on open files (RLIMIT_NOFILE) less the descriptors
    in use once the archive is open.

    The gzip and tar readers stream the open archive, and the extraction can
    write to that very file (an entry whose output path is the archive's
    own path): what the readers deliver is a function of the state in which
    the extraction starts, not of the bytes the file held when it was opened.
    [gzip_tar fs tarGzPath outputFolderPath] is what they deliver, call by
    call, in the extraction of [tarGzPath] into [outputFolderPath] that
    starts in [fs]: the error of [gzip.NewReader], or the results of
    [tarReader.Next] with the payloads read, up to [io.EOF]. *)
Record Env : Type := mkEnv {
  HOME : string;
  cwd : path;
  nofile : nat;
  http_Get : string → string + Response;
  json_Decode : Response → string + GitHubRelease;
  gzip_tar : gmap path node → string → string → error + list TarItem
}.

Record World : Type := mkWorld {
  fs : gmap path node;
  requests : list string;
  stdout : list string;
  stderr : list string
}.

Definition set_fs (fs' : gmap path node) (w : World) : World :=
  mkWorld fs' (requests w) (stdout w) (stderr w).

Definition sent (url : string) (w : World) : World :=
  mkWorld (fs w) (requests w ++ [url]) (stdout w) (stderr w).

Definition printed (s : string) (w : World) : World :=
  mkWorld (fs w) (requests w) (stdout w ++ [s]) (stderr w).

Definition eprinted (s : string) (w : World) : World :=
  mkWorld (fs w) (requests w) (stdout w) (stderr w ++ [s]).

(** [os.UserHomeDir] on Unix. *)
Definition UserHomeDir (env : Env) : result string :=
  if bool_decide (HOME env = "") then Err (ErrorString "$HOME is not defined")
  else Ok (HOME env).

(** ** The release resolver *)

(** Function to get the latest release URL and download URL of the tar.gz
    file from a GitHub repository. *)
Definition getLatestReleaseURL (env : Env) (owner repo : string) (w : World)
  : World * result (string * string) :=
  let apiURL :=
    "https://api.github.com/repos/" +:+ owner +:+ "/" +:+ repo
      +:+ "/releases/latest" in
  let w := sent apiURL w in
  match http_Get env apiURL with
  | inl msg => (w, Err (UrlError "Get" apiURL msg))
  | inr resp =>
      match json_Decode env resp with
      | inl msg => (w, Err (JsonError msg))
      | inr release => (w, selectRelease release)
      end
  end.

(** ** The download *)

(** Function to download the latest release file. *)
Definition downloadLatestRelease (env : Env) (url outputPath : string)
  (w : World) : World * option error :=
  let w := sent url w in
  match http_Get env url with
  | inl msg => (w, Some (UrlError "Get" url msg))
  | inr resp =>
      match os.Create (cwd env) (fs w) outputPath with
      | Err err => (w, Some err)
      | Ok fs1 =>
          let fs2 := os.Write (cwd env) fs1 outputPath (Body resp) in
          if body_breaks resp then (set_fs fs2 w, Some ErrUnexpectedEOF)
          else (set_fs fs2 w, None)
      end
  end.

(** ** The extraction *)

(** The loop of [extractTarGzFile] over the entries of the archive.  The
    loop defers [outFile.Close] (line 209): a file that was created stays
    open until the function returns, so every regular file takes one of the
    [free] descriptors that the process has left, and [os.Create] fails with
    EMFILE when none is left (the kernel takes the descriptor before it looks
    at the path). *)
Fixpoint extractEntries (cwd : path) (outputFolderPath : string) (free : nat)
  (items : list TarItem) (fs : gmap path node)
  : gmap path node * option error :=
  match items with
  | [] => (fs, None)
  | BadEntry err :: _ => (fs, Some err)
  | Entry header payload breaks :: rest =>
      let outputPath := filepath.Join outputFolderPath (HName header) in
      if bool_decide (Typeflag header = tar.TypeDir) then
        match os.MkdirAll cwd fs outputPath with
        | (fs1, Some err) => (fs1, Some err)
        | (fs1, None) => extractEntries cwd outputFolderPath free rest fs1
        end
      else if bool_decide (Typeflag header = tar.TypeReg) then
        match free with
        | O => (fs, Some (PathError "open" outputPath EMFILE))
        | S free' =>
            match os.Create cwd fs outputPath with
            | Err err => (fs, Some err)
            | Ok fs1 =>
                let fs2 := os.Write cwd fs1 outputPath payload in
                if breaks then (fs2, Some ErrUnexpectedEOF)
                else extractEntries cwd outputFolderPath free' rest fs2
            end
        end
      else extractEntries cwd outputFolderPath free rest fs
  end.

(** Function to extract a .tar.gz file to a specified folder path. *)
Definition extractTarGzFile (env : Env) (tarGzPath outputFolderPath : string)
  (fs : gmap path node) : gmap path node * option error :=
  match os.Open (cwd env) fs tarGzPath with
  | Err err => (fs, Some err)
  | Ok (Dir _) => (fs, Some (PathError "read" tarGzPath EISDIR))
  | Ok (File _ _) =>
      match gzip_tar env fs tarGzPath outputFolderPath with
      | inl err => (fs, Some err)
      | inr items =>
          extractEntries (cwd env) outputFolderPath (nofile env) items fs
      end
  end.

(** ** The program *)

(** A step of [main]: it changes the world and either goes on with a value or
    ends the process with an exit status ([os.Exit]). *)
Definition Proc (A : Type) : Type := World → World * (A + Z).

#[global] Instance Proc_ret : MRet Proc := λ A a w, (w, inl a).
#[global] Instance Proc_bind : MBind Proc := λ A B f m w,
  match m w with
  | (w', inl a) => f a w'
  | (w', inr code) => (w', inr code)
  end.

Definition Exit {A : Type} (code : Z) : Proc A := λ w, (w, inr code).
Definition Printf (s : string) : Proc unit := λ w, (printed s w, inl tt).
Definition Eprintf (s : string) : Proc unit := λ w, (eprinted s w, inl tt).
Definition get_fs : Proc (gmap path node) := λ w, (w, inl (fs w)).
Definition put_fs (fs' : gmap path node) : Proc unit :=
  λ w, (set_fs fs' w, inl tt).
Definition call {A : Type} (f : World → World * A) : Proc A :=
  λ w, let (w', a) := f w in (w', inl a).

(** [main], lines 27 to 53: the compatibility tools folder under the home
    directory, made when it is not there. *)
Definition compatibilityFolder (env : Env) : Proc string :=
  let steamCompatabilityFolderPath := "~/.steam/steam/compatibilitytools.d/" in
  homeDir ← match UserHomeDir env with
            | Err err =>
                Eprintf ("Error getting home directory: " +:+ Error err +:+ nl);;
                Exit 1
            | Ok homeDir => mret homeDir
            end;
  let steamCompatabilityFolderPath :=
    filepath.Join homeDir
      (String.substring 2 (String.length steamCompatabilityFolderPath - 2)
         steamCompatabilityFolderPath) in
  fs0 ← get_fs;
  match os.Stat (cwd env) fs0 steamCompatabilityFolderPath with
  | Err err =>
      if os.IsNotExist err then
        match os.Mkdir (cwd env) fs0 steamCompatabilityFolderPath with
        | Err _ =>
            Eprintf ("Could not find or create: "
                       +:+ steamCompatabilityFolderPath +:+ nl);;
            Exit 1
        | Ok fs1 => put_fs fs1
        end
      else mret tt
  | Ok _ => mret tt
  end;;
  mret steamCompatabilityFolderPath.

(** [main], lines 69 to 100: the archive is downloaded into the folder,
    extracted there and removed. *)
Definition install (env : Env)
  (steamCompatabilityFolderPath tagName tarGzDownloadURL : string) : Proc unit :=
  let newGEFileNameTarGz := "GE-Proton-" +:+ tagName +:+ ".tar.gz" in
  let newGEFTarGzFolderPath :=
    filepath.Join steamCompatabilityFolderPath newGEFileNameTarGz in
  Printf ("Downloading .tar.gz file from " +:+ tarGzDownloadURL +:+ " to "
            +:+ newGEFTarGzFolderPath +:+ "..." +:+ nl);;
  err ← call (downloadLatestRelease env tarGzDownloadURL newGEFTarGzFolderPath);
  match err with
  | Some err =>
      Eprintf ("Error downloading .tar.gz file: " +:+ Error err +:+ nl);;
      Exit 1
  | None => mret tt
  end;;
  Printf (".tar.gz file downloaded successfully to "
            +:+ newGEFTarGzFolderPath +:+ nl);;
  Printf ("Extracting " +:+ newGEFTarGzFolderPath +:+ " to "
            +:+ steamCompatabilityFolderPath +:+ "..." +:+ nl);;
  fs2 ← get_fs;
  let '(fs3, err) :=
    extractTarGzFile env newGEFTarGzFolderPath steamCompatabilityFolderPath fs2 in
  put_fs fs3;;
  match err with
  | Some err =>
      Eprintf ("Error extracting .tar.gz file: " +:+ Error err +:+ nl);;
      Exit 1
  | None => mret tt
  end;;
  Printf ("Extraction successful!" +:+ nl);;
  Printf ("Removing the .tar.gz file " +:+ newGEFTarGzFolderPath +:+ "..." +:+ nl);;
  fs4 ← get_fs;
  match os.Remove (cwd env) fs4 newGEFTarGzFolderPath with
  | Err err =>
      Eprintf ("Error removing .tar.gz file: " +:+ Error err +:+ nl);;
      Exit 1
  | Ok fs5 => put_fs fs5
  end;;
  Printf (".tar.gz file removed successfully." +:+ nl).

(** [main]: the folder, then the latest release (lines 55 to 60), the test
    for the installed version (lines 62 to 67), then the installation. *)
Definition main (env : Env) : Proc unit :=
  let owner := "GloriousEggroll" in
  let repo := "proton-ge-custom" in
  steamCompatabilityFolderPath ← compatibilityFolder env;
  latest ← call (getLatestReleaseURL env owner repo);
  '(tagName, tarGzDownloadURL) ←
    match latest with
    | Err err =>
        Eprintf ("Error fetching latest release information: "
                   +:+ Error err +:+ nl);;
        Exit 1
    | Ok r => mret r
    end;
  let GEFilePathWithLatestTagName :=
    filepath.Join steamCompatabilityFolderPath tagName in
  fs1 ← get_fs;
  match os.Stat (cwd env) fs1 GEFilePathWithLatestTagName with
  | Ok _ =>
      Printf ("The latest version of GE-Proton, " +:+ tagName
                +:+ ", is already installed. Exiting..." +:+ nl);;
      Exit 0
  | Err _ => mret tt
  end;;
  install env steamCompatabilityFolderPath tagName tarGzDownloadURL.

(** Running the program: the world it leaves and its exit status; returning
    from [main] is status 0. *)
Definition run (env : Env) (w : World) : World * Z :=
  match main env w with
  | (w', inl _) => (w', 0%Z)
  | (w', inr code) => (w', code)
  end.

(** ** A scenario

    The release v1.2.3 with a text file and a .tar.gz asset, an archive with
    the directory bin/ and the file bin/run holding the two bytes of ok, and
    the home directory /home/u. *)

Module Scenario.

Definition release : GitHubRelease :=
  mkRelease "v1.2.3"
    [mkAsset "readme.txt" "http://x/readme.txt";
     mkAsset "pkg-v1.2.3.tar.gz" "http://x/pkg.tar.gz"].

Definition ok : bytes := [x6f; x6b]%byte.

Definition items : list TarItem :=
  [Entry (mkHeader "bin/" tar.TypeDir) [] false;
   Entry (mkHeader "bin/run" tar.TypeReg) ok false].

Definition api : string :=
  "https://api.github.com/repos/GloriousEggroll/proton-ge-custom/releases/latest".

(** The network serves the release metadata and the archive; [served] is
    what the metadata decode to and [unpacked] what the archive holds. *)
Definition network (served : GitHubRelease) (unpacked : list TarItem) : Env :=
  mkEnv "/home/u" ["home"; "u"] 1024
    (λ url, if bool_decide (url = api) then inr (mkResponse [] false)
            else if bool_decide (url = "http://x/pkg.tar.gz")
                 then inr (mkResponse [x1f; x8b]%byte false)
                 else inl "no such host")
    (λ _, inr served)
    (λ _ _ _, inr unpacked).

Definition env : Env := network release items.

(** No network at all. *)
Definition offline : Env :=
  mkEnv "/home/u" ["home"; "u"] 1024 (λ _, inl "network is unreachable")
    (λ _, inl "unexpected end of JSON input") (λ _ _ _, inr items).

Definition install_root : path :=
  ["home"; "u"; ".steam"; "steam"; "compatibilitytools.d"].

Definition dest : string := "/home/u/.steam/steam/compatibilitytools.d".

(** Steam is installed, nothing else is. *)
Definition fresh : gmap path node :=
  list_to_map
    [([], Dir false); (["home"], Dir false); (["home"; "u"], Dir true);
     (["home"; "u"; ".steam"], Dir true);
     (["home"; "u"; ".steam"; "steam"], Dir true);
     (install_root, Dir true)].

(** The version v1.2.3 is in place. *)
Definition installed : gmap path node :=
  <[install_root ++ ["v1.2.3"] := Dir true]> fresh.

(** The compatibility tools folder cannot be written to; its directory bin
    and an archive left by an earlier run can. *)
Definition locked : gmap path node :=
  <[install_root ++ ["GE-Proton-v1.2.3.tar.gz"] := File true [x00]%byte]>
    (<[install_root ++ ["bin"] := Dir true]>
       (<[install_root := Dir false]> fresh)).

Definition world (files : gmap path node) : World := mkWorld files [] [] [].

(** A release whose first .gz asset has no download URL. *)
Definition release_without_url : GitHubRelease :=
  mkRelease "v1.2.3"
    [mkAsset "readme.txt" "http://x/readme.txt";
     mkAsset "pkg-v1.2.3.tar.gz" "";
     mkAsset "pkg-v1.2.3-lite.tar.gz" "http://x/lite.tar.gz"].

(** An archive that names the same file twice. *)
Definition twice : list TarItem :=
  [Entry (mkHeader "run" tar.TypeReg) [x31]%byte false;
   Entry (mkHeader "run" tar.TypeReg) [x32]%byte false].

(** An archive with a symbolic link between its two entries. *)
Definition with_link : list TarItem :=
  [Entry (mkHeader "bin/" tar.TypeDir) [] false;
   Entry (mkHeader "bin/sh" tar.TypeSymlink) [] false;
   Entry (mkHeader "bin/run" tar.TypeReg) ok false].

(** An entry that climbs out of the destination. *)
Definition climbing : Header := mkHeader "../../../.bashrc" tar.TypeReg.

(** An archive that holds the directory of its version. *)
Definition versioned : list TarItem :=
  [Entry (mkHeader "v1.2.3/" tar.TypeDir) [] false;
   Entry (mkHeader "v1.2.3/proton" tar.TypeReg) ok false].

(** Only the home directory is there: Steam was never installed. *)
Definition bare : gmap path node :=
  list_to_map
    [([], Dir false); (["home"], Dir false); (["home"; "u"], Dir true)].

(** Steam is installed, its compatibility tools folder is not there. *)
Definition without_folder : gmap path node :=
  list_to_map
    [([], Dir false); (["home"], Dir false); (["home"; "u"], Dir true);
     (["home"; "u"; ".steam"], Dir true);
     (["home"; "u"; ".steam"; "steam"], Dir true)].

(** The name .steam is taken by a regular file. *)
Definition blocked : gmap path node :=
  <[["home"; "u"; ".steam"] := File true []]> bare.

(** An archive that breaks in its second entry. *)
Definition broken : list TarItem :=
  [Entry (mkHeader "bin/" tar.TypeDir) [] false;
   Entry (mkHeader "bin/run" tar.TypeReg) [x6f]%byte true;
   Entry (mkHeader "bin/last" tar.TypeReg) ok false].

(** The archive of the scenario was extracted before: bin and bin/run are
    there, with another content. *)
Definition unpacked_before : gmap path node :=
  <[install_root ++ ["bin"; "run"] := File true [x00]%byte]>
    (<[install_root ++ ["bin"] := Dir true]> fresh).

(** An archive whose second entry climbs out of the destination. *)
Definition escaping : list TarItem :=
  [Entry (mkHeader "bin/" tar.TypeDir) [] false;
   Entry climbing ok false].

(** An archive with a file in a directory that no entry makes. *)
Definition orphan : list TarItem :=
  [Entry (mkHeader "bin/run" tar.TypeReg) ok false].

(** An archive with two files. *)
Definition pair : list TarItem :=
  [Entry (mkHeader "a" tar.TypeReg) [x31]%byte false;
   Entry (mkHeader "b" tar.TypeReg) [x32]%byte false].

(** An archive that breaks in its third entry. *)
Definition halfway : list TarItem :=
  [Entry (mkHeader "bin/" tar.TypeDir) [] false;
   Entry (mkHeader "bin/run" tar.TypeReg) ok false;
   Entry (mkHeader "bin/last" tar.TypeReg) [x6f]%byte true].

(** No home directory is known; the working directory is /home/u. *)
Definition homeless : Env :=
  mkEnv "" ["home"; "u"] 1024 (http_Get env) (json_Decode env) (gzip_tar env).

(** A home directory below the name a.tar.gz, which a regular file has
    taken, and a release whose tag climbs from the folder up to the root: the
    path of the version is /a and the archive is downloaded to /a.tar.gz.
    The archive holds the directory of the version. *)
Definition odd_tag : string := "/../../../../../../a".

Definition odd : Env :=
  mkEnv "/a.tar.gz/b" [] 1024 (http_Get env)
    (λ _, inr (mkRelease odd_tag [mkAsset "pkg.tar.gz" "http://x/pkg.tar.gz"]))
    (λ _ _ _, inr [Entry (mkHeader "../../../../../a/" tar.TypeDir) [] false]).

Definition odd_files : gmap path node :=
  list_to_map [([], Dir true); (["a.tar.gz"], File true [])].

End Scenario.

(** * The vocabulary of the properties *)

(** ** The resolver *)

(** [asset] is the first of [assets] whose name ends in ".gz". *)
Definition first_gz (assets : list Asset) (asset : Asset) : Prop :=
  ∃ before after : list Asset,
    assets = before ++ asset :: after
    ∧ Forall (λ a, ¬ HasSuffix (Name a) ".gz") before
    ∧ HasSuffix (Name asset) ".gz".

(** The address of the latest release of a repository. *)
Definition latestURL (owner repo : string) : string :=
  "https://api.github.com/repos/" +:+ owner +:+ "/" +:+ repo
    +:+ "/releases/latest".

Definition apiURL : string := latestURL "GloriousEggroll" "proton-ge-custom".

(** ** The paths and the messages of [main] *)

(** [steamCompatabilityFolderPath] once the home directory is known. *)
Definition folder (env : Env) : string :=
  filepath.Join (HOME env) ".steam/steam/compatibilitytools.d/".

(** [GEFilePathWithLatestTagName]: the path that marks a version as
    installed. *)
Definition marker (env : Env) (tagName : string) : string :=
  filepath.Join (folder env) tagName.

(** [newGEFTarGzFolderPath]: where the archive is downloaded to. *)
Definition archive (env : Env) (tagName : string) : string :=
  filepath.Join (folder env) ("GE-Proton-" +:+ tagName +:+ ".tar.gz").

Definition already_installed (tagName : string) : string :=
  "The latest version of GE-Proton, " +:+ tagName
    +:+ ", is already installed. Exiting..." +:+ nl.

(** The messages of [main]. *)
Definition msg_no_home (err : error) : string :=
  "Error getting home directory: " +:+ Error err +:+ nl.
Definition msg_no_folder (dir : string) : string :=
  "Could not find or create: " +:+ dir +:+ nl.
Definition msg_unresolved (err : error) : string :=
  "Error fetching latest release information: " +:+ Error err +:+ nl.
Definition downloading (url file : string) : string :=
  "Downloading .tar.gz file from " +:+ url +:+ " to " +:+ file +:+ "..." +:+ nl.
Definition msg_download (err : error) : string :=
  "Error downloading .tar.gz file: " +:+ Error err +:+ nl.
Definition downloaded (file : string) : string :=
  ".tar.gz file downloaded successfully to " +:+ file +:+ nl.
Definition extracting (file dir : string) : string :=
  "Extracting " +:+ file +:+ " to " +:+ dir +:+ "..." +:+ nl.
Definition msg_extract (err : error) : string :=
  "Error extracting .tar.gz file: " +:+ Error err +:+ nl.
Definition extraction_ok : string := "Extraction successful!" +:+ nl.
Definition removing (file : string) : string :=
  "Removing the .tar.gz file " +:+ file +:+ "..." +:+ nl.
Definition msg_remove (err : error) : string :=
  "Error removing .tar.gz file: " +:+ Error err +:+ nl.
Definition removed : string := ".tar.gz file removed successfully." +:+ nl.

(** ** The file system as a tree *)

Definition is_dir (o : option node) : bool :=
  match o with
  | Some (Dir _) => true
  | _ => false
  end.

(** Every name of the file system, the root apart, sits in a directory. *)
Definition closed (fs : gmap path node) : Prop :=
  map_Forall (λ q _, q ≠ [] → is_dir (fs !! os.parent q)) fs.

#[global] Instance closed_dec (fs : gmap path node) : Decision (closed fs).
Proof. unfold closed. apply _. Defined.

(** [q] lies below the directory [D]. *)
Definition strictly_under (D q : path) : Prop := D `prefix_of` q ∧ q ≠ D.

(** ** The extraction *)

(** Where an entry goes: the file system path of [outputPath]. *)
Definition target (cwd : path) (dest : string) (h : Header) : path :=
  os.resolve cwd (filepath.Join dest (HName h)).

(** An entry that takes a descriptor when it is applied: a regular file. *)
Definition opens (it : TarItem) : bool :=
  match it with
  | Entry h _ _ => bool_decide (Typeflag h = tar.TypeReg)
  | BadEntry _ => false
  end.

(** The descriptors that the entries [items] hold once they are applied. *)
Definition opened (items : list TarItem) : nat := length (filter opens items).

(** How one entry makes the extraction fail: a malformed entry, a directory
    that cannot be made, a file that cannot be created (no descriptor is
    left, or [os.Create] fails on the path), a payload that cannot be copied
    to the end.  [free] is the number of descriptors left when the entry is
    reached, [fs1] the file system the entry is applied to, [fs'] the one it
    leaves. *)
Inductive entry_fails (cwd : path) (dest : string) (free : nat)
  (fs1 : gmap path node) : TarItem → gmap path node → error → Prop :=
| malformed_entry err :
    entry_fails cwd dest free fs1 (BadEntry err) fs1 err
| directory_creation_failure h payload breaks fs' err :
    Typeflag h = tar.TypeDir →
    os.MkdirAll cwd fs1 (filepath.Join dest (HName h)) = (fs', Some err) →
    entry_fails cwd dest free fs1 (Entry h payload breaks) fs' err
| file_creation_failure_descriptors h payload breaks :
    Typeflag h = tar.TypeReg →
    free = 0 →
    entry_fails cwd dest free fs1 (Entry h payload breaks) fs1
      (PathError "open" (filepath.Join dest (HName h)) EMFILE)
| file_creation_failure h payload breaks err :
    Typeflag h = tar.TypeReg →
    free ≠ 0 →
    os.Create cwd fs1 (filepath.Join dest (HName h)) = Err err →
    entry_fails cwd dest free fs1 (Entry h payload breaks) fs1 err
| copy_failure h payload fs2 :
    Typeflag h = tar.TypeReg →
    free ≠ 0 →
    os.Create cwd fs1 (filepath.Join dest (HName h)) = Ok fs2 →
    entry_fails cwd dest free fs1 (Entry h payload true)
      (os.Write cwd fs2 (filepath.Join dest (HName h)) payload)
      ErrUnexpectedEOF.

(** How [extractTarGzFile] fails: the archive cannot be opened, its gzip
    header cannot be read or is not one, or an entry fails after the entries
    [before] it were applied. *)
Inductive extraction_fails (env : Env) (tarGzPath dest : string)
  (fs : gmap path node) : gmap path node → error → Prop :=
| archive_open_failure err :
    os.Open (cwd env) fs tarGzPath = Err err →
    extraction_fails env tarGzPath dest fs fs err
| header_read_failure w :
    os.Open (cwd env) fs tarGzPath = Ok (Dir w) →
    extraction_fails env tarGzPath dest fs fs (PathError "read" tarGzPath EISDIR)
| header_failure w content err :
    os.Open (cwd env) fs tarGzPath = Ok (File w content) →
    gzip_tar env fs tarGzPath dest = inl err →
    extraction_fails env tarGzPath dest fs fs err
| entry_failure w content before it after fs1 fs' err :
    os.Open (cwd env) fs tarGzPath = Ok (File w content) →
    gzip_tar env fs tarGzPath dest = inr (before ++ it :: after) →
    extractEntries (cwd env) dest (nofile env) before fs = (fs1, None) →
    entry_fails (cwd env) dest (nofile env - opened before) fs1 it fs' err →
    extraction_fails env tarGzPath dest fs fs' err.

(** What is there already below the destination, on the way to the entries
    of the archive, fits the archive: it is writable, and it is a directory,
    but at the path of a regular-file entry, where it is a regular file. *)
Definition fits (cwd : path) (dest : string) (items : list TarItem)
  (fs : gmap path node) : Prop :=
  ∀ h payload b q, Entry h payload b ∈ items →
    strictly_under (os.resolve cwd dest) q → q `prefix_of` target cwd dest h →
    match fs !! q with
    | None => True
    | Some (Dir w) =>
        w = true ∧ (Typeflag h = tar.TypeReg → q ≠ target cwd dest h)
    | Some (File w _) =>
        w = true ∧ Typeflag h = tar.TypeReg ∧ q = target cwd dest h
    end.

(** What holds between two entries, [done] being the entries applied and
    [fs0] the file system the extraction started in. *)
Definition extracted (cwd : path) (dest : string) (items done : list TarItem)
  (fs0 fs : gmap path node) : Prop :=
  closed fs ∧ fs !! os.resolve cwd dest = Some (Dir true)
  ∧ fits cwd dest items fs
  ∧ (∀ q, is_dir (fs0 !! q) → is_dir (fs !! q))
  ∧ (∀ h payload b, Entry h payload b ∈ done → Typeflag h = tar.TypeDir →
       ∀ q, q `prefix_of` target cwd dest h → is_dir (fs !! q))
  ∧ (∀ h payload b, Entry h payload b ∈ done → Typeflag h = tar.TypeReg →
       fs !! target cwd dest h = Some (File true payload)).

(** ** The synchronisation as a state machine *)

(** The folder test of [main] went through and left the world [w1]: the
    folder is there, or it cannot be looked at, or it was made. *)
Inductive folder_ready (env : Env) (w : World) : World → Prop :=
| folder_found n :
    os.Stat (cwd env) (fs w) (folder env) = Ok n →
    folder_ready env w w
| folder_unknown err :
    os.Stat (cwd env) (fs w) (folder env) = Err err →
    os.IsNotExist err = false →
    folder_ready env w w
| folder_made err fs1 :
    os.Stat (cwd env) (fs w) (folder env) = Err err →
    os.IsNotExist err = true →
    os.Mkdir (cwd env) (fs w) (folder env) = Ok fs1 →
    folder_ready env w (set_fs fs1 w).

(** Where a failure comes from, and how a run ends. *)
Inductive Stage : Type :=
| Environment | Resolution | Transfer | Extraction | Cleanup.

Inductive Terminal : Type :=
| Done
| AlreadyPresent
| Failed (stage : Stage).

Definition status (t : Terminal) : Z :=
  match t with
  | Failed _ => 1
  | _ => 0
  end.

(** From the world [w] the latest release was resolved to [tagName] and
    [url], leaving [w2]. *)
Definition resolved (env : Env) (w : World) (tagName url : string) (w2 : World)
  : Prop :=
  HOME env ≠ ""
  ∧ ∃ w1, folder_ready env w w1
      ∧ getLatestReleaseURL env "GloriousEggroll" "proton-ge-custom" w1
        = (w2, Ok (tagName, url)).

(** ... and it is not installed. *)
Definition wanted (env : Env) (w : World) (tagName url : string) (w2 : World)
  : Prop :=
  resolved env w tagName url w2
  ∧ ∃ err, os.Stat (cwd env) (fs w2) (marker env tagName) = Err err.

(** ... and its archive was downloaded, leaving [w3]. *)
Definition transferred (env : Env) (w : World) (tagName url : string)
  (w3 : World) : Prop :=
  ∃ w2, wanted env w tagName url w2
    ∧ downloadLatestRelease env url (archive env tagName)
        (printed (downloading url (archive env tagName)) w2)
      = (w3, None).

(** ... and extracted, leaving the file system [fs4]. *)
Definition unpacked (env : Env) (w : World) (tagName url : string)
  (w3 : World) (fs4 : gmap path node) : Prop :=
  transferred env w tagName url w3
  ∧ extractTarGzFile env (archive env tagName) (folder env) (fs w3)
    = (fs4, None).

Definition before_extraction (env : Env) (tagName : string) (w3 : World)
  : World :=
  printed (extracting (archive env tagName) (folder env))
    (printed (downloaded (archive env tagName)) w3).

Definition before_removal (env : Env) (tagName : string) (w3 : World)
  (fs4 : gmap path node) : World :=
  printed (removing (archive env tagName))
    (printed extraction_ok (set_fs fs4 (before_extraction env tagName w3))).

(** The runs of the synchronisation: from [w], how it ends and the world it
    leaves.  Every failure of a step ends the run. *)
Inductive Sync (env : Env) (w : World) : Terminal → World → Prop :=
| sync_no_home :
    HOME env = "" →
    Sync env w (Failed Environment)
      (eprinted (msg_no_home (ErrorString "$HOME is not defined")) w)
| sync_no_folder err err' :
    HOME env ≠ "" →
    os.Stat (cwd env) (fs w) (folder env) = Err err →
    os.IsNotExist err = true →
    os.Mkdir (cwd env) (fs w) (folder env) = Err err' →
    Sync env w (Failed Environment) (eprinted (msg_no_folder (folder env)) w)
| sync_unresolved w1 w2 err :
    HOME env ≠ "" → folder_ready env w w1 →
    getLatestReleaseURL env "GloriousEggroll" "proton-ge-custom" w1
    = (w2, Err err) →
    Sync env w (Failed Resolution) (eprinted (msg_unresolved err) w2)
| sync_present tagName url w2 n :
    resolved env w tagName url w2 →
    os.Stat (cwd env) (fs w2) (marker env tagName) = Ok n →
    Sync env w AlreadyPresent (printed (already_installed tagName) w2)
| sync_untransferred tagName url w2 w3 err :
    wanted env w tagName url w2 →
    downloadLatestRelease env url (archive env tagName)
      (printed (downloading url (archive env tagName)) w2)
    = (w3, Some err) →
    Sync env w (Failed Transfer) (eprinted (msg_download err) w3)
| sync_unextracted tagName url w3 fs4 err :
    transferred env w tagName url w3 →
    extractTarGzFile env (archive env tagName) (folder env) (fs w3)
    = (fs4, Some err) →
    Sync env w (Failed Extraction)
      (eprinted (msg_extract err) (set_fs fs4 (before_extraction env tagName w3)))
| sync_uncleaned tagName url w3 fs4 err :
    unpacked env w tagName url w3 fs4 →
    os.Remove (cwd env) fs4 (archive env tagName) = Err err →
    Sync env w (Failed Cleanup)
      (eprinted (msg_remove err) (before_removal env tagName w3 fs4))
| sync_done tagName url w3 fs4 fs5 :
    unpacked env w tagName url w3 fs4 →
    os.Remove (cwd env) fs4 (archive env tagName) = Ok fs5 →
    Sync env w Done
      (printed removed (set_fs fs5 (before_removal env tagName w3 fs4))).

(** ** The stages of a run of the scenario *)

(** The world after the download of the archive of v1.2.3, from the files
    [files] and in the environment [env]; the file system after its
    extraction; the world at the end of the run. *)
Definition downloaded_in (env : Env) (files : gmap path node) : World :=
  (downloadLatestRelease env "http://x/pkg.tar.gz" (archive env "v1.2.3")
     (printed (downloading "http://x/pkg.tar.gz" (archive env "v1.2.3"))
        (sent apiURL (Scenario.world files)))).1.

Definition extracted_in (env : Env) (files : gmap path node)
  : gmap path node :=
  (extractTarGzFile env (archive env "v1.2.3") (folder env)
     (fs (downloaded_in env files))).1.

Definition installed_in (env : Env) (files : gmap path node) : World :=
  printed removed
    (set_fs (delete (os.resolve (cwd env) (archive env "v1.2.3"))
               (extracted_in env files))
       (before_removal env "v1.2.3" (downloaded_in env files)
          (extracted_in env files))).

(** * Properties *)

#[local] Arguments filepath.Join : simpl never.
#[local] Arguments os.Stat : simpl never.
#[local] Arguments os.Mkdir : simpl never.
#[local] Arguments os.Remove : simpl never.
#[local] Arguments getLatestReleaseURL : simpl never.
#[local] Arguments downloadLatestRelease : simpl never.
#[local] Arguments extractTarGzFile : simpl never.
#[local] Arguments String.append : simpl never.
#[local] Arguments Error : simpl never.

Ltac proc_unfold :=
  cbv beta iota zeta delta
    [mbind Proc_bind mret Proc_ret get_fs put_fs call Exit Printf Eprintf].

Ltac world_simpl :=
  cbn [fs requests stdout stderr printed eprinted set_fs sent].

(** ** The extension test of the resolver *)

Lemma list_ascii_of_string_app (s t : string) :
  list_ascii_of_string (s +:+ t) = list_ascii_of_string s ++ list_ascii_of_string t.
Proof. induction s as [|c s IH]; simpl; [done | by rewrite IH]. Qed.

Lemma string_of_list_ascii_app (l k : list ascii) :
  string_of_list_ascii (l ++ k) = string_of_list_ascii l +:+ string_of_list_ascii k.
Proof. induction l as [|c l IH]; simpl; [done | by rewrite IH]. Qed.

(** A non-empty extension starts at a dot of the path and holds everything
    after it. *)
Lemma ext_scan_dot (r acc res : list ascii) :
  filepath.ext_scan r acc = res → res ≠ [] →
  ∃ r1 r2, r = r1 ++ "."%char :: r2 ∧ res = "."%char :: rev r1 ++ acc.
Proof.
  revert acc. induction r as [|c r IH]; intros acc Hscan Hne; simpl in Hscan.
  - congruence.
  - destruct (filepath.IsPathSeparator c); [congruence |].
    case_bool_decide as Hdot.
    + subst c. exists [], r. by subst res.
    + destruct (IH _ Hscan Hne) as (r1 & r2 & -> & ->).
      exists (c :: r1), r2. split; [done |].
      simpl. by rewrite <- app_assoc.
Qed.

(** The test of the resolver, [filepath.Ext(asset.Name) == ".gz"], holds
    exactly of the names that end in ".gz". *)
Lemma Ext_gz (name : string) :
  filepath.Ext name = ".gz" ↔ HasSuffix name ".gz".
Proof.
  unfold filepath.Ext, HasSuffix. split.
  - intros HExt.
    apply (f_equal list_ascii_of_string) in HExt.
    rewrite list_ascii_of_string_of_list_ascii in HExt. simpl in HExt.
    destruct (ext_scan_dot _ _ _ HExt) as (r1 & r2 & Hrev & Hres); [done |].
    rewrite app_nil_r in Hres.
    assert (r1 = ["z"; "g"]%char) as ->.
    { rewrite <- (rev_involutive r1).
      by replace (rev r1) with ["g"; "z"]%char by congruence. }
    exists (string_of_list_ascii (rev r2)).
    rewrite <- (string_of_list_ascii_of_string name).
    rewrite <- (rev_involutive (list_ascii_of_string name)), Hrev.
    rewrite rev_app_distr. simpl.
    rewrite <- !app_assoc. simpl.
    by rewrite string_of_list_ascii_app.
  - intros [prefix ->].
    rewrite list_ascii_of_string_app, rev_app_distr. reflexivity.
Qed.

(** ** What the scan over the assets finds *)

Lemma findTarGz_first (assets : list Asset) (asset : Asset) :
  first_gz assets asset → findTarGz assets = DownloadURL asset.
Proof.
  intros (before & after & -> & Hbefore & Hgz).
  induction Hbefore as [|a before Ha _ IH]; simpl.
  - apply Ext_gz in Hgz. by rewrite bool_decide_eq_true_2.
  - rewrite bool_decide_eq_false_2; [done |]. by rewrite Ext_gz.
Qed.

Lemma findTarGz_none (assets : list Asset) :
  Forall (λ a, ¬ HasSuffix (Name a) ".gz") assets → findTarGz assets = "".
Proof.
  induction 1 as [|a assets Ha _ IH]; simpl; [done |].
  rewrite bool_decide_eq_false_2; [done |]. by rewrite Ext_gz.
Qed.

Lemma getLatestReleaseURL_decoded (env : Env) (owner repo : string) (w : World)
  resp release :
  http_Get env (latestURL owner repo) = inr resp →
  json_Decode env resp = inr release →
  getLatestReleaseURL env owner repo w
  = (sent (latestURL owner repo) w, selectRelease release).
Proof.
  intros Hget Hjson. unfold getLatestReleaseURL. fold (latestURL owner repo).
  by rewrite Hget, Hjson.
Qed.

(** ** The file system as a tree *)

Lemma is_dir_Some (o : option node) : is_dir o → ∃ w, o = Some (Dir w).
Proof. destruct o as [[w|w c]|]; simpl; [eauto | done | done]. Qed.

Lemma closed_snoc (fs : gmap path node) (q : path) (c : string) :
  closed fs → is_Some (fs !! (q ++ [c])) → is_dir (fs !! q).
Proof.
  intros Hclosed [n Hn].
  specialize (Hclosed _ _ Hn). unfold os.parent in Hclosed.
  rewrite removelast_last in Hclosed. apply Hclosed. by destruct q.
Qed.

Lemma closed_prefix (fs : gmap path node) (q r : path) :
  closed fs → is_Some (fs !! (q ++ r)) → r ≠ [] → is_dir (fs !! q).
Proof.
  intros Hclosed. induction r as [|c r IH] using rev_ind; [done |].
  intros Hsome _. rewrite app_assoc in Hsome.
  apply closed_snoc in Hsome; [|done].
  destruct r as [|c' r].
  - by rewrite app_nil_r in Hsome.
  - apply IH; [|done]. apply is_dir_Some in Hsome as [w ->]. eauto.
Qed.

(** In a tree the walk from the root finds what the map holds. *)
Lemma walk_closed (fs : gmap path node) (cur rest : path) :
  closed fs →
  os.walk fs cur rest
  = match fs !! (cur ++ rest) with
    | Some n => inr n
    | None => os.walk fs cur rest
    end.
Proof.
  intros Hclosed. revert cur. induction rest as [|c rest IH]; intros cur; simpl.
  - rewrite app_nil_r. by destruct (fs !! cur).
  - destruct (fs !! (cur ++ c :: rest)) as [n|] eqn:Hn; [|done].
    assert (is_dir (fs !! cur)) as Hdir.
    { apply (closed_prefix fs cur (c :: rest)); [done | by rewrite Hn | done]. }
    apply is_dir_Some in Hdir as [w ->].
    rewrite IH, <- app_assoc. simpl. by rewrite Hn.
Qed.

Lemma walk_None (fs : gmap path node) (cur rest : path) :
  fs !! (cur ++ rest) = None → ∃ no, os.walk fs cur rest = inl no.
Proof.
  revert cur. induction rest as [|c rest IH]; intros cur Hnone; simpl.
  - rewrite app_nil_r in Hnone. rewrite Hnone. eauto.
  - destruct (fs !! cur) as [[w|w b]|]; [|eauto..].
    apply IH. by rewrite <- app_assoc.
Qed.

Lemma lookup_path_Some (fs : gmap path node) (p : path) (n : node) :
  closed fs → fs !! p = Some n → os.lookup_path fs p = inr n.
Proof.
  intros Hclosed Hp. unfold os.lookup_path.
  rewrite walk_closed by done. simpl. by rewrite Hp.
Qed.

Lemma lookup_path_None (fs : gmap path node) (p : path) :
  fs !! p = None → ∃ no, os.lookup_path fs p = inl no.
Proof. intros Hp. by apply walk_None. Qed.

Lemma closed_insert (fs : gmap path node) (p : path) (n : node) :
  closed fs → (p ≠ [] → is_dir (fs !! os.parent p)) →
  (∀ c, fs !! (p ++ [c]) = None) ∨ is_dir (Some n) →
  closed (<[p := n]> fs).
Proof.
  intros Hclosed Hparent Hchildren q m Hq Hne.
  assert (is_dir (fs !! os.parent q)) as Hdir.
  { destruct (decide (q = p)) as [->|Hqp]; [by apply Hparent |].
    rewrite lookup_insert_ne in Hq by done. by apply (Hclosed q m). }
  destruct (decide (os.parent q = p)) as [<-|Hpq].
  - rewrite lookup_insert_eq. destruct Hchildren as [Hnone|Hn]; [|done].
    destruct (exists_last Hne) as (q' & c & ->).
    unfold os.parent in *. rewrite removelast_last in *.
    destruct (decide (q' ++ [c] = q')) as [Heq|Hneq].
    { apply (f_equal length) in Heq. rewrite length_app in Heq. simpl in Heq. lia. }
    rewrite lookup_insert_ne in Hq by done. by rewrite Hnone in Hq.
  - by rewrite lookup_insert_ne.
Qed.

Lemma prefix_snoc_inv (q l : path) (c : string) :
  q `prefix_of` l ++ [c] → q = l ++ [c] ∨ q `prefix_of` l.
Proof.
  intros [k Hk]. destruct k as [|x k _] using rev_ind.
  - left. by rewrite app_nil_r in Hk.
  - right. rewrite app_assoc in Hk. apply app_inj_tail in Hk as [-> _].
    by exists k.
Qed.

(** [MkdirAll] on a tree succeeds when no name on the way is a file and the
    directory that receives the first new name is writable; it adds the
    missing directories of the way, writable, and nothing else. *)
Lemma mkdir_all_spec (fs : gmap path node) (rev_p : path) :
  closed fs → is_Some (fs !! []) →
  (∀ q w b, q `prefix_of` rev rev_p → fs !! q ≠ Some (File w b)) →
  (∀ q c, q ++ [c] `prefix_of` rev rev_p → fs !! (q ++ [c]) = None →
          fs !! q = None ∨ fs !! q = Some (Dir true)) →
  ∃ fs', os.mkdir_all fs rev_p = (fs', None) ∧ closed fs'
    ∧ ∀ q, fs' !! q
           = match fs !! q with
             | Some n => Some n
             | None => if decide (q `prefix_of` rev rev_p)
                       then Some (Dir true) else None
             end.
Proof.
  intros Hclosed Hroot. induction rev_p as [|c rev_p IH]; intros Hfile Hwr.
  - destruct Hroot as [n Hn]. simpl. unfold os.lookup_path. simpl. rewrite Hn.
    destruct n as [w|w b]; [|by destruct (Hfile [] w b)].
    exists fs. split_and!; [done..|]. intros q.
    destruct (fs !! q) eqn:Hq; [done |]. case_decide as Hpre; [|done].
    apply prefix_nil_inv in Hpre. congruence.
  - simpl. simpl in Hfile, Hwr.
    destruct (fs !! (rev rev_p ++ [c])) as [[w|w b]|] eqn:Hp.
    + rewrite (lookup_path_Some _ _ _ Hclosed Hp).
      exists fs. split_and!; [done..|]. intros q.
      destruct (fs !! q) eqn:Hq; [done |]. case_decide as Hpre; [|done].
      destruct Hpre as [k Hk]. destruct k as [|x k].
      * rewrite app_nil_r in Hk. congruence.
      * assert (is_dir (fs !! q)) as Hdir; [|by rewrite Hq in Hdir].
        apply (closed_prefix fs q (x :: k)); [done | by rewrite <- Hk, Hp | done].
    + by destruct (Hfile (rev rev_p ++ [c]) w b).
    + destruct (lookup_path_None _ _ Hp) as [no ->].
      destruct IH as (fs1 & -> & Hclosed1 & Hfs1).
      { intros q w b Hq. apply Hfile. by apply prefix_app_r. }
      { intros q x Hq. apply Hwr. by apply prefix_app_r. }
      assert (fs1 !! rev rev_p = Some (Dir true)) as Hparent.
      { rewrite Hfs1. destruct (Hwr (rev rev_p) c) as [->| ->]; [done..| |done].
        by rewrite decide_True. }
      unfold os.mkdir_at. rewrite bool_decide_eq_false_2 by by destruct (rev rev_p).
      unfold os.parent. rewrite removelast_last.
      rewrite (lookup_path_Some _ _ _ Hclosed1 Hparent).
      rewrite Hfs1, Hp, decide_False by apply prefix_snoc_not.
      eexists. split_and!; [done | |].
      * apply closed_insert; [done | | by right].
        intros _. unfold os.parent. by rewrite removelast_last, Hparent.
      * intros q. destruct (decide (q = rev rev_p ++ [c])) as [->|Hne].
        { by rewrite lookup_insert_eq, Hp, decide_True. }
        rewrite lookup_insert_ne, Hfs1 by done.
        destruct (fs !! q); [done |].
        apply decide_ext. split; [by apply prefix_app_r |].
        intros Hq. by destruct (prefix_snoc_inv _ _ _ Hq).
Qed.

Lemma mkdir_all_mono (fs fs' : gmap path node) (rev_p : path) (r : option errno) :
  os.mkdir_all fs rev_p = (fs', r) → fs ⊆ fs'.
Proof.
  revert fs' r. induction rev_p as [|c rev_p IH]; intros fs' r; simpl.
  - destruct (os.lookup_path fs []) as [no|[w|w b]]; by intros [= <- _].
  - destruct (os.lookup_path fs _) as [no|[w|w b]]; [|by intros [= <- _]..].
    destruct (os.mkdir_all fs rev_p) as [fs1 [no1|]] eqn:Hrec.
    + intros [= <- _]. by eapply IH.
    + specialize (IH _ _ eq_refl). unfold os.mkdir_at.
      case_bool_decide; [by intros [= <- _] |].
      destruct (os.lookup_path fs1 _) as [no2|[w|w b]]; [by intros [= <- _] | |by intros [= <- _]].
      destruct (fs1 !! _) eqn:Hnew; [by intros [= <- _] |].
      destruct w; intros [= <- _]; [|done].
      etrans; [done |]. by apply insert_subseteq.
Qed.

Lemma MkdirAll_mono (cwd : path) (fs fs' : gmap path node) (name : string)
  (r : option error) :
  os.MkdirAll cwd fs name = (fs', r) → fs ⊆ fs'.
Proof.
  unfold os.MkdirAll. case_bool_decide; [by intros [= <- _] |].
  destruct (os.mkdir_all _ _) as [fs1 [no|]] eqn:Hrec; intros [= <- _];
    by eapply mkdir_all_mono.
Qed.

(** [Create] then [Write] of the whole payload: the file holds exactly the
    payload, whatever was there before. *)
Lemma Create_Write (cwd : path) (fs fs1 : gmap path node) (name : string)
  (data : bytes) :
  os.Create cwd fs name = Ok fs1 →
  ∃ fw, os.Write cwd fs1 name data
        = <[os.resolve cwd name := File fw data]> fs.
Proof.
  unfold os.Create, os.Write, os.create_at, os.append_at.
  case_bool_decide; [done |]. case_bool_decide; [done |].
  destruct (os.lookup_path fs _) as [no|[w|w b]]; [done | |done].
  destruct (fs !! os.resolve cwd name) as [[w'|[] b]|]; [done | | done |];
    [|destruct w; [|done]]; intros [= <-]; exists true;
    by rewrite lookup_insert_eq, insert_insert_eq.
Qed.

(** ** The extraction loop, entry by entry *)

Section extraction.
Variables (cwd : path) (dest : string).

Lemma extract_dir (h : Header) payload breaks rest free fs :
  Typeflag h = tar.TypeDir →
  extractEntries cwd dest free (Entry h payload breaks :: rest) fs
  = match os.MkdirAll cwd fs (filepath.Join dest (HName h)) with
    | (fs1, Some err) => (fs1, Some err)
    | (fs1, None) => extractEntries cwd dest free rest fs1
    end.
Proof. intros Hdir. simpl. by rewrite bool_decide_eq_true_2. Qed.

Lemma extract_reg (h : Header) payload breaks rest free fs :
  Typeflag h = tar.TypeReg →
  extractEntries cwd dest (S free) (Entry h payload breaks :: rest) fs
  = match os.Create cwd fs (filepath.Join dest (HName h)) with
    | Err err => (fs, Some err)
    | Ok fs1 =>
        let fs2 := os.Write cwd fs1 (filepath.Join dest (HName h)) payload in
        if breaks then (fs2, Some ErrUnexpectedEOF)
        else extractEntries cwd dest free rest fs2
    end.
Proof.
  intros Hreg. simpl.
  rewrite bool_decide_eq_false_2 by by rewrite Hreg.
  by rewrite bool_decide_eq_true_2.
Qed.

(** No descriptor is left for a regular file. *)
Lemma extract_reg_0 (h : Header) payload breaks rest fs :
  Typeflag h = tar.TypeReg →
  extractEntries cwd dest 0 (Entry h payload breaks :: rest) fs
  = (fs, Some (PathError "open" (filepath.Join dest (HName h)) EMFILE)).
Proof.
  intros Hreg. simpl.
  rewrite bool_decide_eq_false_2 by by rewrite Hreg.
  by rewrite bool_decide_eq_true_2.
Qed.

Lemma extract_other (h : Header) payload breaks rest free fs :
  Typeflag h ≠ tar.TypeDir → Typeflag h ≠ tar.TypeReg →
  extractEntries cwd dest free (Entry h payload breaks :: rest) fs
  = extractEntries cwd dest free rest fs.
Proof. intros Hdir Hreg. simpl. by rewrite !bool_decide_eq_false_2. Qed.

Lemma opened_cons (it : TarItem) (items : list TarItem) :
  opened (it :: items) = if opens it then S (opened items) else opened items.
Proof. unfold opened. rewrite filter_cons. by destruct (opens it). Qed.

Lemma opened_dir (h : Header) payload breaks items :
  Typeflag h = tar.TypeDir → opened (Entry h payload breaks :: items) = opened items.
Proof.
  intros Hdir. rewrite opened_cons. simpl.
  rewrite bool_decide_eq_false_2; [done |]. by rewrite Hdir.
Qed.

Lemma opened_reg (h : Header) payload breaks items :
  Typeflag h = tar.TypeReg →
  opened (Entry h payload breaks :: items) = S (opened items).
Proof. intros Hreg. rewrite opened_cons. simpl. by rewrite bool_decide_eq_true_2. Qed.

Lemma opened_other (h : Header) payload breaks items :
  Typeflag h ≠ tar.TypeReg → opened (Entry h payload breaks :: items) = opened items.
Proof. intros Hreg. rewrite opened_cons. simpl. by rewrite bool_decide_eq_false_2. Qed.

(** The loop over a list in two parts: the second part runs on what the
    first left, with the descriptors that the first left, unless the first
    failed. *)
Lemma extractEntries_app (items1 items2 : list TarItem) free fs :
  extractEntries cwd dest free (items1 ++ items2) fs
  = match extractEntries cwd dest free items1 fs with
    | (fs1, None) => extractEntries cwd dest (free - opened items1) items2 fs1
    | (fs1, Some err) => (fs1, Some err)
    end.
Proof.
  revert free fs.
  induction items1 as [|[h payload breaks|err] items1 IH]; intros free fs.
  - simpl. by rewrite Nat.sub_0_r.
  - destruct (decide (Typeflag h = tar.TypeDir)) as [Hdir|Hdir];
      [|destruct (decide (Typeflag h = tar.TypeReg)) as [Hreg|Hreg]].
    + simpl app. rewrite !extract_dir, opened_dir by done.
      destruct (os.MkdirAll _ _ _) as [fs1 [err|]]; [done | apply IH].
    + simpl app. destruct free as [|free]; [by rewrite !extract_reg_0 |].
      rewrite !extract_reg, opened_reg by done.
      destruct (os.Create _ _ _) as [fs1|err]; [|done].
      simpl. destruct breaks; [done | apply IH].
    + simpl app. rewrite !extract_other, opened_other by done. apply IH.
  - done.
Qed.

Lemma extractEntries_fails (items : list TarItem) free fs fs' err :
  extractEntries cwd dest free items fs = (fs', Some err)
  ↔ ∃ before it after fs1,
      items = before ++ it :: after
      ∧ extractEntries cwd dest free before fs = (fs1, None)
      ∧ entry_fails cwd dest (free - opened before) fs1 it fs' err.
Proof.
  split.
  - revert free fs.
    induction items as [|[h payload breaks|e] items IH]; intros free fs.
    + done.
    + destruct (decide (Typeflag h = tar.TypeDir)) as [Hdir|Hdir];
        [|destruct (decide (Typeflag h = tar.TypeReg)) as [Hreg|Hreg]].
      * rewrite extract_dir by done.
        destruct (os.MkdirAll _ _ _) as [fs1 [e|]] eqn:Hmk.
        { intros [= <- <-]. exists [], (Entry h payload breaks), items, fs.
          split_and!; [done..|]. by econstructor. }
        intros (before & it & after & fs2 & -> & Hbefore & Hit)%IH.
        exists (Entry h payload breaks :: before), it, after, fs2.
        split_and!; [done | | by rewrite opened_dir].
        rewrite extract_dir by done. by rewrite Hmk.
      * destruct free as [|free].
        { rewrite extract_reg_0 by done. intros [= <- <-].
          exists [], (Entry h payload breaks), items, fs.
          split_and!; [done..|]. by apply file_creation_failure_descriptors. }
        rewrite extract_reg by done.
        destruct (os.Create _ _ _) as [fs1|e] eqn:Hcr.
        2:{ intros [= <- <-]. exists [], (Entry h payload breaks), items, fs.
            split_and!; [done..|]. by apply file_creation_failure. }
        simpl. destruct breaks.
        { intros [= <- <-]. exists [], (Entry h payload true), items, fs.
          split_and!; [done..|]. by apply copy_failure. }
        intros (before & it & after & fs2 & -> & Hbefore & Hit)%IH.
        exists (Entry h payload false :: before), it, after, fs2.
        split_and!; [done | | by rewrite opened_reg].
        rewrite extract_reg by done. by rewrite Hcr.
      * rewrite extract_other by done.
        intros (before & it & after & fs2 & -> & Hbefore & Hit)%IH.
        exists (Entry h payload breaks :: before), it, after, fs2.
        split_and!; [done | | by rewrite opened_other].
        by rewrite extract_other.
    + intros [= <- <-]. exists [], (BadEntry e), items, fs.
      split_and!; [done..|]. constructor.
  - intros (before & it & after & fs1 & -> & Hbefore & Hit).
    rewrite extractEntries_app, Hbefore.
    destruct Hit as [e|h payload breaks fs2 e Hdir Hmk
                    |h payload breaks Hreg Hfree
                    |h payload breaks e Hreg Hfree Hcr
                    |h payload fs2 Hreg Hfree Hcr].
    + done.
    + rewrite extract_dir by done. by rewrite Hmk.
    + rewrite Hfree. by rewrite extract_reg_0.
    + destruct (free - opened before) as [|n]; [done |].
      rewrite extract_reg by done. by rewrite Hcr.
    + destruct (free - opened before) as [|n]; [done |].
      rewrite extract_reg by done. by rewrite Hcr.
Qed.

End extraction.

Lemma Clean_nonempty (name : string) : filepath.Clean name ≠ "".
Proof. unfold filepath.Clean. repeat case_bool_decide; done. Qed.

Lemma Join_nonempty (a b : string) : a ≠ "" → filepath.Join a b ≠ "".
Proof.
  intros Ha. unfold filepath.Join. rewrite bool_decide_eq_false_2 by done.
  apply Clean_nonempty.
Qed.

(** ** Extraction of a well laid out archive *)

Section fidelity.
Variables (cwd : path) (dest : string) (items : list TarItem).
Variable fs0 : gmap path node.

Local Abbreviation D := (os.resolve cwd dest).
Local Abbreviation T := (target cwd dest).

Hypothesis dest_nonempty : dest ≠ "".

(** Every entry is a directory or a regular file whose payload can be read
    to its end. *)
Hypothesis kinds : ∀ it, it ∈ items →
  ∃ h payload, it = Entry h payload false
    ∧ (Typeflag h = tar.TypeDir ∨ Typeflag h = tar.TypeReg).

(** Every entry stays under the destination; a file is not the destination
    itself. *)
Hypothesis stays_under : ∀ h payload b, Entry h payload b ∈ items →
  D `prefix_of` T h ∧ (Typeflag h = tar.TypeReg → T h ≠ D).

(** A file sits in the destination, or in a directory that was there at the
    start, or in one that an earlier directory entry made. *)
Hypothesis parents : ∀ before h payload b after,
  items = before ++ Entry h payload b :: after → Typeflag h = tar.TypeReg →
  os.parent (T h) = D
  ∨ is_dir (fs0 !! os.parent (T h))
  ∨ ∃ h' payload' b', Entry h' payload' b' ∈ before
      ∧ Typeflag h' = tar.TypeDir ∧ os.parent (T h) `prefix_of` T h'.

(** No other entry goes to the place of a file, or below it. *)
Hypothesis no_clash : ∀ before h payload b after,
  items = before ++ Entry h payload b :: after → Typeflag h = tar.TypeReg →
  ∀ h' payload' b', Entry h' payload' b' ∈ before ++ after →
  ¬ T h `prefix_of` T h'.

Lemma no_clash_cur done h payload b todo h' payload' b' :
  items = done ++ Entry h payload b :: todo → Typeflag h = tar.TypeReg →
  Entry h' payload' b' ∈ done → ¬ T h `prefix_of` T h'.
Proof.
  intros Hitems Hreg Hin.
  apply (no_clash _ _ _ _ _ Hitems Hreg h' payload' b').
  rewrite elem_of_app. by left.
Qed.

(** A directory entry does not go to the place of a file, or below it. *)
Lemma no_clash_dir h payload b h' payload' b' :
  Entry h payload b ∈ items → Typeflag h = tar.TypeDir →
  Entry h' payload' b' ∈ items → Typeflag h' = tar.TypeReg →
  ¬ T h' `prefix_of` T h.
Proof.
  intros Hin Hdir (b1 & a1 & Hitems)%list_elem_of_split Hreg.
  apply (no_clash _ _ _ _ _ Hitems Hreg h payload b).
  rewrite Hitems, elem_of_app, elem_of_cons in Hin. rewrite elem_of_app.
  destruct Hin as [?|[Heq|?]]; [by left | | by right].
  injection Heq as Heq _ _. subst h'. rewrite Hdir in Hreg. discriminate Hreg.
Qed.

Lemma current_in done it todo : items = done ++ it :: todo → it ∈ items.
Proof. intros ->. rewrite elem_of_app, elem_of_cons. right; by left. Qed.

(** Above the place of the current entry there are directories or nothing,
    and so at the place of a directory entry. *)
Lemma way_no_file done h payload b todo fs q w content :
  items = done ++ Entry h payload b :: todo →
  extracted cwd dest items done fs0 fs →
  q `prefix_of` T h → (Typeflag h = tar.TypeReg → q ≠ T h) →
  fs !! q ≠ Some (File w content).
Proof.
  intros Hitems (Hclosed & HD & Hfits & _) Hq Hne Hfile.
  assert (Entry h payload b ∈ items) as Hin by by eapply current_in.
  pose proof (stays_under _ _ _ Hin) as [HDT _].
  destruct (prefix_weak_total _ _ _ Hq HDT) as [[k Hk]|HDq].
  - destruct k as [|x k].
    + rewrite app_nil_r in Hk. congruence.
    + assert (is_dir (fs !! q)) as Hdir; [|by rewrite Hfile in Hdir].
      apply (closed_prefix fs q (x :: k)); [done | by rewrite <- Hk, HD | done].
  - destruct (decide (q = D)) as [->|HneD]; [congruence |].
    specialize (Hfits _ _ _ q Hin (conj HDq HneD) Hq). rewrite Hfile in Hfits.
    destruct Hfits as (_ & Hreg & Heq). by apply Hne.
Qed.

Lemma root_exists fs : closed fs → fs !! D = Some (Dir true) → is_Some (fs !! []).
Proof.
  intros Hclosed HD. destruct (decide (D = [])) as [HeqD|HneD].
  { by rewrite <- HeqD, HD. }
  assert (is_dir (fs !! [])) as [w ->]%is_dir_Some; [|done].
  apply (closed_prefix fs [] D); [done | by rewrite app_nil_l, HD | done].
Qed.

Lemma extracted_dir done h payload b todo fs :
  items = done ++ Entry h payload b :: todo → Typeflag h = tar.TypeDir →
  extracted cwd dest items done fs0 fs →
  ∃ fs1, os.MkdirAll cwd fs (filepath.Join dest (HName h)) = (fs1, None)
    ∧ extracted cwd dest items (done ++ [Entry h payload b]) fs0 fs1.
Proof.
  intros Hitems Hdir Hext.
  assert (Entry h payload b ∈ items) as Hin by by eapply current_in.
  pose proof (stays_under _ _ _ Hin) as [HDT _].
  pose proof Hext as (Hclosed & HD & Hfits & Hold & Hdirs & Hfiles).
  assert (∀ q w content, q `prefix_of` T h → fs !! q ≠ Some (File w content))
    as Hnofile.
  { intros q w content Hq.
    apply (way_no_file _ _ _ _ _ fs q w content Hitems Hext Hq).
    intros Hreg. rewrite Hdir in Hreg. discriminate Hreg. }
  destruct (mkdir_all_spec fs (rev (T h))) as (fs1 & Hmk & Hclosed1 & Hfs1).
  { done. }
  { by apply root_exists. }
  { intros q w content Hq. rewrite rev_involutive in Hq. by apply Hnofile. }
  { intros q c Hq Hnone. rewrite rev_involutive in Hq.
    destruct (prefix_weak_total _ _ _ Hq HDT) as [[k Hk]|HDq].
    - destruct k as [|x k].
      + rewrite app_nil_r in Hk. congruence.
      + assert (is_dir (fs !! (q ++ [c]))) as Hd; [|by rewrite Hnone in Hd].
        apply (closed_prefix fs _ (x :: k)); [done | by rewrite <- Hk, HD | done].
    - apply prefix_snoc_inv in HDq as [HDeq|HDq]; [congruence |].
      destruct (decide (q = D)) as [->|Hne]; [by right |].
      assert (q `prefix_of` T h) as HqT.
      { etrans; [|done]. by apply prefix_app_r. }
      specialize (Hfits _ _ _ q Hin (conj HDq Hne) HqT).
      destruct (fs !! q) as [[w|w content]|] eqn:Hfq; [| |by left].
      + destruct Hfits as [-> _]. by right.
      + by destruct (Hnofile q w content HqT). }
  rewrite rev_involutive in Hfs1.
  exists fs1. split.
  { unfold os.MkdirAll. rewrite bool_decide_eq_false_2 by by apply Join_nonempty.
    fold (target cwd dest h). by rewrite Hmk. }
  split_and!.
  - done.
  - by rewrite Hfs1, HD.
  - intros h' p' b' q Hin' Hq Hpre. rewrite Hfs1.
    specialize (Hfits _ _ _ q Hin' Hq Hpre).
    destruct (fs !! q) as [[w|w content]|]; [done | done |].
    case_decide as HqT; [|done]. split; [done |].
    intros Hreg' ->. by destruct (no_clash_dir _ _ _ _ _ _ Hin Hdir Hin' Hreg').
  - intros q Hq. apply Hold in Hq. rewrite Hfs1.
    by apply is_dir_Some in Hq as [w ->].
  - intros h' p' b' [Hin'|Heq%list_elem_of_singleton]%elem_of_app Hd' q Hq.
    + specialize (Hdirs _ _ _ Hin' Hd' q Hq). rewrite Hfs1.
      by apply is_dir_Some in Hdirs as [w ->].
    + injection Heq as -> -> ->. rewrite Hfs1.
      destruct (fs !! q) as [[w|w content]|] eqn:Hfq; [done | |by rewrite decide_True].
      by destruct (Hnofile q w content Hq).
  - intros h' p' b' [Hin'|Heq%list_elem_of_singleton]%elem_of_app Hr'.
    + by rewrite Hfs1, (Hfiles _ _ _ Hin' Hr').
    + injection Heq as -> -> ->. rewrite Hdir in Hr'. done.
Qed.

Lemma extracted_reg done h payload todo fs :
  items = done ++ Entry h payload false :: todo → Typeflag h = tar.TypeReg →
  extracted cwd dest items done fs0 fs →
  ∃ fs1, os.Create cwd fs (filepath.Join dest (HName h)) = Ok fs1
    ∧ extracted cwd dest items (done ++ [Entry h payload false]) fs0
        (os.Write cwd fs1 (filepath.Join dest (HName h)) payload).
Proof.
  intros Hitems Hreg Hext.
  assert (Entry h payload false ∈ items) as Hin by by eapply current_in.
  pose proof (stays_under _ _ _ Hin) as [HDT HTD]. specialize (HTD Hreg).
  pose proof Hext as (Hclosed & HD & Hfits & Hold & Hdirs & Hfiles).
  assert (T h ≠ []) as HTne.
  { intros HT. rewrite HT in HDT. apply prefix_nil_inv in HDT. congruence. }
  destruct (exists_last HTne) as (P & c & HT).
  assert (os.parent (T h) = P) as HP.
  { unfold os.parent. by rewrite HT, removelast_last. }
  assert (D `prefix_of` P) as HDP.
  { rewrite HT in HDT. apply prefix_snoc_inv in HDT as [HDeq|HDP]; [|done].
    destruct HTD. by rewrite HT. }
  assert (P `prefix_of` T h) as HPT by (rewrite HT; by apply prefix_app_r).
  assert (fs !! P = Some (Dir true)) as HfP.
  { destruct (decide (P = D)) as [->|HPD]; [done |].
    assert (is_dir (fs !! P)) as [w HfP]%is_dir_Some.
    { destruct (parents _ _ _ _ _ Hitems Hreg)
        as [HPeq|[Hthere|(h' & p' & b' & Hin' & Hd' & Hpre)]].
      - congruence.
      - apply Hold. by rewrite <- HP.
      - rewrite HP in Hpre. by apply (Hdirs _ _ _ Hin' Hd'). }
    specialize (Hfits _ _ _ P Hin (conj HDP HPD) HPT). rewrite HfP in Hfits.
    by destruct Hfits as [-> _]. }
  assert (fs !! T h = None ∨ ∃ content, fs !! T h = Some (File true content))
    as HfT.
  { specialize (Hfits _ _ _ (T h) Hin (conj HDT HTD) (reflexivity _)).
    destruct (fs !! T h) as [[w|w content]|]; [|right|by left].
    - destruct Hfits as [_ Hne]. by destruct (Hne Hreg).
    - destruct Hfits as [-> _]. eauto. }
  assert (∀ w, fs !! T h ≠ Some (Dir w)) as Hnd.
  { intros w Hd. destruct HfT as [Hn|[content Hf]]; congruence. }
  exists (<[T h := File true []]> fs). split.
  { unfold os.Create, os.create_at.
    rewrite bool_decide_eq_false_2 by by apply Join_nonempty.
    fold (target cwd dest h).
    rewrite bool_decide_eq_false_2 by done.
    rewrite HP, (lookup_path_Some _ _ _ Hclosed HfP).
    by destruct HfT as [->|[content ->]]. }
  unfold os.Write, os.append_at. fold (target cwd dest h).
  rewrite lookup_insert_eq, insert_insert_eq. simpl.
  split_and!.
  - apply closed_insert; [done | by rewrite HP, HfP |].
    left. intros x. destruct (fs !! (T h ++ [x])) eqn:Hchild; [|done].
    assert (is_dir (fs !! T h)) as [w Hd]%is_dir_Some; [|by destruct (Hnd w)].
    apply (closed_snoc fs _ x); [done | by rewrite Hchild].
  - by rewrite lookup_insert_ne.
  - intros h' p' b' q Hin' Hq Hpre. destruct (decide (q = T h)) as [->|Hne].
    + rewrite lookup_insert_eq. split; [done |].
      rewrite Hitems, elem_of_app, elem_of_cons in Hin'.
      destruct Hin' as [Hin'|[Heq|Hin']].
      * destruct (no_clash _ _ _ _ _ Hitems Hreg h' p' b'); [|done].
        rewrite elem_of_app. by left.
      * by injection Heq as -> _ _.
      * destruct (no_clash _ _ _ _ _ Hitems Hreg h' p' b'); [|done].
        rewrite elem_of_app. by right.
    + rewrite lookup_insert_ne by done. by apply (Hfits _ _ _ q Hin').
  - intros q Hq. apply Hold in Hq. rewrite lookup_insert_ne; [done |].
    intros <-. apply is_dir_Some in Hq as [w Hq]. by destruct (Hnd w).
  - intros h' p' b' [Hin'|Heq%list_elem_of_singleton]%elem_of_app Hd' q Hq.
    + rewrite lookup_insert_ne; [by eapply Hdirs |].
      intros <-. by destruct (no_clash_cur _ _ _ _ _ _ _ _ Hitems Hreg Hin').
    + injection Heq as -> -> ->. rewrite Hreg in Hd'. done.
  - intros h' p' b' [Hin'|Heq%list_elem_of_singleton]%elem_of_app Hr'.
    + rewrite lookup_insert_ne; [by eapply Hfiles |].
      intros Heq. destruct (no_clash_cur _ _ _ _ _ _ _ _ Hitems Hreg Hin').
      by rewrite Heq.
    + injection Heq as -> -> ->. by rewrite lookup_insert_eq.
Qed.

Lemma extracted_all todo : ∀ done (free : nat) fs,
  items = done ++ todo → (opened todo ≤ free)%nat →
  extracted cwd dest items done fs0 fs →
  ∃ fs', extractEntries cwd dest free todo fs = (fs', None)
    ∧ extracted cwd dest items items fs0 fs'.
Proof.
  induction todo as [|it todo IH]; intros done free fs Hitems Hfree Hext.
  - rewrite app_nil_r in Hitems. subst done. by exists fs.
  - destruct (kinds it) as (h & payload & -> & [Hdir|Hreg]).
    { by eapply current_in. }
    + rewrite opened_dir in Hfree by done.
      destruct (extracted_dir _ _ _ _ _ _ Hitems Hdir Hext) as (fs1 & Hmk & Hext1).
      destruct (IH (done ++ [Entry h payload false]) free fs1)
        as (fs' & Hrest & Hext').
      { by rewrite <- app_assoc. }
      { done. }
      { done. }
      exists fs'. split; [|done].
      rewrite extract_dir by done. by rewrite Hmk.
    + rewrite opened_reg in Hfree by done.
      destruct free as [|free]; [lia |].
      destruct (extracted_reg _ _ _ _ _ Hitems Hreg Hext) as (fs1 & Hcr & Hext1).
      destruct (IH (done ++ [Entry h payload false]) free _
                  ltac:(by rewrite <- app_assoc) ltac:(lia) Hext1)
        as (fs' & Hrest & Hext').
      exists fs'. split; [|done].
      rewrite extract_reg by done. by rewrite Hcr.
Qed.

End fidelity.

(** * The claims about the extraction *)

Lemma with_second {A B : Type} (x : A * B) (b : B) : x.2 = b → x = (x.1, b).
Proof. destruct x as [a b']. simpl. by intros ->. Qed.

(** A run that gives no error, written with its two parts. *)
Lemma without_error {A : Type} (x : A * option error) :
  x.2 = None → x = (x.1, None).
Proof. destruct x as [a r]. simpl. by intros ->. Qed.

Lemma with_error {A : Type} (x : A * option error) (err : error) :
  x.2 = Some err → x = (x.1, Some err).
Proof. destruct x as [a r]. simpl. by intros ->. Qed.

Lemma walk_inr (fs : gmap path node) (cur rest : path) (n : node) :
  os.walk fs cur rest = inr n → fs !! (cur ++ rest) = Some n.
Proof.
  revert cur. induction rest as [|c rest IH]; intros cur; simpl.
  - rewrite app_nil_r. destruct (fs !! cur); naive_solver.
  - destruct (fs !! cur) as [[w|w b]|]; [|done..].
    intros Hwalk%IH. by rewrite <- app_assoc in Hwalk.
Qed.

(** What [MkdirAll] changes, with or without error: it adds writable
    directories on the way to the path at places that held nothing. *)
Lemma mkdir_all_footprint (fs fs' : gmap path node) (rev_p : path)
  (r : option errno) (q : path) :
  os.mkdir_all fs rev_p = (fs', r) →
  fs' !! q = fs !! q
  ∨ (fs !! q = None ∧ fs' !! q = Some (Dir true) ∧ q `prefix_of` rev rev_p).
Proof.
  revert fs' r. induction rev_p as [|c rev_p IH]; intros fs' r; simpl.
  - destruct (os.lookup_path fs []) as [no|[w|w b]]; intros [= <- _]; by left.
  - destruct (os.lookup_path fs _) as [no|[w|w b]];
      [|intros [= <- _]; by left..].
    destruct (os.mkdir_all fs rev_p) as [fs1 [no1|]] eqn:Hrec.
    + intros [= <- _]. destruct (IH _ _ eq_refl) as [Heq|(Hn & Hd & Hpre)];
        [by left |].
      right. split_and!; [done..|]. by apply prefix_app_r.
    + specialize (IH _ _ eq_refl). unfold os.mkdir_at.
      assert (fs1 !! q = fs !! q
              ∨ fs !! q = None ∧ fs1 !! q = Some (Dir true)
                ∧ q `prefix_of` rev rev_p ++ [c]) as Hfs1.
      { destruct IH as [Heq|(Hn & Hd & Hpre)]; [by left |].
        right. split_and!; [done..|]. by apply prefix_app_r. }
      case_bool_decide; [by intros [= <- _] |].
      destruct (os.lookup_path fs1 _) as [no2|[w|w b]];
        [by intros [= <- _] | |by intros [= <- _]].
      destruct (fs1 !! (rev rev_p ++ [c])) eqn:Hnew; [by intros [= <- _] |].
      destruct w; intros [= <- _]; [|done].
      destruct (decide (q = rev rev_p ++ [c])) as [->|Hne].
      * rewrite lookup_insert_eq. right.
        destruct Hfs1 as [Heq|(Hn & Hd & _)]; [|congruence].
        split_and!; [congruence | done | done].
      * by rewrite lookup_insert_ne.
Qed.

Lemma Create_not_dir (cwd : path) (fs fs1 : gmap path node) (name : string)
  (w : bool) :
  os.Create cwd fs name = Ok fs1 → fs !! os.resolve cwd name ≠ Some (Dir w).
Proof.
  unfold os.Create, os.create_at. case_bool_decide; [done |].
  case_bool_decide; [done |].
  destruct (os.lookup_path fs _) as [no|[w'|w' b]]; [done | |done].
  by destruct (fs !! os.resolve cwd name) as [[w''|w'' b]|].
Qed.

(** What the extraction changes, with or without error: a path is as it
    was, or it held nothing and is now a writable directory on the way to a
    directory entry, or it is the place of a regular-file entry, held no
    directory and now holds a file. *)
Lemma extractEntries_footprint (cwd : path) (dest : string) (free : nat)
  (items : list TarItem) (fs fs' : gmap path node) (r : option error) (q : path) :
  extractEntries cwd dest free items fs = (fs', r) →
  fs' !! q = fs !! q
  ∨ (fs !! q = None ∧ fs' !! q = Some (Dir true)
     ∧ ∃ h payload b, Entry h payload b ∈ items ∧ Typeflag h = tar.TypeDir
         ∧ q `prefix_of` target cwd dest h)
  ∨ ((∀ w, fs !! q ≠ Some (Dir w))
     ∧ (∃ fw content, fs' !! q = Some (File fw content))
     ∧ ∃ h payload b, Entry h payload b ∈ items ∧ Typeflag h = tar.TypeReg
         ∧ q = target cwd dest h).
Proof.
  revert free fs.
  induction items as [|[h payload b|msg] items IH]; intros free fs.
  - intros [= <- _]. by left.
  - assert (∀ free1 fs1,
      (fs1 !! q = fs !! q
       ∨ (fs !! q = None ∧ fs1 !! q = Some (Dir true)
          ∧ Typeflag h = tar.TypeDir ∧ q `prefix_of` target cwd dest h)
       ∨ ((∀ w, fs !! q ≠ Some (Dir w))
          ∧ (∃ fw content, fs1 !! q = Some (File fw content))
          ∧ Typeflag h = tar.TypeReg ∧ q = target cwd dest h)) →
      extractEntries cwd dest free1 items fs1 = (fs', r) →
      fs' !! q = fs !! q
      ∨ (fs !! q = None ∧ fs' !! q = Some (Dir true)
         ∧ ∃ h0 payload0 b0, Entry h0 payload0 b0 ∈ Entry h payload b :: items
             ∧ Typeflag h0 = tar.TypeDir ∧ q `prefix_of` target cwd dest h0)
      ∨ ((∀ w, fs !! q ≠ Some (Dir w))
         ∧ (∃ fw content, fs' !! q = Some (File fw content))
         ∧ ∃ h0 payload0 b0, Entry h0 payload0 b0 ∈ Entry h payload b :: items
             ∧ Typeflag h0 = tar.TypeReg ∧ q = target cwd dest h0)) as Hstep.
    { intros free1 fs1 Hone Hrest. specialize (IH _ _ Hrest).
      destruct Hone as [Heq|[(Hn & Hd & Hdir & Hpre)|(Hnd & (fw & content & Hf) & Hreg & ->)]].
      - rewrite <- Heq.
        destruct IH as [?|[(? & ? & h0 & p0 & b0 & Hin & ?)
                          |(? & ? & h0 & p0 & b0 & Hin & ?)]]; [by left | |].
        + right; left. split_and!; [done..|].
          exists h0, p0, b0. split; [by apply elem_of_cons; right | done].
        + right; right. split_and!; [done..|].
          exists h0, p0, b0. split; [by apply elem_of_cons; right | done].
      - destruct IH as [Heq|[(Hn1 & _)|(Hnd1 & _)]]; [|congruence|by destruct (Hnd1 true)].
        right; left. split_and!; [done | congruence |].
        exists h, payload, b. split; [by apply elem_of_cons; left | done].
      - destruct IH as [Heq|[(Hn1 & _)|(_ & Hf' & _)]]; [|congruence|].
        + right; right. split_and!; [done | rewrite Heq; eauto |].
          exists h, payload, b. split; [by apply elem_of_cons; left | done].
        + right; right. split_and!; [done | done |].
          exists h, payload, b. split; [by apply elem_of_cons; left | done]. }
    destruct (decide (Typeflag h = tar.TypeDir)) as [Hdir|Hdir];
      [|destruct (decide (Typeflag h = tar.TypeReg)) as [Hreg|Hreg]].
    + rewrite extract_dir by done. unfold os.MkdirAll.
      case_bool_decide. { intros [= <- _]. by left. }
      destruct (os.mkdir_all fs _) as [fs1 [no|]] eqn:Hmk.
      * intros [= <- <-].
        destruct (mkdir_all_footprint _ _ _ _ q Hmk) as [Heq|(Hn & Hd & Hpre)];
          [by left |].
        rewrite rev_involutive in Hpre. right; left. split_and!; [done..|].
        exists h, payload, b. split; [by apply elem_of_cons; left | done].
      * apply Hstep.
        destruct (mkdir_all_footprint _ _ _ _ q Hmk) as [Heq|(Hn & Hd & Hpre)];
          [by left |].
        rewrite rev_involutive in Hpre. by right; left.
    + destruct free as [|free].
      { rewrite extract_reg_0 by done. intros [= <- _]. by left. }
      rewrite extract_reg by done.
      destruct (os.Create _ _ _) as [fs1|err] eqn:Hcr.
      2:{ intros [= <- _]. by left. }
      destruct (Create_Write _ _ _ _ payload Hcr) as [fw Hwrite].
      assert (os.Write cwd fs1 (filepath.Join dest (HName h)) payload !! q = fs !! q
              ∨ fs !! q = None
                ∧ os.Write cwd fs1 (filepath.Join dest (HName h)) payload !! q
                  = Some (Dir true)
                ∧ Typeflag h = tar.TypeDir ∧ q `prefix_of` target cwd dest h
              ∨ (∀ w, fs !! q ≠ Some (Dir w))
                ∧ (∃ fw0 content,
                     os.Write cwd fs1 (filepath.Join dest (HName h)) payload !! q
                     = Some (File fw0 content))
                ∧ Typeflag h = tar.TypeReg ∧ q = target cwd dest h) as Hone.
      { rewrite Hwrite. destruct (decide (q = target cwd dest h)) as [->|Hne].
        - right; right. split_and!; [|rewrite lookup_insert_eq; eauto|done..].
          intros w. by eapply Create_not_dir.
        - left. by rewrite lookup_insert_ne. }
      simpl. destruct b.
      * intros [= <- _].
        destruct Hone as [?|[(? & ? & ? & ?)|(? & ? & ? & ?)]]; [by left | |].
        -- right; left. split_and!; [done..|].
           exists h, payload, true. split; [by apply elem_of_cons; left | done].
        -- right; right. split_and!; [done..|].
           exists h, payload, true. split; [by apply elem_of_cons; left | done].
      * by apply Hstep.
    + rewrite extract_other by done. apply Hstep. by left.
  - intros [= <- _]. by left.
Qed.

Lemma extractEntries_app_ok (cwd : path) (dest : string) (free : nat)
  (items1 items2 : list TarItem) (fs fs' : gmap path node) :
  extractEntries cwd dest free (items1 ++ items2) fs = (fs', None) →
  ∃ fs1, extractEntries cwd dest free items1 fs = (fs1, None)
    ∧ extractEntries cwd dest (free - opened items1) items2 fs1 = (fs', None).
Proof.
  rewrite extractEntries_app.
  destruct (extractEntries cwd dest free items1 fs) as [fs1 [err|]]; [done |].
  intros Hrest. by exists fs1.
Qed.

Lemma extractEntries_keeps_dirs (cwd : path) (dest : string) (free : nat)
  (items : list TarItem) (fs fs' : gmap path node) (r : option error)
  (q : path) (w : bool) :
  extractEntries cwd dest free items fs = (fs', r) →
  fs !! q = Some (Dir w) → fs' !! q = Some (Dir w).
Proof.
  intros Hrun Hq.
  destruct (extractEntries_footprint _ _ _ _ _ _ _ q Hrun)
    as [Heq|[(Hn & _)|(Hnd & _)]]; [congruence | congruence |].
  by destruct (Hnd w).
Qed.

(** A walk that ends in a directory still does when directories stay. *)
Lemma walk_mono (fs fs' : gmap path node) (cur rest : path) (w : bool) :
  (∀ x w', fs !! x = Some (Dir w') → fs' !! x = Some (Dir w')) →
  os.walk fs cur rest = inr (Dir w) → os.walk fs' cur rest = inr (Dir w).
Proof.
  intros Hdirs. revert cur. induction rest as [|c rest IH]; intros cur; simpl.
  - destruct (fs !! cur) as [n|] eqn:Hcur; [|done].
    intros [= ->]. by rewrite (Hdirs _ _ Hcur).
  - destruct (fs !! cur) as [[w'|w' b]|] eqn:Hcur; [|done..].
    rewrite (Hdirs _ _ Hcur). apply IH.
Qed.

Lemma walk_snoc (fs : gmap path node) (cur l : path) (c : string) (w : bool) :
  os.walk fs cur l = inr (Dir w) →
  os.walk fs cur (l ++ [c])
  = match fs !! (cur ++ l ++ [c]) with
    | Some n => inr n
    | None => inl ENOENT
    end.
Proof.
  revert cur. induction l as [|a l IH]; intros cur; simpl.
  - destruct (fs !! cur) as [[w'|w' b]|]; [|done..]. intros _.
    by destruct (fs !! (cur ++ [c])).
  - destruct (fs !! cur) as [[w'|w' b]|]; [|done..].
    intros Hwalk. rewrite (IH _ Hwalk). by rewrite <- app_assoc.
Qed.

Lemma mkdir_all_walk (fs fs' : gmap path node) (rev_p : path) :
  os.mkdir_all fs rev_p = (fs', None) →
  ∃ w, os.lookup_path fs' (rev rev_p) = inr (Dir w).
Proof.
  destruct rev_p as [|c rev_p]; simpl.
  - destruct (os.lookup_path fs []) as [no|[w|w b]] eqn:Hlook; [done | |done].
    intros [= <-]. eauto.
  - destruct (os.lookup_path fs _) as [no|[w|w b]] eqn:Hlook; [| |done].
    2:{ intros [= <-]. eauto. }
    destruct (os.mkdir_all fs rev_p) as [fs1 [no1|]]; [done |].
    unfold os.mkdir_at. case_bool_decide; [done |].
    unfold os.parent. rewrite removelast_last.
    destruct (os.lookup_path fs1 (rev rev_p)) as [no2|[w|w b]] eqn:Hparent;
      [done | |done].
    destruct (fs1 !! (rev rev_p ++ [c])) eqn:Hnew; [done |].
    destruct w; [|done]. intros [= <-]. exists true.
    unfold os.lookup_path in *.
    rewrite (walk_snoc _ _ _ _ true).
    + simpl. by rewrite lookup_insert_eq.
    + apply (walk_mono fs1); [|done].
      intros x w' Hx. rewrite lookup_insert_ne; [done |]. congruence.
Qed.

Lemma extractEntries_dir_reachable (cwd : path) (dest : string) (free : nat)
  (items : list TarItem) (fs fs' : gmap path node) (h : Header)
  (payload : bytes) (b : bool) :
  extractEntries cwd dest free items fs = (fs', None) →
  Entry h payload b ∈ items → Typeflag h = tar.TypeDir →
  ∃ w, os.lookup_path fs' (target cwd dest h) = inr (Dir w).
Proof.
  intros Hrun Hin Hdir. revert free fs Hrun.
  induction items as [|[h0 payload0 b0|msg] items IH]; intros free fs Hrun.
  - by apply elem_of_nil in Hin.
  - destruct (decide (Typeflag h0 = tar.TypeDir)) as [Hdir0|Hdir0];
      [|destruct (decide (Typeflag h0 = tar.TypeReg)) as [Hreg0|Hreg0]].
    + rewrite extract_dir in Hrun by done.
      destruct (os.MkdirAll _ _ _) as [fs1 [err|]] eqn:Hmk; [done |].
      apply elem_of_cons in Hin as [Heq|Hin]; [|by eapply IH].
      injection Heq as <- <- <-.
      unfold os.MkdirAll in Hmk. case_bool_decide; [done |].
      destruct (os.mkdir_all fs _) as [fs2 [no|]] eqn:Hall; [done |].
      injection Hmk as ->.
      apply mkdir_all_walk in Hall as [w Hwalk].
      rewrite rev_involutive in Hwalk. exists w.
      apply (walk_mono fs1); [|done].
      intros x w'. by eapply extractEntries_keeps_dirs.
    + destruct free as [|free]; [by rewrite extract_reg_0 in Hrun |].
      rewrite extract_reg in Hrun by done.
      destruct (os.Create _ _ _) as [fs1|err]; [|done].
      simpl in Hrun. destruct b0; [done |].
      apply elem_of_cons in Hin as [Heq|Hin]; [|by eapply IH].
      injection Heq as -> _ _. congruence.
    + rewrite extract_other in Hrun by done.
      apply elem_of_cons in Hin as [Heq|Hin]; [|by eapply IH].
      injection Heq as -> _ _. done.
  - done.
Qed.

(** What [MkdirAll] leaves alone: every path that is not on the way to the
    directory asked for. *)
Lemma MkdirAll_footprint (cwd : path) (fs fs' : gmap path node) (name : string)
  (r : option error) (q : path) :
  os.MkdirAll cwd fs name = (fs', r) → ¬ q `prefix_of` os.resolve cwd name →
  fs' !! q = fs !! q.
Proof.
  unfold os.MkdirAll. case_bool_decide; [by intros [= <- _] |].
  destruct (os.mkdir_all _ _) as [fs1 [no|]] eqn:Hmk; intros [= <- _] Hq;
    (destruct (mkdir_all_footprint _ _ _ _ q Hmk) as [Heq|(_ & _ & Hpre)];
     [done | by rewrite rev_involutive in Hpre]).
Qed.

(** The directory that [MkdirAll] was asked for is found. *)
Lemma MkdirAll_Stat (cwd : path) (fs fs' : gmap path node) (name : string) :
  os.MkdirAll cwd fs name = (fs', None) →
  ∃ w, os.Stat cwd fs' name = Ok (Dir w).
Proof.
  unfold os.MkdirAll, os.Stat. case_bool_decide; [done |].
  destruct (os.mkdir_all _ _) as [fs1 [no|]] eqn:Hmk; [done |].
  intros [= <-]. apply mkdir_all_walk in Hmk as [w Hwalk].
  rewrite rev_involutive in Hwalk. exists w. by rewrite Hwalk.
Qed.

(** A file stays as it is while no regular-file entry goes to its place. *)
Lemma extractEntries_keeps_file (cwd : path) (dest : string) (free : nat)
  (items : list TarItem) (fs fs' : gmap path node) (r : option error)
  (q : path) (fw : bool) (content : bytes) :
  extractEntries cwd dest free items fs = (fs', r) →
  fs !! q = Some (File fw content) →
  (∀ h payload b, Entry h payload b ∈ items → Typeflag h = tar.TypeReg →
     target cwd dest h ≠ q) →
  fs' !! q = Some (File fw content).
Proof.
  intros Hrun Hq Hfar.
  destruct (extractEntries_footprint _ _ _ _ _ _ _ q Hrun)
    as [Heq|[(Hn & _)|(_ & _ & h & payload & b & Hin & Hreg & Heq)]];
    [congruence | congruence |].
  by destruct (Hfar _ _ _ Hin Hreg).
Qed.

(** A regular-file entry that was applied, and after which the extraction
    went on to its end, has left its payload, unless a later regular-file
    entry went to the same place. *)
Lemma extractEntries_payload (cwd : path) (dest : string) (free : nat)
  (before after : list TarItem) (h : Header) (payload : bytes) (b : bool)
  (fs fs' : gmap path node) :
  extractEntries cwd dest free (before ++ Entry h payload b :: after) fs
  = (fs', None) →
  Typeflag h = tar.TypeReg →
  (∀ h' payload' b', Entry h' payload' b' ∈ after →
     Typeflag h' = tar.TypeReg → target cwd dest h' ≠ target cwd dest h) →
  ∃ fw, fs' !! target cwd dest h = Some (File fw payload).
Proof.
  intros (fs1 & _ & Hrun)%extractEntries_app_ok Hreg Hlast.
  destruct (free - opened before) as [|n];
    [by rewrite extract_reg_0 in Hrun |].
  rewrite extract_reg in Hrun by done.
  destruct (os.Create _ _ _) as [fs2|err] eqn:Hcr; [|done].
  destruct (Create_Write _ _ _ _ payload Hcr) as [fw Hwrite].
  simpl in Hrun. rewrite Hwrite in Hrun. fold (target cwd dest h) in Hrun.
  destruct b; [done |]. exists fw.
  apply (extractEntries_keeps_file _ _ _ _ _ _ _ _ _ _ Hrun); [|done].
  apply lookup_insert_eq.
Qed.

(** C2.  During extraction every entry goes to the destination directory
    joined with the entry's stored name as it is, wherever the entry stands in
    the archive.  A regular-file entry that is reached changes the file
    system at that path only, and when it is applied the file at that path
    holds its payload; a directory entry that is reached changes the file
    system on the way to that path only, and when it is applied the
    directory is found at that path; and when the whole archive is extracted,
    every directory entry is a directory at its path and every regular-file
    entry after which no other goes to the same path is its payload at its
    path.  Nothing keeps the path inside the destination: the entry
    ../../../.bashrc, extracted into /home/u/.steam/steam/compatibilitytools.d
    after a directory entry, is written to /home/u/.bashrc, outside the
    destination. *)
Theorem extraction_joins_names_verbatim :
  (∀ cwd dest free before h payload b fs fs1 fs2 r,
     Typeflag h = tar.TypeReg →
     extractEntries cwd dest free before fs = (fs1, None) →
     extractEntries cwd dest free (before ++ [Entry h payload b]) fs = (fs2, r) →
     (r = None →
      ∃ fw, fs2 = <[os.resolve cwd (filepath.Join dest (HName h))
                    := File fw payload]> fs1)
     ∧ (∀ q, q ≠ os.resolve cwd (filepath.Join dest (HName h)) →
          fs2 !! q = fs1 !! q))
  ∧ (∀ cwd dest free before h payload b fs fs1 fs2 r,
       Typeflag h = tar.TypeDir →
       extractEntries cwd dest free before fs = (fs1, None) →
       extractEntries cwd dest free (before ++ [Entry h payload b]) fs = (fs2, r) →
       (r = None →
        ∃ w, os.Stat cwd fs2 (filepath.Join dest (HName h)) = Ok (Dir w))
       ∧ (∀ q, ¬ q `prefix_of` os.resolve cwd (filepath.Join dest (HName h)) →
            fs2 !! q = fs1 !! q))
  ∧ (∀ cwd dest free items fs fs',
       extractEntries cwd dest free items fs = (fs', None) →
       (∀ h payload b, Entry h payload b ∈ items → Typeflag h = tar.TypeDir →
          is_dir (fs' !! os.resolve cwd (filepath.Join dest (HName h))))
       ∧ (∀ before h payload b after,
            items = before ++ Entry h payload b :: after →
            Typeflag h = tar.TypeReg →
            (∀ h' payload' b', Entry h' payload' b' ∈ after →
               Typeflag h' = tar.TypeReg →
               os.resolve cwd (filepath.Join dest (HName h'))
               ≠ os.resolve cwd (filepath.Join dest (HName h))) →
            ∃ fw, fs' !! os.resolve cwd (filepath.Join dest (HName h))
                  = Some (File fw payload)))
  ∧ (In ".." (filepath.elems (HName Scenario.climbing))
     ∧ filepath.Join Scenario.dest (HName Scenario.climbing) = "/home/u/.bashrc"
     ∧ ¬ os.resolve [] Scenario.dest
         `prefix_of` os.resolve [] (filepath.Join Scenario.dest
                                      (HName Scenario.climbing))
     ∧ Scenario.escaping
       = [Entry (mkHeader "bin/" tar.TypeDir) [] false;
          Entry Scenario.climbing Scenario.ok false]
     ∧ (extractEntries [] Scenario.dest 1024 Scenario.escaping
          Scenario.fresh).2 = None
     ∧ (extractEntries [] Scenario.dest 1024 Scenario.escaping
          Scenario.fresh).1
         !! ["home"; "u"; ".bashrc"] = Some (File true Scenario.ok)).
Proof.
  split_and!.
  - intros cwd dest free before h payload b fs fs1 fs2 r Hreg Hbefore.
    rewrite extractEntries_app, Hbefore.
    destruct (free - opened before) as [|n].
    { rewrite extract_reg_0 by done. by intros [= <- <-]. }
    rewrite extract_reg by done.
    destruct (os.Create _ _ _) as [fs3|err] eqn:Hcr; [|by intros [= <- <-]].
    destruct (Create_Write _ _ _ _ payload Hcr) as [fw Hwrite].
    simpl. rewrite Hwrite.
    destruct b; intros [= <- <-];
      (split; [|by intros q Hq; rewrite lookup_insert_ne]); [done | eauto].
  - intros cwd dest free before h payload b fs fs1 fs2 r Hdir Hbefore.
    rewrite extractEntries_app, Hbefore, extract_dir by done.
    destruct (os.MkdirAll _ _ _) as [fs3 [err|]] eqn:Hmk; intros [= <- <-].
    + split; [done |]. intros q Hq. by eapply MkdirAll_footprint.
    + split; [intros _; by eapply MkdirAll_Stat |].
      intros q Hq. by eapply MkdirAll_footprint.
  - intros cwd dest free items fs fs' Hrun. split.
    + intros h payload b Hin Hdir.
      destruct (extractEntries_dir_reachable _ _ _ _ _ _ _ _ _ Hrun Hin Hdir)
        as [w Hwalk].
      apply walk_inr in Hwalk. simpl in Hwalk. unfold target in Hwalk.
      by rewrite Hwalk.
    + intros before h payload b after -> Hreg Hlast.
      by eapply extractEntries_payload.
  - simpl. tauto.
  - reflexivity.
  - apply (bool_decide_eq_false_1 _). vm_compute. reflexivity.
  - reflexivity.
  - vm_compute. reflexivity.
  - vm_compute. reflexivity.
Qed.

(** What the first part of C2 says of the entry bin/run of the scenario,
    which comes second in its archive. *)
Lemma extraction_joins_names_verbatim_witness :
  ((extractEntries [] Scenario.dest 1024 Scenario.items Scenario.fresh).2 = None →
   ∃ fw, (extractEntries [] Scenario.dest 1024 Scenario.items Scenario.fresh).1
         = <[os.resolve [] (filepath.Join Scenario.dest "bin/run")
             := File fw Scenario.ok]>
             (extractEntries [] Scenario.dest 1024
                [Entry (mkHeader "bin/" tar.TypeDir) [] false] Scenario.fresh).1)
  ∧ (∀ q, q ≠ os.resolve [] (filepath.Join Scenario.dest "bin/run") →
       (extractEntries [] Scenario.dest 1024 Scenario.items Scenario.fresh).1 !! q
       = (extractEntries [] Scenario.dest 1024
            [Entry (mkHeader "bin/" tar.TypeDir) [] false] Scenario.fresh).1 !! q).
Proof.
  apply (proj1 extraction_joins_names_verbatim [] Scenario.dest 1024
           [Entry (mkHeader "bin/" tar.TypeDir) [] false]
           (mkHeader "bin/run" tar.TypeReg) Scenario.ok false Scenario.fresh).
  - reflexivity.
  - apply without_error. vm_compute. reflexivity.
  - apply surjective_pairing.
Defined.

(** C6.  An entry that is neither a directory nor a regular file, a symbolic
    link say, is skipped: alone it leaves the file system as it is and gives
    no error, and an archive with it is extracted as the archive without
    it. *)
Theorem other_entries_are_skipped (cwd : path) (dest : string) (free : nat)
  (before after : list TarItem) (h : Header) (payload : bytes) (breaks : bool)
  (fs : gmap path node) :
  Typeflag h ≠ tar.TypeDir → Typeflag h ≠ tar.TypeReg →
  extractEntries cwd dest free [Entry h payload breaks] fs = (fs, None)
  ∧ extractEntries cwd dest free (before ++ Entry h payload breaks :: after) fs
    = extractEntries cwd dest free (before ++ after) fs.
Proof.
  intros Hdir Hreg. split; [by rewrite extract_other |].
  rewrite !extractEntries_app.
  destruct (extractEntries cwd dest free before fs) as [fs1 [err|]]; [done |].
  by rewrite extract_other.
Qed.

Lemma other_entries_are_skipped_witness :
  extractEntries [] Scenario.dest 1024
    [Entry (mkHeader "bin/sh" tar.TypeSymlink) [] false] Scenario.fresh
  = (Scenario.fresh, None)
  ∧ extractEntries [] Scenario.dest 1024 Scenario.with_link Scenario.fresh
    = extractEntries [] Scenario.dest 1024 Scenario.items Scenario.fresh.
Proof.
  apply (other_entries_are_skipped [] Scenario.dest 1024
           [Entry (mkHeader "bin/" tar.TypeDir) [] false]
           [Entry (mkHeader "bin/run" tar.TypeReg) Scenario.ok false]
           (mkHeader "bin/sh" tar.TypeSymlink) [] false Scenario.fresh);
    simpl; discriminate.
Defined.

(** What a failing entry leaves of the file system it was applied to:
    everything, but for the file whose copy broke. *)
Lemma entry_fails_keeps (cwd : path) (dest : string) (free : nat)
  (fs1 fs' : gmap path node) (it : TarItem) (err : error) (q : path) (n : node) :
  entry_fails cwd dest free fs1 it fs' err → fs1 !! q = Some n →
  fs' !! q = Some n
  ∨ ∃ h payload, it = Entry h payload true ∧ Typeflag h = tar.TypeReg
      ∧ q = target cwd dest h.
Proof.
  intros [e|h payload breaks fs2 e Hdir Hmk|h payload breaks Hreg Hfree
         |h payload breaks e Hreg Hfree Hcr|h payload fs2 Hreg Hfree Hcr] Hq.
  - by left.
  - left. apply MkdirAll_mono in Hmk. by eapply lookup_weaken.
  - by left.
  - by left.
  - destruct (Create_Write _ _ _ _ payload Hcr) as [fw ->].
    destruct (decide (q = target cwd dest h)) as [->|Hne]; [right; eauto |].
    left. by rewrite lookup_insert_ne.
Qed.

(** A failing entry leaves the directories. *)
Lemma entry_fails_keeps_dirs (cwd : path) (dest : string) (free : nat)
  (fs1 fs' : gmap path node) (it : TarItem) (err : error) (q : path) (w : bool) :
  entry_fails cwd dest free fs1 it fs' err → fs1 !! q = Some (Dir w) →
  fs' !! q = Some (Dir w).
Proof.
  intros [e|h payload breaks fs2 e Hdir Hmk|h payload breaks Hreg Hfree
         |h payload breaks e Hreg Hfree Hcr|h payload fs2 Hreg Hfree Hcr] Hq.
  - done.
  - apply MkdirAll_mono in Hmk. by eapply lookup_weaken.
  - done.
  - done.
  - destruct (Create_Write _ _ _ _ payload Hcr) as [fw ->].
    rewrite lookup_insert_ne; [done |].
    intros <-. by destruct (Create_not_dir _ _ _ _ w Hcr).
Qed.

(** A failing entry removes nothing. *)
Lemma entry_fails_removes_nothing (cwd : path) (dest : string) (free : nat)
  (fs1 fs' : gmap path node) (it : TarItem) (err : error) (q : path) :
  entry_fails cwd dest free fs1 it fs' err → is_Some (fs1 !! q) →
  is_Some (fs' !! q).
Proof.
  intros [e|h payload breaks fs2 e Hdir Hmk|h payload breaks Hreg Hfree
         |h payload breaks e Hreg Hfree Hcr|h payload fs2 Hreg Hfree Hcr] [n Hq].
  - by rewrite Hq.
  - apply MkdirAll_mono in Hmk. by rewrite (lookup_weaken _ _ _ _ Hq Hmk).
  - by rewrite Hq.
  - by rewrite Hq.
  - destruct (Create_Write _ _ _ _ payload Hcr) as [fw ->].
    destruct (decide (q = os.resolve cwd (filepath.Join dest (HName h))))
      as [->|Hne].
    + by rewrite lookup_insert_eq.
    + by rewrite lookup_insert_ne, Hq.
Qed.

(** C7.  The extraction fails exactly when the archive cannot be opened, the
    gzip header cannot be read, an entry is malformed, a directory cannot be
    made, a file cannot be created or a payload cannot be copied.  The first
    failure ends the extraction with its error, whatever follows it in the
    archive, and what the entries before it put on disk stays: nothing that
    was there is removed, every directory entry before the failure is a
    directory that is found at its path, and every regular-file entry before
    the failure is its payload at its path, unless a later entry, up to the
    failing one, went to the same path. *)
Theorem extraction_fails_exactly (env : Env) (tarGzPath dest : string)
  (fs fs' : gmap path node) (err : error) :
  (extractTarGzFile env tarGzPath dest fs = (fs', Some err)
   ↔ extraction_fails env tarGzPath dest fs fs' err)
  ∧ (∀ before it after fs1,
       extractEntries (cwd env) dest (nofile env) before fs = (fs1, None) →
       entry_fails (cwd env) dest (nofile env - opened before) fs1 it fs' err →
       extractEntries (cwd env) dest (nofile env) (before ++ it :: after) fs
       = (fs', Some err)
       ∧ (∀ q n, fs !! q = Some n → is_Some (fs' !! q))
       ∧ (∀ q n, fs1 !! q = Some n →
            fs' !! q = Some n
            ∨ ∃ h payload, it = Entry h payload true
                ∧ Typeflag h = tar.TypeReg ∧ q = target (cwd env) dest h)
       ∧ (∀ h payload b, Entry h payload b ∈ before →
            Typeflag h = tar.TypeDir →
            ∃ w, os.lookup_path fs' (target (cwd env) dest h) = inr (Dir w))
       ∧ (∀ earlier h payload b later,
            before = earlier ++ Entry h payload b :: later →
            Typeflag h = tar.TypeReg →
            (∀ h' payload' b', Entry h' payload' b' ∈ later ++ [it] →
               Typeflag h' = tar.TypeReg →
               target (cwd env) dest h' ≠ target (cwd env) dest h) →
            ∃ fw, fs' !! target (cwd env) dest h = Some (File fw payload))).
Proof.
  split; [split |].
  - unfold extractTarGzFile.
    destruct (os.Open _ _ _) as [[w|w content]|e] eqn:Hopen.
    + intros [= <- <-]. by eapply header_read_failure.
    + destruct (gzip_tar env fs tarGzPath dest) as [e|items] eqn:Hgz.
      * intros [= <- <-]. by eapply header_failure.
      * intros (before & it & after & fs1 & -> & Hbefore & Hit)%extractEntries_fails.
        by eapply entry_failure.
    + intros [= <- <-]. by apply archive_open_failure.
  - unfold extractTarGzFile.
    intros [e Hopen|w Hopen|w content e Hopen Hgz
           |w content before it after fs1 fs2 e Hopen Hgz Hbefore Hit].
    + by rewrite Hopen.
    + by rewrite Hopen.
    + by rewrite Hopen, Hgz.
    + rewrite Hopen, Hgz. apply extractEntries_fails. naive_solver.
  - intros before it after fs1 Hbefore Hit. split_and!.
    + apply extractEntries_fails. naive_solver.
    + intros q n Hq.
      assert (is_Some (fs1 !! q)) as [n1 Hq1].
      { destruct (extractEntries_footprint _ _ _ _ _ _ _ q Hbefore)
          as [Heq|[(Hn & _)|(_ & (fw & content & Hf) & _)]]; [|congruence|].
        - by rewrite Heq, Hq.
        - by rewrite Hf. }
      apply (entry_fails_removes_nothing _ _ _ _ _ _ _ q Hit). by rewrite Hq1.
    + intros q n Hq. by eapply entry_fails_keeps.
    + intros h payload b Hin Hdir.
      destruct (extractEntries_dir_reachable _ _ _ _ _ _ _ _ _ Hbefore Hin Hdir)
        as [w Hwalk].
      exists w. apply (walk_mono fs1); [|done].
      intros x w'. by eapply entry_fails_keeps_dirs.
    + intros earlier h payload b later -> Hreg Hlast.
      destruct (extractEntries_payload _ _ _ _ _ _ _ _ _ _ Hbefore Hreg)
        as [fw Hfile].
      { intros h' payload' b' Hin. apply (Hlast h' payload' b').
        rewrite elem_of_app. by left. }
      exists fw.
      destruct (entry_fails_keeps _ _ _ _ _ _ _ _ _ Hit Hfile)
        as [Hkept|(h' & payload' & -> & Hreg' & Heq)]; [done |].
      destruct (Hlast h' payload' true); [|done..].
      rewrite elem_of_app, list_elem_of_singleton. by right.
Qed.

(** C7 on the broken archive of the scenario, downloaded to the archive path:
    the extraction ends with the error of the copy.  In the archive that
    breaks in its third entry, the directory and the file before it are on
    disk after the failure, and so is the part of the third that was read. *)
Lemma extraction_fails_exactly_witness :
  extraction_fails (Scenario.network Scenario.release Scenario.broken)
    "/home/u/.steam/steam/compatibilitytools.d/GE-Proton-v1.2.3.tar.gz"
    Scenario.dest Scenario.locked
    (extractTarGzFile (Scenario.network Scenario.release Scenario.broken)
       "/home/u/.steam/steam/compatibilitytools.d/GE-Proton-v1.2.3.tar.gz"
       Scenario.dest Scenario.locked).1
    ErrUnexpectedEOF
  ∧ (extractEntries [] Scenario.dest 1024 Scenario.halfway Scenario.fresh).2
    = Some ErrUnexpectedEOF
  ∧ (extractEntries [] Scenario.dest 1024 Scenario.halfway Scenario.fresh).1
      !! (Scenario.install_root ++ ["bin"]) = Some (Dir true)
  ∧ (extractEntries [] Scenario.dest 1024 Scenario.halfway Scenario.fresh).1
      !! (Scenario.install_root ++ ["bin"; "run"])
    = Some (File true Scenario.ok)
  ∧ (extractEntries [] Scenario.dest 1024 Scenario.halfway Scenario.fresh).1
      !! (Scenario.install_root ++ ["bin"; "last"])
    = Some (File true [x6f]%byte).
Proof.
  split.
  - apply (proj1 (proj1 (extraction_fails_exactly _ _ _ _ _ _))).
    apply with_error. vm_compute. reflexivity.
  - split_and!; vm_compute; reflexivity.
Defined.

(** C3, as stated, fails.  The archive that holds the file run twice has only
    regular files with relative names under the destination and is extracted
    without error, but the file keeps the payload of the second entry, not
    that of the first.  The archive that holds only the file bin/run is not
    extracted: no entry makes the directory bin.  The archive of the scenario
    is not extracted into a folder that holds a regular file bin, the archive
    with the files a and b is not extracted into a folder that cannot be
    written to, the archive whose second payload breaks is not extracted
    whole, and the archive with the files a and b is not extracted by a
    process that can open one more file only. *)
Lemma later_entry_overwrites :
  (extractEntries [] Scenario.dest 1024 Scenario.twice Scenario.fresh).2 = None
  ∧ Entry (mkHeader "run" tar.TypeReg) [x31]%byte false ∈ Scenario.twice
  ∧ target [] Scenario.dest (mkHeader "run" tar.TypeReg)
    = Scenario.install_root ++ ["run"]
  ∧ (extractEntries [] Scenario.dest 1024 Scenario.twice Scenario.fresh).1
      !! (Scenario.install_root ++ ["run"])
    = Some (File true [x32]%byte)
  ∧ [x32]%byte ≠ [x31]%byte
  ∧ (extractEntries [] Scenario.dest 1024 Scenario.orphan Scenario.fresh).2
    = Some (PathError "open"
              "/home/u/.steam/steam/compatibilitytools.d/bin/run" ENOENT)
  ∧ (extractEntries [] Scenario.dest 1024 Scenario.items
       (<[Scenario.install_root ++ ["bin"] := File true []]> Scenario.fresh)).2
    = Some (PathError "mkdir"
              "/home/u/.steam/steam/compatibilitytools.d/bin" ENOTDIR)
  ∧ (extractEntries [] Scenario.dest 1024 Scenario.pair Scenario.locked).2
    = Some (PathError "open" "/home/u/.steam/steam/compatibilitytools.d/a"
              EACCES)
  ∧ (extractEntries [] Scenario.dest 1024 Scenario.broken Scenario.fresh).2
    = Some ErrUnexpectedEOF
  ∧ (extractEntries [] Scenario.dest 1 Scenario.pair Scenario.fresh).2
    = Some (PathError "open" "/home/u/.steam/steam/compatibilitytools.d/b"
              EMFILE).
Proof.
  split_and!.
  - vm_compute. reflexivity.
  - apply elem_of_cons. by left.
  - reflexivity.
  - vm_compute. reflexivity.
  - discriminate.
  - vm_compute. reflexivity.
  - vm_compute. reflexivity.
  - vm_compute. reflexivity.
  - vm_compute. reflexivity.
  - vm_compute. reflexivity.
Qed.

(** C3, amended.  Take an archive of directory entries and regular-file
    entries that can all be read, a destination that is a writable directory
    of a file system that is a tree, and a process that can still open as
    many files as the archive has regular files.  Let every entry stay under
    the destination; let what is there already on the way from the
    destination down to an entry be writable and be a directory, or, at the
    path of a regular-file entry, a regular file; let every file sit in the
    destination, in a directory that is there already or in one that an
    earlier directory entry makes; and let no other entry go to the place of
    a file or below it.  Then the extraction succeeds; every directory entry
    is a directory at the destination joined with its name, and so are the
    directories above it; every regular file can be opened at the destination
    joined with its name and holds exactly its payload. *)
Theorem extraction_reproduces_archive (cwd : path) (dest : string) (free : nat)
  (items : list TarItem) (fs : gmap path node) :
  dest ≠ "" →
  closed fs →
  fs !! os.resolve cwd dest = Some (Dir true) →
  (opened items ≤ free)%nat →
  (∀ it, it ∈ items →
     ∃ h payload, it = Entry h payload false
       ∧ (Typeflag h = tar.TypeDir ∨ Typeflag h = tar.TypeReg)) →
  (∀ h payload b, Entry h payload b ∈ items →
     os.resolve cwd dest `prefix_of` target cwd dest h
     ∧ (Typeflag h = tar.TypeReg → target cwd dest h ≠ os.resolve cwd dest)) →
  fits cwd dest items fs →
  (∀ before h payload b after,
     items = before ++ Entry h payload b :: after → Typeflag h = tar.TypeReg →
     os.parent (target cwd dest h) = os.resolve cwd dest
     ∨ is_dir (fs !! os.parent (target cwd dest h))
     ∨ ∃ h' payload' b', Entry h' payload' b' ∈ before
         ∧ Typeflag h' = tar.TypeDir
         ∧ os.parent (target cwd dest h) `prefix_of` target cwd dest h') →
  (∀ before h payload b after,
     items = before ++ Entry h payload b :: after → Typeflag h = tar.TypeReg →
     ∀ h' payload' b', Entry h' payload' b' ∈ before ++ after →
     ¬ target cwd dest h `prefix_of` target cwd dest h') →
  ∃ fs', extractEntries cwd dest free items fs = (fs', None)
    ∧ (∀ h payload b q, Entry h payload b ∈ items → Typeflag h = tar.TypeDir →
         q `prefix_of` target cwd dest h → is_dir (fs' !! q))
    ∧ (∀ h payload b, Entry h payload b ∈ items → Typeflag h = tar.TypeReg →
         os.Open cwd fs' (filepath.Join dest (HName h))
         = Ok (File true payload)).
Proof.
  intros Hdest Hclosed HD Hfree Hkinds Hunder Hfits Hparents Hclash.
  destruct (extracted_all cwd dest items fs Hdest Hkinds Hunder Hparents Hclash
              items [] free fs eq_refl Hfree)
    as (fs' & Hrun & Hclosed' & _ & _ & _ & Hdirs & Hfiles).
  { split_and!; [done | done | done | done | |].
    - intros h payload b Hin. by apply elem_of_nil in Hin.
    - intros h payload b Hin. by apply elem_of_nil in Hin. }
  exists fs'. split_and!; [done | |].
  - intros h payload b q Hin Hdir Hq. by eapply Hdirs.
  - intros h payload b Hin Hreg. unfold os.Open.
    rewrite bool_decide_eq_false_2 by by apply Join_nonempty.
    fold (target cwd dest h).
    by rewrite (lookup_path_Some _ _ _ Hclosed' (Hfiles _ _ _ Hin Hreg)).
Qed.

(** The amended C3 on the archive of the scenario, extracted a second time
    by a process that can open one more file: the directory bin and the file
    bin/run are there already, the file with another content. *)
Lemma extraction_reproduces_archive_witness :
  ∃ fs', extractEntries [] Scenario.dest 1 Scenario.items
           Scenario.unpacked_before
         = (fs', None)
    ∧ (∀ h payload b q, Entry h payload b ∈ Scenario.items →
         Typeflag h = tar.TypeDir →
         q `prefix_of` target [] Scenario.dest h → is_dir (fs' !! q))
    ∧ (∀ h payload b, Entry h payload b ∈ Scenario.items →
         Typeflag h = tar.TypeReg →
         os.Open [] fs' (filepath.Join Scenario.dest (HName h))
         = Ok (File true payload)).
Proof.
  apply extraction_reproduces_archive.
  - discriminate.
  - apply (bool_decide_unpack _). vm_compute. exact I.
  - vm_compute. reflexivity.
  - apply (bool_decide_unpack _). vm_compute. exact I.
  - intros it [->|[->|Hin%elem_of_nil]%elem_of_cons]%elem_of_cons; [| |done];
      eexists _, _; (split; [reflexivity |]); [by left | by right].
  - intros h payload b [Heq|[Heq|Hin%elem_of_nil]%elem_of_cons]%elem_of_cons;
      [| |done]; injection Heq as -> -> ->; (split; [|intros _]);
      apply (bool_decide_unpack _); vm_compute; exact I.
  - intros h payload b q Hin [[k ->] Hne] [k' Hk'].
    assert (k ≠ []) as Hk by (intros ->; by rewrite app_nil_r in Hne).
    rewrite <- app_assoc in Hk'.
    apply elem_of_cons in Hin as [Heq|[Heq|Hin%elem_of_nil]%elem_of_cons];
      [| |done]; injection Heq as -> -> ->;
      apply (app_inv_head (os.resolve [] Scenario.dest)) in Hk';
      destruct k as [|x [|y [|z k]]]; simpl in Hk'; simplify_eq.
    + vm_compute. split; [reflexivity | discriminate].
    + vm_compute. split; [reflexivity |]. intros _. discriminate.
    + vm_compute. split_and!; reflexivity.
  - intros before h payload b after Hitems Hreg. unfold Scenario.items in Hitems.
    destruct before as [|e1 [|e2 before]]; simpl in Hitems; simplify_eq.
    + right; right.
      eexists _, _, _. split_and!; [by apply list_elem_of_singleton | done |].
      apply (bool_decide_unpack _). vm_compute. exact I.
    + by destruct before.
  - intros before h payload b after Hitems Hreg h' payload' b' Hin.
    unfold Scenario.items in Hitems.
    destruct before as [|e1 [|e2 before]]; simpl in Hitems; simplify_eq.
    + apply list_elem_of_singleton in Hin. injection Hin as -> -> ->.
      apply (bool_decide_eq_false_1 _). vm_compute. reflexivity.
    + by destruct before.
Defined.

(** * The claims about the resolver *)

(** C4, as stated, fails: in this release the first asset whose name ends in
    .gz has an empty download URL, and the resolver gives the error of a
    release without archive instead of that asset's URL and the tag. *)
Lemma first_gz_asset_not_returned :
  first_gz (Assets Scenario.release_without_url) (mkAsset "pkg-v1.2.3.tar.gz" "")
  ∧ (getLatestReleaseURL
       (Scenario.network Scenario.release_without_url Scenario.items)
       "GloriousEggroll" "proton-ge-custom" (Scenario.world Scenario.fresh)).2
    = Err noTarGz.
Proof.
  split; [|vm_compute; reflexivity].
  exists [mkAsset "readme.txt" "http://x/readme.txt"],
    [mkAsset "pkg-v1.2.3-lite.tar.gz" "http://x/lite.tar.gz"].
  split_and!; [done | |by exists "pkg-v1.2.3.tar"].
  apply Forall_singleton. by rewrite <- Ext_gz.
Qed.

(** C4, amended.  When the first asset whose name ends in .gz has a download
    URL that is not empty, the resolver returns that URL together with the tag
    of the release, whatever assets come before it (none of them ends in .gz)
    and after it. *)
Theorem resolver_selects_first_gz (env : Env) (owner repo : string) (w : World)
  (resp : Response) (release : GitHubRelease) (asset : Asset) :
  http_Get env (latestURL owner repo) = inr resp →
  json_Decode env resp = inr release →
  first_gz (Assets release) asset →
  DownloadURL asset ≠ "" →
  getLatestReleaseURL env owner repo w
  = (sent (latestURL owner repo) w, Ok (TagName release, DownloadURL asset)).
Proof.
  intros Hget Hjson Hfirst Hurl.
  rewrite (getLatestReleaseURL_decoded _ _ _ _ _ _ Hget Hjson).
  unfold selectRelease. rewrite (findTarGz_first _ _ Hfirst).
  by rewrite bool_decide_eq_false_2.
Qed.

Lemma resolver_selects_first_gz_witness :
  getLatestReleaseURL Scenario.env "GloriousEggroll" "proton-ge-custom"
    (Scenario.world Scenario.fresh)
  = (sent apiURL (Scenario.world Scenario.fresh),
     Ok ("v1.2.3", "http://x/pkg.tar.gz")).
Proof.
  apply (resolver_selects_first_gz Scenario.env "GloriousEggroll"
           "proton-ge-custom" _ (mkResponse [] false) Scenario.release
           (mkAsset "pkg-v1.2.3.tar.gz" "http://x/pkg.tar.gz")).
  - reflexivity.
  - reflexivity.
  - exists [mkAsset "readme.txt" "http://x/readme.txt"], [].
    split_and!; [reflexivity | |by exists "pkg-v1.2.3.tar"].
    apply Forall_singleton. rewrite <- Ext_gz. discriminate.
  - discriminate.
Defined.

(** C10.  When the first asset whose name ends in .gz has an empty download
    URL, the resolver fails with the error of a release without archive,
    whatever assets follow it. *)
Theorem first_gz_without_url_fails (env : Env) (owner repo : string) (w : World)
  (resp : Response) (release : GitHubRelease) (asset : Asset) :
  http_Get env (latestURL owner repo) = inr resp →
  json_Decode env resp = inr release →
  first_gz (Assets release) asset →
  DownloadURL asset = "" →
  getLatestReleaseURL env owner repo w
  = (sent (latestURL owner repo) w, Err noTarGz).
Proof.
  intros Hget Hjson Hfirst Hurl.
  rewrite (getLatestReleaseURL_decoded _ _ _ _ _ _ Hget Hjson).
  unfold selectRelease. rewrite (findTarGz_first _ _ Hfirst), Hurl.
  by rewrite bool_decide_eq_true_2.
Qed.

Lemma first_gz_without_url_fails_witness :
  getLatestReleaseURL
    (Scenario.network Scenario.release_without_url Scenario.items)
    "GloriousEggroll" "proton-ge-custom" (Scenario.world Scenario.fresh)
  = (sent apiURL (Scenario.world Scenario.fresh), Err noTarGz).
Proof.
  apply (first_gz_without_url_fails _ "GloriousEggroll" "proton-ge-custom" _
           (mkResponse [] false) Scenario.release_without_url
           (mkAsset "pkg-v1.2.3.tar.gz" "")).
  - reflexivity.
  - reflexivity.
  - exists [mkAsset "readme.txt" "http://x/readme.txt"],
      [mkAsset "pkg-v1.2.3-lite.tar.gz" "http://x/lite.tar.gz"].
    split_and!; [reflexivity | |by exists "pkg-v1.2.3.tar"].
    apply Forall_singleton. rewrite <- Ext_gz. discriminate.
  - reflexivity.
Defined.

(** * The claims about the download *)

(** C9.  When the GET request fails, the download returns its error and the
    file system is the one it started with: the output file is neither
    created nor cut.  A download that fails and has changed the file system
    failed in the copy, after the request was answered and the output file
    was created. *)
Theorem failed_request_touches_no_file (env : Env) (url outputPath : string)
  (w : World) :
  (∀ msg, http_Get env url = inl msg →
     downloadLatestRelease env url outputPath w
     = (sent url w, Some (UrlError "Get" url msg))
     ∧ fs (sent url w) = fs w)
  ∧ (∀ w' err,
       downloadLatestRelease env url outputPath w = (w', Some err) →
       fs w' ≠ fs w →
       err = ErrUnexpectedEOF
       ∧ ∃ resp fs1,
           http_Get env url = inr resp ∧ body_breaks resp = true
           ∧ os.Create (cwd env) (fs w) outputPath = Ok fs1
           ∧ fs w' = os.Write (cwd env) fs1 outputPath (Body resp)).
Proof.
  unfold downloadLatestRelease. split.
  - intros msg ->. done.
  - intros w' err. destruct (http_Get env url) as [msg|resp] eqn:Hget.
    { intros [= <- <-]. done. }
    simpl. destruct (os.Create _ _ _) as [fs1|e] eqn:Hcr.
    2:{ intros [= <- <-]. done. }
    destruct (body_breaks resp) eqn:Hbreaks; [|done].
    intros [= <- <-] _. split; [done |]. by exists resp, fs1.
Qed.

Lemma failed_request_touches_no_file_witness :
  downloadLatestRelease Scenario.offline "http://x/pkg.tar.gz"
    "/home/u/.steam/steam/compatibilitytools.d/GE-Proton-v1.2.3.tar.gz"
    (Scenario.world Scenario.locked)
  = (sent "http://x/pkg.tar.gz" (Scenario.world Scenario.locked),
     Some (UrlError "Get" "http://x/pkg.tar.gz" "network is unreachable"))
  ∧ fs (sent "http://x/pkg.tar.gz" (Scenario.world Scenario.locked))
    = fs (Scenario.world Scenario.locked).
Proof.
  apply (proj1 (failed_request_touches_no_file Scenario.offline _ _ _)).
  reflexivity.
Defined.

(** * The program, step by step *)

Lemma compatibilityFolder_no_home (env : Env) (w : World) :
  HOME env = "" →
  compatibilityFolder env w
  = (eprinted (msg_no_home (ErrorString "$HOME is not defined")) w, inr 1%Z).
Proof.
  intros Hhome. unfold compatibilityFolder, UserHomeDir.
  by rewrite bool_decide_eq_true_2.
Qed.

Lemma compatibilityFolder_home (env : Env) (w : World) :
  HOME env ≠ "" →
  compatibilityFolder env w
  = match os.Stat (cwd env) (fs w) (folder env) with
    | Ok _ => (w, inl (folder env))
    | Err err =>
        if os.IsNotExist err then
          match os.Mkdir (cwd env) (fs w) (folder env) with
          | Ok fs1 => (set_fs fs1 w, inl (folder env))
          | Err _ => (eprinted (msg_no_folder (folder env)) w, inr 1%Z)
          end
        else (w, inl (folder env))
    end.
Proof.
  intros Hhome. unfold compatibilityFolder, UserHomeDir.
  rewrite bool_decide_eq_false_2 by done. proc_unfold.
  change (String.substring _ _ _) with ".steam/steam/compatibilitytools.d/".
  fold (folder env).
  destruct (os.Stat _ _ _) as [n|err]; [done |].
  destruct (os.IsNotExist err); [|done].
  by destruct (os.Mkdir _ _ _).
Qed.

Lemma compatibilityFolder_ready (env : Env) (w w1 : World) :
  HOME env ≠ "" → folder_ready env w w1 →
  compatibilityFolder env w = (w1, inl (folder env)).
Proof.
  intros Hhome Hready. rewrite compatibilityFolder_home by done.
  destruct Hready as [n ->|err -> ->|err fs1 -> -> ->]; done.
Qed.

Lemma main_unfold (env : Env) (w : World) :
  main env w
  = match compatibilityFolder env w with
    | (w1, inr code) => (w1, inr code)
    | (w1, inl dir) =>
        match getLatestReleaseURL env "GloriousEggroll" "proton-ge-custom" w1 with
        | (w2, Err err) => (eprinted (msg_unresolved err) w2, inr 1%Z)
        | (w2, Ok (tagName, url)) =>
            match os.Stat (cwd env) (fs w2) (filepath.Join dir tagName) with
            | Ok _ => (printed (already_installed tagName) w2, inr 0%Z)
            | Err _ => install env dir tagName url w2
            end
        end
    end.
Proof.
  unfold main. proc_unfold.
  destruct (compatibilityFolder env w) as [w1 [dir|code]]; [|done].
  destruct (getLatestReleaseURL _ _ _ w1) as [w2 [[tagName url]|err]]; [|done].
  by destruct (os.Stat _ _ _).
Qed.

Lemma install_unfold (env : Env) (dir tagName url : string) (w : World) :
  install env dir tagName url w
  = let file := filepath.Join dir ("GE-Proton-" +:+ tagName +:+ ".tar.gz") in
    match downloadLatestRelease env url file (printed (downloading url file) w) with
    | (w3, Some err) => (eprinted (msg_download err) w3, inr 1%Z)
    | (w3, None) =>
        let w4 := printed (extracting file dir) (printed (downloaded file) w3) in
        match extractTarGzFile env file dir (fs w3) with
        | (fs4, Some err) => (eprinted (msg_extract err) (set_fs fs4 w4), inr 1%Z)
        | (fs4, None) =>
            let w5 := printed (removing file)
                        (printed extraction_ok (set_fs fs4 w4)) in
            match os.Remove (cwd env) fs4 file with
            | Err err => (eprinted (msg_remove err) w5, inr 1%Z)
            | Ok fs5 => (printed removed (set_fs fs5 w5), inl tt)
            end
        end
    end.
Proof.
  unfold install. proc_unfold.
  destruct (downloadLatestRelease _ _ _ _) as [w3 [err|]]; [done |].
  world_simpl.
  destruct (extractTarGzFile _ _ _ _) as [fs4 [err|]]; [done |].
  world_simpl.
  by destruct (os.Remove _ _ _).
Qed.

(** ** The synchronisation as a state machine *)

Lemma run_resolved (env : Env) (w w2 : World) (tagName url : string) :
  resolved env w tagName url w2 →
  run env w
  = match os.Stat (cwd env) (fs w2) (marker env tagName) with
    | Ok _ => (printed (already_installed tagName) w2, 0%Z)
    | Err _ =>
        match install env (folder env) tagName url w2 with
        | (w', inl _) => (w', 0%Z)
        | (w', inr code) => (w', code)
        end
    end.
Proof.
  intros (Hhome & w1 & Hready & Hlatest). unfold run.
  rewrite main_unfold, (compatibilityFolder_ready _ _ _ Hhome Hready), Hlatest.
  fold (marker env tagName). by destruct (os.Stat _ _ _).
Qed.

Lemma run_wanted (env : Env) (w w2 : World) (tagName url : string) :
  wanted env w tagName url w2 →
  run env w
  = match install env (folder env) tagName url w2 with
    | (w', inl _) => (w', 0%Z)
    | (w', inr code) => (w', code)
    end.
Proof.
  intros (Hres & err & Hstat). by rewrite (run_resolved _ _ _ _ _ Hres), Hstat.
Qed.

(** A run of the state machine is a run of the program. *)
Lemma Sync_run (env : Env) (w w' : World) (t : Terminal) :
  Sync env w t w' → run env w = (w', status t).
Proof.
  intros [Hhome|err err' Hhome Hstat Hne Hmk|w1 w2 err Hhome Hready Hlatest
         |tagName url w2 n Hres Hstat|tagName url w2 w3 err Hwant Hdl
         |tagName url w3 fs4 err (w2 & Hwant & Hdl) Hex
         |tagName url w3 fs4 err [(w2 & Hwant & Hdl) Hex] Hrm
         |tagName url w3 fs4 fs5 [(w2 & Hwant & Hdl) Hex] Hrm].
  - unfold run. by rewrite main_unfold, compatibilityFolder_no_home.
  - unfold run.
    by rewrite main_unfold, compatibilityFolder_home, Hstat, Hne, Hmk.
  - unfold run.
    by rewrite main_unfold, (compatibilityFolder_ready _ _ _ Hhome Hready), Hlatest.
  - by rewrite (run_resolved _ _ _ _ _ Hres), Hstat.
  - rewrite (run_wanted _ _ _ _ _ Hwant), install_unfold. cbv zeta.
    fold (archive env tagName). by rewrite Hdl.
  - rewrite (run_wanted _ _ _ _ _ Hwant), install_unfold. cbv zeta.
    fold (archive env tagName). by rewrite Hdl, Hex.
  - rewrite (run_wanted _ _ _ _ _ Hwant), install_unfold. cbv zeta.
    fold (archive env tagName). by rewrite Hdl, Hex, Hrm.
  - rewrite (run_wanted _ _ _ _ _ Hwant), install_unfold. cbv zeta.
    fold (archive env tagName). by rewrite Hdl, Hex, Hrm.
Qed.

Lemma Sync_from_folder (env : Env) (w w1 : World) :
  HOME env ≠ "" → folder_ready env w w1 → ∃ t w', Sync env w t w'.
Proof.
  intros Hhome Hready.
  destruct (getLatestReleaseURL env "GloriousEggroll" "proton-ge-custom" w1)
    as [w2 [[tagName url]|err]] eqn:Hlatest.
  2:{ eexists _, _. by eapply sync_unresolved. }
  assert (resolved env w tagName url w2) as Hres by (split; eauto).
  destruct (os.Stat (cwd env) (fs w2) (marker env tagName)) as [n|err] eqn:Hstat.
  { eexists _, _. by eapply sync_present. }
  assert (wanted env w tagName url w2) as Hwant by (split; eauto).
  destruct (downloadLatestRelease env url (archive env tagName)
              (printed (downloading url (archive env tagName)) w2))
    as [w3 [err'|]] eqn:Hdl.
  { eexists _, _. by eapply sync_untransferred. }
  assert (transferred env w tagName url w3) as Htr by (exists w2; eauto).
  destruct (extractTarGzFile env (archive env tagName) (folder env) (fs w3))
    as [fs4 [err'|]] eqn:Hex.
  { eexists _, _. by eapply sync_unextracted. }
  assert (unpacked env w tagName url w3 fs4) as Hun by (split; eauto).
  destruct (os.Remove (cwd env) fs4 (archive env tagName)) as [fs5|err'] eqn:Hrm.
  - eexists _, _. by eapply sync_done.
  - eexists _, _. by eapply sync_uncleaned.
Qed.

(** Every run of the program is a run of the state machine. *)
Lemma Sync_total (env : Env) (w : World) : ∃ t w', Sync env w t w'.
Proof.
  destruct (decide (HOME env = "")) as [Hhome|Hhome].
  { eexists _, _. by apply sync_no_home. }
  destruct (os.Stat (cwd env) (fs w) (folder env)) as [n|err] eqn:Hstat.
  { eapply Sync_from_folder; [done | by eapply folder_found]. }
  destruct (os.IsNotExist err) eqn:Hne.
  2:{ eapply Sync_from_folder; [done | by eapply folder_unknown]. }
  destruct (os.Mkdir (cwd env) (fs w) (folder env)) as [fs1|err'] eqn:Hmk.
  - eapply Sync_from_folder; [done | by eapply folder_made].
  - eexists _, _. by eapply sync_no_folder.
Qed.

Lemma getLatestReleaseURL_stderr (env : Env) (owner repo : string) (w w' : World)
  (r : result (string * string)) :
  getLatestReleaseURL env owner repo w = (w', r) → stderr w' = stderr w.
Proof.
  unfold getLatestReleaseURL.
  destruct (http_Get env _) as [msg|resp]; [by intros [= <- _] |].
  destruct (json_Decode env resp); by intros [= <- _].
Qed.

Lemma downloadLatestRelease_stderr (env : Env) (url file : string) (w w' : World)
  (r : option error) :
  downloadLatestRelease env url file w = (w', r) → stderr w' = stderr w.
Proof.
  unfold downloadLatestRelease.
  destruct (http_Get env _) as [msg|resp]; [by intros [= <- _] |].
  simpl. destruct (os.Create _ _ _); [|by intros [= <- _]].
  destruct (body_breaks resp); by intros [= <- _].
Qed.

Lemma folder_ready_stderr (env : Env) (w w1 : World) :
  folder_ready env w w1 → stderr w1 = stderr w.
Proof. by intros [n _|err _ _|err fs1 _ _ _]. Qed.

Lemma resolved_stderr (env : Env) (w w2 : World) (tagName url : string) :
  resolved env w tagName url w2 → stderr w2 = stderr w.
Proof.
  intros (_ & w1 & Hready & Hlatest).
  apply getLatestReleaseURL_stderr in Hlatest.
  apply folder_ready_stderr in Hready. congruence.
Qed.

Lemma transferred_stderr (env : Env) (w w3 : World) (tagName url : string) :
  transferred env w tagName url w3 → stderr w3 = stderr w.
Proof.
  intros (w2 & [Hres _] & Hdl).
  apply downloadLatestRelease_stderr in Hdl.
  apply resolved_stderr in Hres. by rewrite Hdl.
Qed.

(** A failed run writes one message to standard error, another run none. *)
Lemma Sync_stderr (env : Env) (w w' : World) (t : Terminal) :
  Sync env w t w' →
  match t with
  | Failed _ => ∃ msg, stderr w' = stderr w ++ [msg]
  | _ => stderr w' = stderr w
  end.
Proof.
  intros [Hhome|err err' Hhome Hstat Hne Hmk|w1 w2 err Hhome Hready Hlatest
         |tagName url w2 n Hres Hstat|tagName url w2 w3 err Hwant Hdl
         |tagName url w3 fs4 err Htr Hex
         |tagName url w3 fs4 err [Htr Hex] Hrm
         |tagName url w3 fs4 fs5 [Htr Hex] Hrm]; world_simpl.
  - eauto.
  - eauto.
  - apply getLatestReleaseURL_stderr in Hlatest.
    apply folder_ready_stderr in Hready. rewrite Hlatest, Hready. eauto.
  - by eapply resolved_stderr.
  - apply downloadLatestRelease_stderr in Hdl. destruct Hwant as [Hres _].
    apply resolved_stderr in Hres. rewrite Hdl. world_simpl. rewrite Hres. eauto.
  - unfold before_extraction. world_simpl.
    rewrite (transferred_stderr _ _ _ _ _ Htr). eauto.
  - unfold before_removal, before_extraction. world_simpl.
    rewrite (transferred_stderr _ _ _ _ _ Htr). eauto.
  - unfold before_removal, before_extraction. world_simpl.
    by eapply transferred_stderr.
Qed.

(** * The claims about the program *)

(** C8, as stated, fails: here the home directory and the folder are found,
    the release is resolved, the archive is downloaded and extracted without
    error, and the process still ends with status 1, because the archive
    cannot be removed from the folder, which is not writable. *)
Lemma cleanup_failure_exits_1 :
  Sync Scenario.env (Scenario.world Scenario.locked) (Failed Cleanup)
    (run Scenario.env (Scenario.world Scenario.locked)).1
  ∧ (run Scenario.env (Scenario.world Scenario.locked)).2 = 1%Z.
Proof.
  assert (resolved Scenario.env (Scenario.world Scenario.locked) "v1.2.3"
            "http://x/pkg.tar.gz" (sent apiURL (Scenario.world Scenario.locked)))
    as Hres.
  { split; [discriminate |]. exists (Scenario.world Scenario.locked). split.
    - apply (folder_found _ _ (Dir false)). vm_compute. reflexivity.
    - by apply (getLatestReleaseURL_decoded Scenario.env _ _ _
                  (mkResponse [] false) Scenario.release). }
  pose (w2 := sent apiURL (Scenario.world Scenario.locked)).
  pose (file := archive Scenario.env "v1.2.3").
  pose (dl := downloadLatestRelease Scenario.env "http://x/pkg.tar.gz" file
                (printed (downloading "http://x/pkg.tar.gz" file) w2)).
  pose (ex := extractTarGzFile Scenario.env file (folder Scenario.env) (fs dl.1)).
  assert (Sync Scenario.env (Scenario.world Scenario.locked) (Failed Cleanup)
            (eprinted (msg_remove (PathError "remove" file EACCES))
               (before_removal Scenario.env "v1.2.3" dl.1 ex.1))) as Hsync.
  { apply (sync_uncleaned _ _ "v1.2.3" "http://x/pkg.tar.gz").
    - split; [exists w2; split; [split; [done |] |] |].
      + exists (PathError "stat" (marker Scenario.env "v1.2.3") ENOENT).
        vm_compute. reflexivity.
      + apply without_error. vm_compute. reflexivity.
      + apply without_error. vm_compute. reflexivity.
    - vm_compute. reflexivity. }
  rewrite (Sync_run _ _ _ _ Hsync). done.
Qed.

(** C8, amended.  The runs of the program are the runs of the state machine
    [Sync], with status 1 for a failure and status 0 otherwise: the process
    ends with status 1 exactly when the home directory is not known, the
    folder cannot be made, the release cannot be resolved, the download or the
    extraction fails, or the downloaded archive cannot be removed; it ends
    with status 0 when the version is installed already and when all steps
    succeed.  A failed run has written one message to standard error, another
    run none.  When the archive cannot be removed the file system left is the
    one the extraction left. *)
Theorem exit_status_tells_failure (env : Env) (w w' : World) (code : Z) :
  (run env w = (w', code) ↔ ∃ t, Sync env w t w' ∧ code = status t)
  ∧ (∀ t, Sync env w t w' →
       match t with
       | Failed _ => ∃ msg, stderr w' = stderr w ++ [msg]
       | _ => stderr w' = stderr w
       end)
  ∧ (Sync env w (Failed Cleanup) w' →
       ∃ tagName url w3 fs4 err,
         unpacked env w tagName url w3 fs4
         ∧ os.Remove (cwd env) fs4 (archive env tagName) = Err err
         ∧ fs w' = fs4).
Proof.
  split_and!.
  - split.
    + intros Hrun. destruct (Sync_total env w) as (t & w0 & Hsync).
      pose proof (Sync_run _ _ _ _ Hsync) as Hrun0.
      rewrite Hrun in Hrun0. injection Hrun0 as -> ->. eauto.
    + intros (t & Hsync & ->). by apply Sync_run.
  - intros t. apply Sync_stderr.
  - intros Hsync. inversion Hsync as [| | | | | |tagName url w3 fs4 err Hun Hrm|].
    by exists tagName, url, w3, fs4, err.
Qed.

(** The amended C8 on the scenario: the run installs the release and ends
    with status 0. *)
Lemma exit_status_tells_failure_witness :
  ∃ t, Sync Scenario.env (Scenario.world Scenario.fresh) t
         (run Scenario.env (Scenario.world Scenario.fresh)).1
    ∧ 0%Z = status t.
Proof.
  apply (proj1 (proj1 (exit_status_tells_failure Scenario.env
                         (Scenario.world Scenario.fresh) _ 0%Z))).
  apply with_second. vm_compute. reflexivity.
Defined.

(** C5.  When no asset of the release has a name that ends in .gz, the
    resolver fails with the error of a release without archive, which is
    neither the error of a failed request nor that of a failed decoding; the
    process ends with status 1 and has sent at most the request for the
    latest release: nothing is downloaded. *)
Theorem no_gz_asset_is_an_error (env : Env) (w : World) (resp : Response)
  (release : GitHubRelease) :
  http_Get env apiURL = inr resp →
  json_Decode env resp = inr release →
  Forall (λ a, ¬ HasSuffix (Name a) ".gz") (Assets release) →
  (∀ w1, getLatestReleaseURL env "GloriousEggroll" "proton-ge-custom" w1
         = (sent apiURL w1, Err noTarGz))
  ∧ (∀ op url msg, noTarGz ≠ UrlError op url msg)
  ∧ (∀ msg, noTarGz ≠ JsonError msg)
  ∧ (run env w).2 = 1%Z
  ∧ (requests (run env w).1 = requests w
     ∨ requests (run env w).1 = requests w ++ [apiURL]).
Proof.
  intros Hget Hjson Hnone.
  assert (∀ w1, getLatestReleaseURL env "GloriousEggroll" "proton-ge-custom" w1
                = (sent apiURL w1, Err noTarGz)) as Hlatest.
  { intros w1. rewrite (getLatestReleaseURL_decoded _ _ _ _ _ _ Hget Hjson).
    unfold selectRelease. by rewrite (findTarGz_none _ Hnone). }
  split_and!; [done | done | done | |];
    unfold run; rewrite main_unfold;
    (destruct (decide (HOME env = "")) as [Hhome|Hhome];
     [rewrite compatibilityFolder_no_home by done; world_simpl; auto |]);
    rewrite compatibilityFolder_home by done;
    (destruct (os.Stat _ _ _) as [n|err];
     [|destruct (os.IsNotExist err); [destruct (os.Mkdir _ _ _) |]]);
    rewrite ?Hlatest; world_simpl; auto.
Qed.

Lemma no_gz_asset_is_an_error_witness :
  (∀ w1, getLatestReleaseURL
           (Scenario.network (mkRelease "v1.2.3" [mkAsset "readme.txt" "r"])
              Scenario.items)
           "GloriousEggroll" "proton-ge-custom" w1
         = (sent apiURL w1, Err noTarGz))
  ∧ (∀ op url msg, noTarGz ≠ UrlError op url msg)
  ∧ (∀ msg, noTarGz ≠ JsonError msg)
  ∧ (run (Scenario.network (mkRelease "v1.2.3" [mkAsset "readme.txt" "r"])
            Scenario.items) (Scenario.world Scenario.fresh)).2 = 1%Z
  ∧ (requests
       (run (Scenario.network (mkRelease "v1.2.3" [mkAsset "readme.txt" "r"])
               Scenario.items) (Scenario.world Scenario.fresh)).1
     = requests (Scenario.world Scenario.fresh)
     ∨ requests
         (run (Scenario.network (mkRelease "v1.2.3" [mkAsset "readme.txt" "r"])
                 Scenario.items) (Scenario.world Scenario.fresh)).1
       = requests (Scenario.world Scenario.fresh) ++ [apiURL]).
Proof.
  apply (no_gz_asset_is_an_error _ _ (mkResponse [] false)
           (mkRelease "v1.2.3" [mkAsset "readme.txt" "r"])).
  - reflexivity.
  - reflexivity.
  - apply Forall_singleton. rewrite <- Ext_gz. discriminate.
Defined.

(** * More about the resolver *)

Lemma findTarGz_found (assets : list Asset) (url : string) :
  findTarGz assets = url → url ≠ "" →
  ∃ asset, first_gz assets asset ∧ DownloadURL asset = url.
Proof.
  induction assets as [|a assets IH]; simpl; [congruence |].
  case_bool_decide as Hext.
  - intros <- _. exists a. split; [|done].
    exists [], assets. split_and!; [done | done | by apply Ext_gz].
  - intros Hfind Hurl.
    destruct (IH Hfind Hurl) as (asset & (before & after & -> & Hb & Hgz) & <-).
    exists asset. split; [|done].
    exists (a :: before), after. split_and!; [done | | done].
    apply Forall_cons. split; [by rewrite <- Ext_gz | done].
Qed.

(** X1.  The resolver succeeds exactly when the request is answered, the answer
    decodes to a release, and the first asset of the release whose name ends
    in .gz has a download URL that is not empty; it then returns the tag of
    the release with that URL, after one request to the address of the latest
    release.  The URL it returns is never empty. *)
Theorem resolver_succeeds_exactly (env : Env) (owner repo : string)
  (w w' : World) (tagName url : string) :
  getLatestReleaseURL env owner repo w = (w', Ok (tagName, url))
  ↔ w' = sent (latestURL owner repo) w
    ∧ url ≠ ""
    ∧ ∃ resp release asset,
        http_Get env (latestURL owner repo) = inr resp
        ∧ json_Decode env resp = inr release
        ∧ first_gz (Assets release) asset
        ∧ DownloadURL asset = url
        ∧ TagName release = tagName.
Proof.
  split.
  - unfold getLatestReleaseURL. fold (latestURL owner repo).
    destruct (http_Get env _) as [msg|resp] eqn:Hget; [done |].
    destruct (json_Decode env resp) as [msg|release] eqn:Hjson; [done |].
    unfold selectRelease. case_bool_decide as Hurl; [done |].
    intros [= <- <- <-].
    destruct (findTarGz_found _ _ eq_refl Hurl) as (asset & Hfirst & Hasset).
    split_and!; [done | done |]. by exists resp, release, asset.
  - intros (-> & Hurl & resp & release & asset & Hget & Hjson & Hfirst & <- & <-).
    rewrite (getLatestReleaseURL_decoded _ _ _ _ _ _ Hget Hjson).
    unfold selectRelease. rewrite (findTarGz_first _ _ Hfirst).
    by rewrite bool_decide_eq_false_2.
Qed.

(** X2.  The resolver fails in three ways and no other: with the error of the
    request when the request fails, with the error of the decoder when the
    answer does not decode, and with the error of a release without archive
    when the release has no asset whose name ends in .gz or the first such
    asset has an empty download URL.  In each case it has sent its one
    request. *)
Theorem resolver_fails_exactly (env : Env) (owner repo : string)
  (w w' : World) (err : error) :
  getLatestReleaseURL env owner repo w = (w', Err err)
  ↔ w' = sent (latestURL owner repo) w
    ∧ ((∃ msg, http_Get env (latestURL owner repo) = inl msg
          ∧ err = UrlError "Get" (latestURL owner repo) msg)
       ∨ (∃ resp msg, http_Get env (latestURL owner repo) = inr resp
            ∧ json_Decode env resp = inl msg ∧ err = JsonError msg)
       ∨ (∃ resp release, http_Get env (latestURL owner repo) = inr resp
            ∧ json_Decode env resp = inr release ∧ err = noTarGz
            ∧ (Forall (λ a, ¬ HasSuffix (Name a) ".gz") (Assets release)
               ∨ ∃ asset, first_gz (Assets release) asset
                   ∧ DownloadURL asset = ""))).
Proof.
  split.
  - unfold getLatestReleaseURL. fold (latestURL owner repo).
    destruct (http_Get env _) as [msg|resp] eqn:Hget.
    { intros [= <- <-]. split; [done |]. left. by exists msg. }
    destruct (json_Decode env resp) as [msg|release] eqn:Hjson.
    { intros [= <- <-]. split; [done |]. right; left. by exists resp, msg. }
    unfold selectRelease. case_bool_decide as Hurl; [|done].
    intros [= <- <-]. split; [done |]. right; right.
    exists resp, release. split_and!; [done..|].
    clear Hget Hjson. induction (Assets release) as [|a assets IH].
    { left. constructor. }
    simpl in Hurl. case_bool_decide as Hext.
    + right. exists a. split; [|done].
      exists [], assets. split_and!; [done | done | by apply Ext_gz].
    + destruct (IH Hurl) as [Hnone|(asset & (before & after & -> & Hb & Hgz) & Hempty)].
      * left. apply Forall_cons. split; [by rewrite <- Ext_gz | done].
      * right. exists asset. split; [|done].
        exists (a :: before), after. split_and!; [done | | done].
        apply Forall_cons. split; [by rewrite <- Ext_gz | done].
  - intros [-> [(msg & Hget & ->)|[(resp & msg & Hget & Hjson & ->)
                |(resp & release & Hget & Hjson & -> & Hassets)]]].
    + unfold getLatestReleaseURL. fold (latestURL owner repo). by rewrite Hget.
    + unfold getLatestReleaseURL. fold (latestURL owner repo).
      by rewrite Hget, Hjson.
    + rewrite (getLatestReleaseURL_decoded _ _ _ _ _ _ Hget Hjson).
      unfold selectRelease.
      destruct Hassets as [Hnone|(asset & Hfirst & Hempty)].
      * by rewrite (findTarGz_none _ Hnone).
      * by rewrite (findTarGz_first _ _ Hfirst), Hempty.
Qed.

(** * More about the download *)

(** X3.  A download that returns no error has sent one request, the one for the
    URL, and has left the body of the answer, all of it and nothing else, in
    the output file: what the file held before is gone, and no other path of
    the file system has changed. *)
Theorem download_writes_the_body (env : Env) (url outputPath : string)
  (w w' : World) :
  downloadLatestRelease env url outputPath w = (w', None) →
  ∃ resp fw,
    http_Get env url = inr resp
    ∧ body_breaks resp = false
    ∧ fs w' = <[os.resolve (cwd env) outputPath := File fw (Body resp)]> (fs w)
    ∧ requests w' = requests w ++ [url]
    ∧ stdout w' = stdout w ∧ stderr w' = stderr w.
Proof.
  unfold downloadLatestRelease.
  destruct (http_Get env url) as [msg|resp] eqn:Hget; [done |].
  simpl. destruct (os.Create _ _ _) as [fs1|err] eqn:Hcr; [|done].
  destruct (Create_Write _ _ _ _ (Body resp) Hcr) as [fw Hwrite].
  destruct (body_breaks resp) eqn:Hbreaks; [done |].
  intros [= <-]. exists resp, fw. by rewrite Hwrite.
Qed.

Lemma download_writes_the_body_witness :
  ∃ resp fw,
    http_Get Scenario.env "http://x/pkg.tar.gz" = inr resp
    ∧ body_breaks resp = false
    ∧ fs (downloadLatestRelease Scenario.env "http://x/pkg.tar.gz"
            "/home/u/.steam/steam/compatibilitytools.d/GE-Proton-v1.2.3.tar.gz"
            (Scenario.world Scenario.locked)).1
      = <[os.resolve (cwd Scenario.env)
            "/home/u/.steam/steam/compatibilitytools.d/GE-Proton-v1.2.3.tar.gz"
          := File fw (Body resp)]> (fs (Scenario.world Scenario.locked))
    ∧ requests (downloadLatestRelease Scenario.env "http://x/pkg.tar.gz"
                  "/home/u/.steam/steam/compatibilitytools.d/GE-Proton-v1.2.3.tar.gz"
                  (Scenario.world Scenario.locked)).1
      = requests (Scenario.world Scenario.locked) ++ ["http://x/pkg.tar.gz"]
    ∧ stdout (downloadLatestRelease Scenario.env "http://x/pkg.tar.gz"
                "/home/u/.steam/steam/compatibilitytools.d/GE-Proton-v1.2.3.tar.gz"
                (Scenario.world Scenario.locked)).1
      = stdout (Scenario.world Scenario.locked)
    ∧ stderr (downloadLatestRelease Scenario.env "http://x/pkg.tar.gz"
                "/home/u/.steam/steam/compatibilitytools.d/GE-Proton-v1.2.3.tar.gz"
                (Scenario.world Scenario.locked)).1
      = stderr (Scenario.world Scenario.locked).
Proof.
  apply download_writes_the_body.
  apply without_error. vm_compute. reflexivity.
Defined.

(** * More about the extraction *)

(** X4.  Whatever the archive holds and however the extraction ends, it removes
    nothing: a path that was there is still there, a directory is still the
    directory it was, and a file is the file it was unless a regular-file
    entry of the archive goes to its place. *)
Theorem extraction_removes_nothing (cwd : path) (dest : string) (free : nat)
  (items : list TarItem) (fs fs' : gmap path node) (r : option error) :
  extractEntries cwd dest free items fs = (fs', r) →
  (∀ q n, fs !! q = Some n → is_Some (fs' !! q))
  ∧ (∀ q w, fs !! q = Some (Dir w) → fs' !! q = Some (Dir w))
  ∧ (∀ q fw content, fs !! q = Some (File fw content) →
       fs' !! q = Some (File fw content)
       ∨ ∃ h payload b, Entry h payload b ∈ items
           ∧ Typeflag h = tar.TypeReg ∧ q = target cwd dest h).
Proof.
  intros Hrun. split_and!.
  - intros q n Hq.
    destruct (extractEntries_footprint _ _ _ _ _ _ _ q Hrun)
      as [Heq|[(Hn & _)|(_ & (fw & content & Hf) & _)]]; [|congruence|].
    + by rewrite Heq, Hq.
    + by rewrite Hf.
  - intros q w Hq.
    destruct (extractEntries_footprint _ _ _ _ _ _ _ q Hrun)
      as [Heq|[(Hn & _)|(Hnd & _)]]; [congruence | congruence |].
    by destruct (Hnd w).
  - intros q fw content Hq.
    destruct (extractEntries_footprint _ _ _ _ _ _ _ q Hrun)
      as [Heq|[(Hn & _)|(_ & _ & Hentry)]]; [|congruence|].
    + left. congruence.
    + by right.
Qed.

Lemma extraction_removes_nothing_witness :
  (∀ q n, Scenario.locked !! q = Some n →
     is_Some ((extractEntries [] Scenario.dest 1024 Scenario.broken
                 Scenario.locked).1 !! q))
  ∧ (∀ q w, Scenario.locked !! q = Some (Dir w) →
       (extractEntries [] Scenario.dest 1024 Scenario.broken
          Scenario.locked).1 !! q
       = Some (Dir w))
  ∧ (∀ q fw content, Scenario.locked !! q = Some (File fw content) →
       (extractEntries [] Scenario.dest 1024 Scenario.broken
          Scenario.locked).1 !! q
       = Some (File fw content)
       ∨ ∃ h payload b, Entry h payload b ∈ Scenario.broken
           ∧ Typeflag h = tar.TypeReg ∧ q = target [] Scenario.dest h).
Proof.
  apply (extraction_removes_nothing [] Scenario.dest 1024 Scenario.broken
           Scenario.locked _
           (extractEntries [] Scenario.dest 1024 Scenario.broken
              Scenario.locked).2).
  apply surjective_pairing.
Defined.

(** X5.  The extraction changes only the places of its entries: a path that is
    neither on the way from the root to a directory entry nor the place of a
    regular-file entry is, after the extraction, what it was before. *)
Theorem extraction_touches_only_its_entries (cwd : path) (dest : string)
  (free : nat) (items : list TarItem) (fs fs' : gmap path node)
  (r : option error) (q : path) :
  extractEntries cwd dest free items fs = (fs', r) →
  (∀ h payload b, Entry h payload b ∈ items →
     (Typeflag h = tar.TypeDir → ¬ q `prefix_of` target cwd dest h)
     ∧ (Typeflag h = tar.TypeReg → q ≠ target cwd dest h)) →
  fs' !! q = fs !! q.
Proof.
  intros Hrun Hfar.
  destruct (extractEntries_footprint _ _ _ _ _ _ _ q Hrun)
    as [Heq|[(_ & _ & h & payload & b & Hin & Hdir & Hpre)
            |(_ & _ & h & payload & b & Hin & Hreg & Hq)]]; [done | |].
  - by destruct (proj1 (Hfar _ _ _ Hin) Hdir).
  - by destruct (proj2 (Hfar _ _ _ Hin) Hreg).
Qed.

(** The archive of the scenario, extracted into the folder, leaves the
    archive file of the folder alone. *)
Lemma extraction_touches_only_its_entries_witness :
  (extractEntries [] Scenario.dest 1024 Scenario.items Scenario.locked).1
    !! (Scenario.install_root ++ ["GE-Proton-v1.2.3.tar.gz"])
  = Scenario.locked !! (Scenario.install_root ++ ["GE-Proton-v1.2.3.tar.gz"]).
Proof.
  apply (extraction_touches_only_its_entries [] Scenario.dest 1024
           Scenario.items
           Scenario.locked _
           (extractEntries [] Scenario.dest 1024 Scenario.items Scenario.locked).2).
  - apply surjective_pairing.
  - intros h payload b [Heq|[Heq|Hin%elem_of_nil]%elem_of_cons]%elem_of_cons;
      [| |done]; injection Heq as -> -> ->; (split; intros Htype);
      try discriminate Htype;
      apply (bool_decide_eq_false_1 _); vm_compute; reflexivity.
Defined.

(** X6.  When the extraction succeeds, a regular-file entry to whose place no
    later regular-file entry goes has left a file with exactly its payload
    there: of several entries with the same place the last one counts, and
    entries of other kinds and files elsewhere do not change it. *)
Theorem last_entry_of_a_place_counts (cwd : path) (dest : string) (free : nat)
  (before after : list TarItem) (h : Header) (payload : bytes)
  (fs fs' : gmap path node) :
  extractEntries cwd dest free (before ++ Entry h payload false :: after) fs
  = (fs', None) →
  Typeflag h = tar.TypeReg →
  (∀ h' payload' b', Entry h' payload' b' ∈ after →
     Typeflag h' = tar.TypeReg → target cwd dest h' ≠ target cwd dest h) →
  ∃ fw, fs' !! target cwd dest h = Some (File fw payload).
Proof.
  intros (fs1 & _ & Hrun)%extractEntries_app_ok Hreg Hlast.
  destruct (free - opened before) as [|n];
    [by rewrite extract_reg_0 in Hrun |].
  rewrite extract_reg in Hrun by done.
  destruct (os.Create _ _ _) as [fs2|err] eqn:Hcr; [|done].
  destruct (Create_Write _ _ _ _ payload Hcr) as [fw Hwrite].
  simpl in Hrun. rewrite Hwrite in Hrun. fold (target cwd dest h) in Hrun.
  exists fw.
  destruct (extractEntries_footprint _ _ _ _ _ _ _ (target cwd dest h) Hrun)
    as [Heq|[(Hn & _)|(_ & _ & h' & payload' & b' & Hin & Hreg' & Hq)]].
  - by rewrite Heq, lookup_insert_eq.
  - by rewrite lookup_insert_eq in Hn.
  - by destruct (Hlast _ _ _ Hin Hreg').
Qed.

Lemma last_entry_of_a_place_counts_witness :
  ∃ fw, (extractEntries [] Scenario.dest 1024 Scenario.twice Scenario.fresh).1
          !! target [] Scenario.dest (mkHeader "run" tar.TypeReg)
        = Some (File fw [x32]%byte).
Proof.
  apply (last_entry_of_a_place_counts [] Scenario.dest 1024
           [Entry (mkHeader "run" tar.TypeReg) [x31]%byte false] []
           (mkHeader "run" tar.TypeReg) [x32]%byte Scenario.fresh).
  - apply without_error. vm_compute. reflexivity.
  - reflexivity.
  - intros h' payload' b' Hin. by apply elem_of_nil in Hin.
Defined.

(** X7.  When the extraction succeeds, every directory entry of the archive is a
    directory at the destination joined with its name, whatever the archive
    and the file system were. *)
Theorem extracted_directories_are_there (cwd : path) (dest : string)
  (free : nat) (items : list TarItem) (fs fs' : gmap path node) (h : Header)
  (payload : bytes) (b : bool) :
  dest ≠ "" →
  extractEntries cwd dest free items fs = (fs', None) →
  Entry h payload b ∈ items → Typeflag h = tar.TypeDir →
  ∃ w, os.Stat cwd fs' (filepath.Join dest (HName h)) = Ok (Dir w).
Proof.
  intros Hdest Hrun Hin Hdir.
  destruct (extractEntries_dir_reachable _ _ _ _ _ _ _ _ _ Hrun Hin Hdir)
    as [w Hwalk].
  exists w. unfold os.Stat.
  rewrite bool_decide_eq_false_2 by by apply Join_nonempty.
  fold (target cwd dest h). by rewrite Hwalk.
Qed.

Lemma extracted_directories_are_there_witness :
  ∃ w, os.Stat []
         (extractEntries [] Scenario.dest 1024 Scenario.versioned
            Scenario.fresh).1
         (filepath.Join Scenario.dest "v1.2.3/")
       = Ok (Dir w).
Proof.
  apply (extracted_directories_are_there [] Scenario.dest 1024
           Scenario.versioned Scenario.fresh _
           (mkHeader "v1.2.3/" tar.TypeDir) [] false).
  - discriminate.
  - apply without_error. vm_compute. reflexivity.
  - apply elem_of_cons. by left.
  - reflexivity.
Defined.

(** An extraction that succeeds has taken a descriptor for every regular
    file of the archive. *)
Lemma extractEntries_opened (cwd : path) (dest : string) (free : nat)
  (items : list TarItem) (fs fs' : gmap path node) :
  extractEntries cwd dest free items fs = (fs', None) →
  (opened items ≤ free)%nat.
Proof.
  revert free fs.
  induction items as [|[h payload b|err] items IH]; intros free fs.
  - intros _. unfold opened. simpl. lia.
  - destruct (decide (Typeflag h = tar.TypeDir)) as [Hdir|Hdir];
      [|destruct (decide (Typeflag h = tar.TypeReg)) as [Hreg|Hreg]].
    + rewrite extract_dir, opened_dir by done.
      destruct (os.MkdirAll _ _ _) as [fs1 [e|]]; [done | apply IH].
    + destruct free as [|free]; [by rewrite extract_reg_0 |].
      rewrite extract_reg, opened_reg by done.
      destruct (os.Create _ _ _) as [fs1|e]; [|done].
      simpl. destruct b; [done |]. intros Hrest%IH. lia.
    + rewrite extract_other, opened_other by done. apply IH.
  - done.
Qed.

(** X15.  The extraction keeps every file it creates open until it returns.
    So an extraction that succeeds has created no more regular files than the
    process could still open; and when the entries before a regular-file
    entry have taken all the descriptors, the extraction ends at that entry
    with the error EMFILE of [os.Create], whatever follows, and returns the
    file system that the entries before it left. *)
Theorem descriptors_run_out (cwd : path) (dest : string) (free : nat)
  (items : list TarItem) (fs fs' : gmap path node) :
  (extractEntries cwd dest free items fs = (fs', None) →
   (opened items ≤ free)%nat)
  ∧ (∀ before h payload b after,
       items = before ++ Entry h payload b :: after →
       Typeflag h = tar.TypeReg →
       extractEntries cwd dest free before fs = (fs', None) →
       opened before = free →
       extractEntries cwd dest free items fs
       = (fs', Some (PathError "open" (filepath.Join dest (HName h)) EMFILE))).
Proof.
  split; [apply extractEntries_opened |].
  intros before h payload b after -> Hreg Hbefore Hfull.
  rewrite extractEntries_app, Hbefore, Hfull, Nat.sub_diag.
  by rewrite extract_reg_0.
Qed.

(** The archive with the files a and b, extracted by a process that can
    open one more file: a is extracted, b is not. *)
Lemma descriptors_run_out_witness :
  extractEntries [] Scenario.dest 1 Scenario.pair Scenario.fresh
  = ((extractEntries [] Scenario.dest 1
        [Entry (mkHeader "a" tar.TypeReg) [x31]%byte false] Scenario.fresh).1,
     Some (PathError "open" (filepath.Join Scenario.dest "b") EMFILE)).
Proof.
  apply (proj2 (descriptors_run_out [] Scenario.dest 1 Scenario.pair
                  Scenario.fresh _)
           [Entry (mkHeader "a" tar.TypeReg) [x31]%byte false]
           (mkHeader "b" tar.TypeReg) [x32]%byte false []).
  - reflexivity.
  - reflexivity.
  - apply without_error. vm_compute. reflexivity.
  - reflexivity.
Defined.

(** * More about the program *)

Lemma getLatestReleaseURL_sent (env : Env) (owner repo : string) (w w' : World)
  (r : result (string * string)) :
  getLatestReleaseURL env owner repo w = (w', r) →
  w' = sent (latestURL owner repo) w.
Proof.
  unfold getLatestReleaseURL. fold (latestURL owner repo).
  destruct (http_Get env _) as [msg|resp]; [by intros [= <- _] |].
  destruct (json_Decode env resp); by intros [= <- _].
Qed.

(** The answer of the resolver does not depend on the world it runs in. *)
Lemma getLatestReleaseURL_again (env : Env) (owner repo : string)
  (w w' w0 : World) (r : result (string * string)) :
  getLatestReleaseURL env owner repo w = (w', r) →
  getLatestReleaseURL env owner repo w0 = (sent (latestURL owner repo) w0, r).
Proof.
  unfold getLatestReleaseURL. fold (latestURL owner repo).
  destruct (http_Get env _) as [msg|resp]; [by intros [= _ <-] |].
  destruct (json_Decode env resp); by intros [= _ <-].
Qed.

Lemma getLatestReleaseURL_url (env : Env) (owner repo : string) (w w' : World)
  (tagName url : string) :
  getLatestReleaseURL env owner repo w = (w', Ok (tagName, url)) → url ≠ "".
Proof.
  unfold getLatestReleaseURL.
  destruct (http_Get env _) as [msg|resp]; [done |].
  destruct (json_Decode env resp) as [msg|release]; [done |].
  unfold selectRelease. case_bool_decide; [done |]. by intros [= _ _ <-].
Qed.

Lemma downloadLatestRelease_requests (env : Env) (url file : string)
  (w w' : World) (r : option error) :
  downloadLatestRelease env url file w = (w', r) →
  requests w' = requests w ++ [url].
Proof.
  unfold downloadLatestRelease.
  destruct (http_Get env _) as [msg|resp]; [by intros [= <- _] |].
  simpl. destruct (os.Create _ _ _); [|by intros [= <- _]].
  destruct (body_breaks resp); by intros [= <- _].
Qed.

Lemma folder_ready_requests (env : Env) (w w1 : World) :
  folder_ready env w w1 → requests w1 = requests w.
Proof. by intros [n _|err _ _|err fs1 _ _ _]. Qed.

Lemma resolved_requests (env : Env) (w w2 : World) (tagName url : string) :
  resolved env w tagName url w2 →
  requests w2 = requests w ++ [apiURL] ∧ url ≠ "".
Proof.
  intros (_ & w1 & Hready & Hlatest). split.
  - apply getLatestReleaseURL_sent in Hlatest as ->.
    apply folder_ready_requests in Hready. world_simpl. by rewrite Hready.
  - by eapply getLatestReleaseURL_url.
Qed.

Lemma transferred_requests (env : Env) (w w3 : World) (tagName url : string) :
  transferred env w tagName url w3 →
  requests w3 = requests w ++ [apiURL; url] ∧ url ≠ "".
Proof.
  intros (w2 & [Hres _] & Hdl).
  apply downloadLatestRelease_requests in Hdl.
  apply resolved_requests in Hres as [Hres Hurl]. split; [|done].
  rewrite Hdl. world_simpl. rewrite Hres. by rewrite <- app_assoc.
Qed.

(** The requests of a run, by the way it ends. *)
Lemma Sync_requests (env : Env) (w w' : World) (t : Terminal) :
  Sync env w t w' →
  match t with
  | Failed Environment => requests w' = requests w
  | Failed Resolution | AlreadyPresent => requests w' = requests w ++ [apiURL]
  | _ => ∃ url, url ≠ "" ∧ requests w' = requests w ++ [apiURL; url]
  end.
Proof.
  intros [Hhome|err err' Hhome Hstat Hne Hmk|w1 w2 err Hhome Hready Hlatest
         |tagName url w2 n Hres Hstat|tagName url w2 w3 err Hwant Hdl
         |tagName url w3 fs4 err Htr Hex
         |tagName url w3 fs4 err [Htr Hex] Hrm
         |tagName url w3 fs4 fs5 [Htr Hex] Hrm];
    unfold before_removal, before_extraction; world_simpl.
  - done.
  - done.
  - apply getLatestReleaseURL_sent in Hlatest as ->.
    apply folder_ready_requests in Hready. world_simpl. by rewrite Hready.
  - by apply resolved_requests in Hres as [-> _].
  - apply downloadLatestRelease_requests in Hdl. destruct Hwant as [Hres _].
    apply resolved_requests in Hres as [Hres Hurl].
    exists url. split; [done |]. rewrite Hdl. world_simpl.
    rewrite Hres. by rewrite <- app_assoc.
  - exists url. by apply transferred_requests in Htr as [-> ?].
  - exists url. by apply transferred_requests in Htr as [-> ?].
  - exists url. by apply transferred_requests in Htr as [-> ?].
Qed.

(** X8.  A run sends no request, or the one for the latest release, or that one
    and then one for the archive, whose URL is not empty: nothing is asked
    twice and nothing else is asked. *)
Theorem run_sends_at_most_two_requests (env : Env) (w : World) :
  requests (run env w).1 = requests w
  ∨ requests (run env w).1 = requests w ++ [apiURL]
  ∨ ∃ url, url ≠ "" ∧ requests (run env w).1 = requests w ++ [apiURL; url].
Proof.
  destruct (Sync_total env w) as (t & w' & Hsync).
  rewrite (Sync_run _ _ _ _ Hsync). simpl.
  pose proof (Sync_requests _ _ _ _ Hsync) as Hreq.
  destruct t as [| |[]]; auto.
Qed.

Lemma walk_err_app (fs : gmap path node) (cur l k : path) (no : errno) :
  os.walk fs cur l = inl no → os.walk fs cur (l ++ k) = inl no.
Proof.
  revert cur. induction l as [|a l IH]; intros cur; simpl.
  - destruct (fs !! cur) as [n|] eqn:Hcur; [done |].
    intros [= <-]. destruct k; simpl; by rewrite Hcur.
  - destruct (fs !! cur) as [[w|w b]|]; [|done..]. apply IH.
Qed.

Lemma folder_nonempty (env : Env) : HOME env ≠ "" → folder env ≠ "".
Proof. intros Hhome. by apply Join_nonempty. Qed.

(** X9.  The folder is made with [os.Mkdir], not with its parents: when the
    directory that should hold it is not there, as on a machine where Steam
    was never started, the run ends with status 1 and the message that the
    folder could not be found or created, without a request to the network
    and without a change to the file system. *)
Theorem folder_is_not_made_with_its_parents (env : Env) (w : World) :
  HOME env ≠ "" →
  os.resolve (cwd env) (folder env) ≠ [] →
  os.lookup_path (fs w) (os.parent (os.resolve (cwd env) (folder env)))
  = inl ENOENT →
  run env w = (eprinted (msg_no_folder (folder env)) w, 1%Z).
Proof.
  intros Hhome Hne Hparent.
  destruct (exists_last Hne) as (p & c & Hp).
  assert (os.lookup_path (fs w) (os.resolve (cwd env) (folder env)) = inl ENOENT)
    as Hlook.
  { rewrite Hp in Hparent |- *. unfold os.parent in Hparent.
    rewrite removelast_last in Hparent. by apply walk_err_app. }
  apply (Sync_run env w _ (Failed Environment)).
  apply (sync_no_folder env w (PathError "stat" (folder env) ENOENT)
           (PathError "mkdir" (folder env) ENOENT)); [done | | done |].
  - unfold os.Stat. rewrite bool_decide_eq_false_2 by by apply folder_nonempty.
    by rewrite Hlook.
  - unfold os.Mkdir, os.mkdir_at.
    rewrite bool_decide_eq_false_2 by by apply folder_nonempty.
    rewrite bool_decide_eq_false_2 by done. by rewrite Hparent.
Qed.

Lemma folder_is_not_made_with_its_parents_witness :
  run Scenario.env (Scenario.world Scenario.bare)
  = (eprinted (msg_no_folder (folder Scenario.env))
       (Scenario.world Scenario.bare), 1%Z).
Proof.
  apply folder_is_not_made_with_its_parents.
  - discriminate.
  - vm_compute. discriminate.
  - vm_compute. reflexivity.
Defined.

(** X10.  A folder that cannot be looked at for another reason than its absence,
    because a name on the way to it is a regular file, does not end the run
    at the folder test: the run goes on and asks the network for the latest
    release. *)
Theorem blocked_folder_does_not_stop_the_run (env : Env) (w : World) :
  HOME env ≠ "" →
  os.lookup_path (fs w) (os.resolve (cwd env) (folder env)) = inl ENOTDIR →
  requests (run env w).1 = requests w ++ [apiURL]
  ∨ ∃ url, url ≠ "" ∧ requests (run env w).1 = requests w ++ [apiURL; url].
Proof.
  intros Hhome Hlook.
  assert (os.Stat (cwd env) (fs w) (folder env)
          = Err (PathError "stat" (folder env) ENOTDIR)) as Hstat.
  { unfold os.Stat. rewrite bool_decide_eq_false_2 by by apply folder_nonempty.
    by rewrite Hlook. }
  destruct (Sync_total env w) as (t & w' & Hsync).
  rewrite (Sync_run _ _ _ _ Hsync). simpl.
  pose proof (Sync_requests _ _ _ _ Hsync) as Hreq.
  destruct t as [| |[]]; auto.
  inversion Hsync as [Hh|err err' _ Hstat' Hne _| | | | | |]; [done |].
  rewrite Hstat in Hstat'. by injection Hstat' as <-.
Qed.

Lemma blocked_folder_does_not_stop_the_run_witness :
  requests (run Scenario.env (Scenario.world Scenario.blocked)).1
  = requests (Scenario.world Scenario.blocked) ++ [apiURL]
  ∨ ∃ url, url ≠ ""
      ∧ requests (run Scenario.env (Scenario.world Scenario.blocked)).1
        = requests (Scenario.world Scenario.blocked) ++ [apiURL; url].
Proof.
  apply blocked_folder_does_not_stop_the_run.
  - discriminate.
  - vm_compute. reflexivity.
Defined.

Lemma Remove_ok (cwd : path) (fs fs' : gmap path node) (name : string) :
  os.Remove cwd fs name = Ok fs' →
  fs' = delete (os.resolve cwd name) fs
  ∧ (∀ w, fs !! os.resolve cwd name = Some (Dir w) →
       os.has_entries fs (os.resolve cwd name) = false).
Proof.
  unfold os.Remove, os.remove_at. case_bool_decide; [done |].
  case_bool_decide; [done |].
  destruct (os.lookup_path fs _) as [no|[w|w b]]; [done | |done].
  destruct (fs !! os.resolve cwd name) as [[w'|w' b]|]; [| |done].
  - destruct (os.has_entries fs _) eqn:Hentries; [done |].
    destruct w; [|done]. by intros [= <-].
  - destruct w; [|done]. by intros [= <-].
Qed.

Lemma Stat_removed (cwd : path) (fs : gmap path node) (name : string) :
  ∃ err, os.Stat cwd (delete (os.resolve cwd name) fs) name = Err err.
Proof.
  unfold os.Stat. case_bool_decide; [eauto |].
  destruct (lookup_path_None (delete (os.resolve cwd name) fs)
              (os.resolve cwd name)) as [no ->]; [|eauto].
  apply lookup_delete_eq.
Qed.

(** The run of the scenario up to the download, for any archive [its] that
    the network may hold and any files in which the folder is there and the
    version is not. *)
Lemma scenario_transferred (its : list TarItem) (files : gmap path node)
  (n : node) (err : error) :
  os.Stat (cwd (Scenario.network Scenario.release its)) files
    (folder (Scenario.network Scenario.release its)) = Ok n →
  os.Stat (cwd (Scenario.network Scenario.release its)) files
    (marker (Scenario.network Scenario.release its) "v1.2.3") = Err err →
  (downloadLatestRelease (Scenario.network Scenario.release its)
     "http://x/pkg.tar.gz"
     (archive (Scenario.network Scenario.release its) "v1.2.3")
     (printed (downloading "http://x/pkg.tar.gz"
                 (archive (Scenario.network Scenario.release its) "v1.2.3"))
        (sent apiURL (Scenario.world files)))).2 = None →
  transferred (Scenario.network Scenario.release its) (Scenario.world files)
    "v1.2.3" "http://x/pkg.tar.gz"
    (downloaded_in (Scenario.network Scenario.release its) files).
Proof.
  intros Hfolder Hmarker Hdl.
  exists (sent apiURL (Scenario.world files)). split; [split |].
  - split; [discriminate |]. exists (Scenario.world files). split.
    + apply (folder_found _ _ n). exact Hfolder.
    + by apply (getLatestReleaseURL_decoded _ _ _ _ (mkResponse [] false)
                  Scenario.release).
  - by exists err.
  - by apply without_error.
Qed.

Lemma Remove_succeeds (cwd : path) (fs : gmap path node) (name : string) :
  match os.Remove cwd fs name with Ok _ => true | Err _ => false end = true →
  os.Remove cwd fs name = Ok (delete (os.resolve cwd name) fs).
Proof.
  destruct (os.Remove cwd fs name) as [fs'|err] eqn:Hrm; [|done].
  intros _. by apply Remove_ok in Hrm as [-> _].
Qed.

Lemma walk_start (fs : gmap path node) (cur rest : path) (n : node) :
  os.walk fs cur rest = inr n → is_Some (fs !! cur).
Proof. destruct rest; simpl; destruct (fs !! cur); naive_solver. Qed.

(** A walk that goes below a path went through a directory there and found
    the next name in it. *)
Lemma walk_through (fs : gmap path node) (cur l k : path) (c : string)
  (n : node) :
  os.walk fs cur (l ++ c :: k) = inr n →
  (∃ w, fs !! (cur ++ l) = Some (Dir w)) ∧ is_Some (fs !! (cur ++ l ++ [c])).
Proof.
  revert cur. induction l as [|a l IH]; intros cur; simpl.
  - rewrite app_nil_r.
    destruct (fs !! cur) as [[w|w b]|]; [|done..].
    intros Hwalk%walk_start. eauto.
  - destruct (fs !! cur) as [[w|w b]|]; [|done..].
    intros Hwalk%IH. by rewrite <- !app_assoc in Hwalk.
Qed.

Lemma walk_delete (fs : gmap path node) (p cur rest : path) :
  ¬ p `prefix_of` cur ++ rest →
  os.walk (delete p fs) cur rest = os.walk fs cur rest.
Proof.
  revert cur. induction rest as [|c rest IH]; intros cur Hp; simpl.
  - rewrite lookup_delete_ne; [done |].
    intros ->. apply Hp. by apply prefix_app_r.
  - rewrite lookup_delete_ne.
    2:{ intros ->. apply Hp. by apply prefix_app_r. }
    destruct (fs !! cur) as [[w|w b]|]; [|done..].
    apply IH. by rewrite <- app_assoc.
Qed.

Lemma has_entries_child (fs : gmap path node) (p : path) (c : string) :
  is_Some (fs !! (p ++ [c])) → os.has_entries fs p = true.
Proof.
  intros [n Hn]. unfold os.has_entries. apply existsb_exists.
  exists (p ++ [c]). split.
  - apply list_elem_of_In, list_elem_of_fmap. exists (p ++ [c], n).
    split; [done |]. by apply elem_of_map_to_list.
  - apply bool_decide_eq_true. split; [by destruct p |].
    unfold os.parent. apply removelast_last.
Qed.

(** What can be reached is still reached after another path was removed. *)
Lemma Remove_keeps_walk (cwd : path) (fs fs' : gmap path node) (name : string)
  (q : path) (n : node) :
  os.Remove cwd fs name = Ok fs' →
  os.lookup_path fs q = inr n → q ≠ os.resolve cwd name →
  os.lookup_path fs' q = inr n.
Proof.
  intros [-> Hempty]%Remove_ok Hwalk Hne. unfold os.lookup_path in *.
  rewrite walk_delete; [done |]. simpl. intros [k ->].
  destruct k as [|c k]; [by rewrite app_nil_r in Hne |].
  apply walk_through in Hwalk as [[w Hdir] Hchild]. simpl in Hdir, Hchild.
  rewrite (has_entries_child _ _ _ Hchild) in Hempty. by specialize (Hempty _ Hdir).
Qed.

(** * Runs that install *)

Lemma Stat_Ok (cwd : path) (fs : gmap path node) (name : string) (n : node) :
  os.Stat cwd fs name = Ok n
  ↔ name ≠ "" ∧ os.lookup_path fs (os.resolve cwd name) = inr n.
Proof.
  unfold os.Stat. case_bool_decide as Hname.
  - split; [done | by intros [? _]].
  - destruct (os.lookup_path fs _) as [no|n'].
    + split; [done | by intros [_ ?]].
    + split; [by intros [= ->] | by intros [_ [= ->]]].
Qed.

(** A walk arrives where it did when the directories stay and its end is
    still there. *)
Lemma walk_final (fs fs' : gmap path node) (cur rest : path) (n n' : node) :
  (∀ x w, fs !! x = Some (Dir w) → fs' !! x = Some (Dir w)) →
  os.walk fs cur rest = inr n → fs' !! (cur ++ rest) = Some n' →
  os.walk fs' cur rest = inr n'.
Proof.
  intros Hdirs. revert cur. induction rest as [|c rest IH]; intros cur; simpl.
  - rewrite app_nil_r. intros _ ->. done.
  - destruct (fs !! cur) as [[w|w b]|] eqn:Hcur; [|done..].
    rewrite (Hdirs _ _ Hcur). intros Hwalk Hend. apply IH; [done |].
    by rewrite <- app_assoc.
Qed.

(** What [Create] made or cut is found at its path, whatever is written to
    it. *)
Lemma Create_found (cwd : path) (fs fs1 : gmap path node) (name : string)
  (n : node) :
  os.Create cwd fs name = Ok fs1 →
  os.lookup_path (<[os.resolve cwd name := n]> fs) (os.resolve cwd name)
  = inr n.
Proof.
  intros Hcr. pose proof (λ w, Create_not_dir _ _ _ _ w Hcr) as Hnd.
  revert Hcr. unfold os.Create, os.create_at.
  case_bool_decide; [done |]. case_bool_decide as Hne; [done |].
  destruct (os.lookup_path fs (os.parent _)) as [no|[w|w b]] eqn:Hparent;
    [done | |done].
  intros _. destruct (exists_last Hne) as (p & c & Hp).
  unfold os.parent in Hparent. rewrite Hp in Hparent, Hnd |- *.
  rewrite removelast_last in Hparent.
  unfold os.lookup_path in *. rewrite (walk_snoc _ _ _ _ w).
  - simpl. by rewrite lookup_insert_eq.
  - apply (walk_mono fs); [|done].
    intros x w' Hx. rewrite lookup_insert_ne; [done |].
    intros <-. by destruct (Hnd w').
Qed.

(** A download that succeeds leaves a file at its path, found from the root,
    and the directories that could be reached can still be. *)
Lemma download_found (env : Env) (url file : string) (w w3 : World) :
  downloadLatestRelease env url file w = (w3, None) →
  (∃ fw content,
     os.lookup_path (fs w3) (os.resolve (cwd env) file)
     = inr (File fw content))
  ∧ (∀ q d, os.lookup_path (fs w) q = inr (Dir d) →
       os.lookup_path (fs w3) q = inr (Dir d)).
Proof.
  unfold downloadLatestRelease.
  destruct (http_Get env url) as [msg|resp]; [done |].
  simpl. destruct (os.Create _ _ _) as [fs1|e] eqn:Hcr; [|done].
  destruct (Create_Write _ _ _ _ (Body resp) Hcr) as [fw Hwrite].
  destruct (body_breaks resp); [done |]. intros [= <-]. world_simpl.
  rewrite Hwrite. split.
  - exists fw, (Body resp). by eapply Create_found.
  - intros q d. apply walk_mono. intros x w' Hx.
    rewrite lookup_insert_ne; [done |].
    intros <-. by destruct (Create_not_dir _ _ _ _ w' Hcr).
Qed.

(** An extraction that succeeds has read the entries of an archive. *)
Lemma extractTarGzFile_items (env : Env) (file dir : string)
  (fs fs' : gmap path node) :
  extractTarGzFile env file dir fs = (fs', None) →
  ∃ items, gzip_tar env fs file dir = inr items
    ∧ extractEntries (cwd env) dir (nofile env) items fs = (fs', None).
Proof.
  unfold extractTarGzFile.
  destruct (os.Open _ _ _) as [[wd|wf content]|e]; [done | |done].
  destruct (gzip_tar env fs file dir) as [e|items]; [done |]. eauto.
Qed.

(** However the extraction ends, directories stay and files stay files. *)
Lemma extractTarGzFile_keeps (env : Env) (file dir : string)
  (fs fs' : gmap path node) (r : option error) :
  extractTarGzFile env file dir fs = (fs', r) →
  (∀ q w, fs !! q = Some (Dir w) → fs' !! q = Some (Dir w))
  ∧ (∀ q fw content, fs !! q = Some (File fw content) →
       ∃ fw' content', fs' !! q = Some (File fw' content')).
Proof.
  unfold extractTarGzFile.
  destruct (os.Open _ _ _) as [[wd|wf content]|e];
    [intros [= <- _]; eauto | |intros [= <- _]; eauto].
  destruct (gzip_tar env fs file dir) as [e|items]; [intros [= <- _]; eauto |].
  intros Hrun. split.
  - intros q w. by eapply extractEntries_keeps_dirs.
  - intros q fw c Hq.
    destruct (extractEntries_footprint _ _ _ _ _ _ _ q Hrun)
      as [Heq|[(Hn & _)|(_ & Hf & _)]]; [|congruence|done].
    rewrite Heq. eauto.
Qed.

(** Removing a file leaves the directories that could be reached. *)
Lemma Remove_keeps_dir (cwd : path) (fs fs' : gmap path node) (name : string)
  (fw : bool) (content : bytes) (q : path) (d : bool) :
  os.Remove cwd fs name = Ok fs' →
  fs !! os.resolve cwd name = Some (File fw content) →
  os.lookup_path fs q = inr (Dir d) → os.lookup_path fs' q = inr (Dir d).
Proof.
  intros Hrm Hfile Hwalk. apply (Remove_keeps_walk _ _ _ _ _ _ Hrm Hwalk).
  intros ->. apply walk_inr in Hwalk. simpl in Hwalk. congruence.
Qed.

(** The three steps of an installation, download, extraction and removal,
    leave the directories that could be reached before them. *)
Lemma installed_keeps_dir (env : Env) (url file dir : string) (w w3 : World)
  (fs4 fs5 : gmap path node) (q : path) (d : bool) :
  downloadLatestRelease env url file w = (w3, None) →
  extractTarGzFile env file dir (fs w3) = (fs4, None) →
  os.Remove (cwd env) fs4 file = Ok fs5 →
  os.lookup_path (fs w) q = inr (Dir d) → os.lookup_path fs5 q = inr (Dir d).
Proof.
  intros [(fw & content & Hfile) Hdirs]%download_found Hex Hrm Hq.
  destruct (extractTarGzFile_keeps _ _ _ _ _ _ Hex) as [Hkeep Hkind].
  apply walk_inr in Hfile. simpl in Hfile.
  destruct (Hkind _ _ _ Hfile) as (fw' & content' & Hfile').
  apply (Remove_keeps_dir _ _ _ _ _ _ _ _ Hrm Hfile').
  apply (walk_mono (fs w3)); [done |]. by apply Hdirs.
Qed.

(** ... and the directory of every directory entry of the archive is
    there. *)
Lemma installed_entry_dir (env : Env) (url file dir : string) (w w3 : World)
  (fs4 fs5 : gmap path node) (items : list TarItem) (h : Header)
  (payload : bytes) (b : bool) :
  downloadLatestRelease env url file w = (w3, None) →
  extractTarGzFile env file dir (fs w3) = (fs4, None) →
  os.Remove (cwd env) fs4 file = Ok fs5 →
  gzip_tar env (fs w3) file dir = inr items →
  Entry h payload b ∈ items → Typeflag h = tar.TypeDir →
  ∃ wd, os.lookup_path fs5 (target (cwd env) dir h) = inr (Dir wd).
Proof.
  intros [(fw & content & Hfile) _]%download_found Hex Hrm Hgz Hin Hdir.
  destruct (extractTarGzFile_keeps _ _ _ _ _ _ Hex) as [_ Hkind].
  apply walk_inr in Hfile. simpl in Hfile.
  destruct (Hkind _ _ _ Hfile) as (fw' & content' & Hfile').
  destruct (extractTarGzFile_items _ _ _ _ _ Hex) as (items' & Hgz' & Hrun).
  rewrite Hgz in Hgz'. injection Hgz' as <-.
  destruct (extractEntries_dir_reachable _ _ _ _ _ _ _ _ _ Hrun Hin Hdir)
    as [wd Hwalk].
  exists wd. by apply (Remove_keeps_dir _ _ _ _ _ _ _ _ Hrm Hfile').
Qed.

(** The directory that [Mkdir] made is found. *)
Lemma Mkdir_found (cwd : path) (fs fs1 : gmap path node) (name : string) :
  os.Mkdir cwd fs name = Ok fs1 → os.Stat cwd fs1 name = Ok (Dir true).
Proof.
  unfold os.Mkdir, os.mkdir_at, os.Stat.
  case_bool_decide; [done |]. case_bool_decide as Hne; [done |].
  destruct (os.lookup_path fs (os.parent _)) as [no|[w|w b]] eqn:Hparent;
    [done | |done].
  destruct (fs !! os.resolve cwd name) eqn:Hnone; [done |].
  destruct w; [|done]. intros [= <-].
  destruct (exists_last Hne) as (p & c & Hp).
  unfold os.parent in Hparent. rewrite Hp in Hparent, Hnone |- *.
  rewrite removelast_last in Hparent.
  unfold os.lookup_path in *. rewrite (walk_snoc _ _ _ _ true).
  - simpl. by rewrite lookup_insert_eq.
  - apply (walk_mono fs); [|done].
    intros x w' Hx. rewrite lookup_insert_ne; [done |]. congruence.
Qed.

(** When the folder is a directory or is not there, the folder test leaves
    it a directory. *)
Lemma folder_ready_dir (env : Env) (w w1 : World) :
  (∃ d, os.Stat (cwd env) (fs w) (folder env) = Ok (Dir d))
  ∨ (∃ err, os.Stat (cwd env) (fs w) (folder env) = Err err
       ∧ os.IsNotExist err = true) →
  folder_ready env w w1 →
  ∃ d, os.Stat (cwd env) (fs w1) (folder env) = Ok (Dir d).
Proof.
  intros Hstart [n Hstat|err Hstat Hne|err fs1 Hstat Hne Hmk].
  - destruct Hstart as [[d Hd]|(e & He & _)]; [eauto | congruence].
  - destruct Hstart as [[d Hd]|(e & He & Hne')]; congruence.
  - world_simpl. exists true. by eapply Mkdir_found.
Qed.

(** The release that a run resolves is the one the resolver gives in any
    world. *)
Lemma resolved_tag (env : Env) (w w2 w0 : World)
  (tagName url tagName' url' : string) :
  resolved env w tagName' url' w2 →
  (getLatestReleaseURL env "GloriousEggroll" "proton-ge-custom" w0).2
  = Ok (tagName, url) →
  tagName' = tagName ∧ url' = url
  ∧ ∃ w1, folder_ready env w w1 ∧ w2 = sent apiURL w1.
Proof.
  intros (_ & w1 & Hready & Hlatest) Hanswer.
  rewrite (getLatestReleaseURL_again _ _ _ _ _ w0 _ Hlatest) in Hanswer.
  injection Hanswer as -> ->. split_and!; [done..|].
  exists w1. split; [done |]. by apply getLatestReleaseURL_sent in Hlatest.
Qed.

(** The message of a failed run tells the step that failed. *)
Lemma Sync_message (env : Env) (w w' : World) (t : Terminal) :
  Sync env w t w' →
  match t with
  | Failed Environment =>
      (∃ err, stderr w' = stderr w ++ [msg_no_home err])
      ∨ stderr w' = stderr w ++ [msg_no_folder (folder env)]
  | Failed Resolution => ∃ err, stderr w' = stderr w ++ [msg_unresolved err]
  | Failed Transfer => ∃ err, stderr w' = stderr w ++ [msg_download err]
  | Failed Extraction => ∃ err, stderr w' = stderr w ++ [msg_extract err]
  | Failed Cleanup => ∃ err, stderr w' = stderr w ++ [msg_remove err]
  | _ => stderr w' = stderr w
  end.
Proof.
  intros [Hhome|err err' Hhome Hstat Hne Hmk|w1 w2 err Hhome Hready Hlatest
         |tagName url w2 n Hres Hstat|tagName url w2 w3 err Hwant Hdl
         |tagName url w3 fs4 err Htr Hex
         |tagName url w3 fs4 err [Htr Hex] Hrm
         |tagName url w3 fs4 fs5 [Htr Hex] Hrm]; world_simpl.
  - eauto.
  - eauto.
  - apply getLatestReleaseURL_stderr in Hlatest.
    apply folder_ready_stderr in Hready. rewrite Hlatest, Hready. eauto.
  - by eapply resolved_stderr.
  - apply downloadLatestRelease_stderr in Hdl. destruct Hwant as [Hres _].
    apply resolved_stderr in Hres. rewrite Hdl. world_simpl. rewrite Hres. eauto.
  - unfold before_extraction. world_simpl.
    rewrite (transferred_stderr _ _ _ _ _ Htr). eauto.
  - unfold before_removal, before_extraction. world_simpl.
    rewrite (transferred_stderr _ _ _ _ _ Htr). eauto.
  - unfold before_removal, before_extraction. world_simpl.
    by eapply transferred_stderr.
Qed.

(** The message of a failed extraction is the message of no other step. *)
Lemma msg_extract_only (err : error) :
  (∀ e, msg_extract err ≠ msg_no_home e)
  ∧ (∀ dir, msg_extract err ≠ msg_no_folder dir)
  ∧ (∀ e, msg_extract err ≠ msg_unresolved e)
  ∧ (∀ e, msg_extract err ≠ msg_download e)
  ∧ (∀ e, msg_extract err ≠ msg_remove e).
Proof.
  split_and!; intros e Heq;
    cbv [msg_extract msg_no_home msg_no_folder msg_unresolved msg_download
         msg_remove String.append] in Heq;
    discriminate Heq.
Qed.

(** * The claim about the installed version *)

(** C1, as stated, fails: the version v1.2.3 is installed and the run ends
    with status 0, but it has asked the network for the latest release; and
    when the network cannot be reached, or no home directory is known, the
    run fails, installed or not.  Two runs in a row both download the archive
    when the archive does not hold the directory v1.2.3: the first run does
    not leave the path that the second looks for.  And where the folder can
    neither be looked at nor be missing at the start, a first run can end
    with status 0 and leave the path of the version, and the second still
    fail: with the odd tag the first run removes the file that stood in the
    way of the folder, and the second cannot make the folder. *)
Lemma installed_version_still_asks_network :
  os.Stat (cwd Scenario.env) Scenario.installed (marker Scenario.env "v1.2.3")
  = Ok (Dir true)
  ∧ (run Scenario.env (Scenario.world Scenario.installed)).2 = 0%Z
  ∧ requests (run Scenario.env (Scenario.world Scenario.installed)).1 = [apiURL]
  ∧ requests (Scenario.world Scenario.installed) = []
  ∧ (run Scenario.offline (Scenario.world Scenario.installed)).2 = 1%Z
  ∧ (run Scenario.env (Scenario.world Scenario.fresh)).2 = 0%Z
  ∧ os.Stat (cwd Scenario.env)
      (fs (run Scenario.env (Scenario.world Scenario.fresh)).1)
      (marker Scenario.env "v1.2.3")
    = Err (PathError "stat" (marker Scenario.env "v1.2.3") ENOENT)
  ∧ (run Scenario.env (run Scenario.env (Scenario.world Scenario.fresh)).1).2
    = 0%Z
  ∧ requests
      (run Scenario.env (run Scenario.env (Scenario.world Scenario.fresh)).1).1
    = [apiURL; "http://x/pkg.tar.gz"; apiURL; "http://x/pkg.tar.gz"]
  ∧ os.Stat (cwd Scenario.homeless) Scenario.installed
      (marker Scenario.homeless "v1.2.3") = Ok (Dir true)
  ∧ (run Scenario.homeless (Scenario.world Scenario.installed)).2 = 1%Z
  ∧ os.Stat (cwd Scenario.odd) Scenario.odd_files (folder Scenario.odd)
    = Err (PathError "stat" (folder Scenario.odd) ENOTDIR)
  ∧ (run Scenario.odd (Scenario.world Scenario.odd_files)).2 = 0%Z
  ∧ os.Stat (cwd Scenario.odd)
      (fs (run Scenario.odd (Scenario.world Scenario.odd_files)).1)
      (marker Scenario.odd Scenario.odd_tag) = Ok (Dir true)
  ∧ (run Scenario.odd
       (run Scenario.odd (Scenario.world Scenario.odd_files)).1).2 = 1%Z.
Proof. split_and!; vm_compute; reflexivity. Qed.

(** C1, amended.  Let the request for the latest release be answered by a
    release with a .gz asset.  When the folder and the path of that version
    in it exist, the run ends with status 0 after one request, the one for
    the latest release: nothing is downloaded and the file system stays as it
    is.  So, of two runs in a row with the same latest release, started where
    the folder is a directory or is not there: when the first ends with
    status 0, and every archive it may read holds a directory entry that goes
    to the path of the version, the second says that the version is
    installed, ends with status 0, sends that one request, downloads nothing
    and leaves the file system as it is. *)
Theorem installed_version_is_not_downloaded (env : Env) (resp : Response)
  (release : GitHubRelease) (tagName url : string) :
  HOME env ≠ "" →
  http_Get env apiURL = inr resp →
  json_Decode env resp = inr release →
  selectRelease release = Ok (tagName, url) →
  (∀ w n m,
     os.Stat (cwd env) (fs w) (folder env) = Ok n →
     os.Stat (cwd env) (fs w) (marker env tagName) = Ok m →
     run env w = (printed (already_installed tagName) (sent apiURL w), 0%Z))
  ∧ (∀ w0,
       (∃ d, os.Stat (cwd env) (fs w0) (folder env) = Ok (Dir d))
       ∨ (∃ err, os.Stat (cwd env) (fs w0) (folder env) = Err err
            ∧ os.IsNotExist err = true) →
       (run env w0).2 = 0%Z →
       (∀ fs items,
          gzip_tar env fs (archive env tagName) (folder env) = inr items →
          ∃ h payload b, Entry h payload b ∈ items
            ∧ Typeflag h = tar.TypeDir
            ∧ target (cwd env) (folder env) h
              = os.resolve (cwd env) (marker env tagName)) →
       run env (run env w0).1
       = (printed (already_installed tagName) (sent apiURL (run env w0).1),
          0%Z)).
Proof.
  intros Hhome Hget Hjson Hsel.
  assert (∀ w n m,
     os.Stat (cwd env) (fs w) (folder env) = Ok n →
     os.Stat (cwd env) (fs w) (marker env tagName) = Ok m →
     run env w = (printed (already_installed tagName) (sent apiURL w), 0%Z))
    as Hrun.
  { intros w n m Hfolder Hmarker.
    rewrite (run_resolved env w (sent apiURL w) tagName url).
    - world_simpl. by rewrite Hmarker.
    - split; [done |]. exists w. split; [by eapply folder_found |].
      rewrite <- Hsel. by apply (getLatestReleaseURL_decoded _ _ _ _ resp). }
  split; [done |].
  intros w0 Hstart Hzero Harchive.
  assert ((getLatestReleaseURL env "GloriousEggroll" "proton-ge-custom" w0).2
          = Ok (tagName, url)) as Hanswer.
  { rewrite (getLatestReleaseURL_decoded _ _ _ _ resp release Hget Hjson).
    exact Hsel. }
  destruct (Sync_total env w0) as (t & w' & Hsync).
  rewrite (Sync_run _ _ _ _ Hsync) in Hzero |- *. simpl in Hzero |- *.
  destruct Hsync
    as [Hhome'|err err' Hhome' Hstat Hne Hmk|w1 w2 err Hhome' Hready Hlatest
       |tagName0 url0 w2 n Hres Hstat|tagName0 url0 w2 w3 err Hwant Hdl
       |tagName0 url0 w3 fs4 err Htr Hex
       |tagName0 url0 w3 fs4 err [Htr Hex] Hrm
       |tagName0 url0 w3 fs4 fs5 [(w2 & [Hres Hwant] & Hdl) Hex] Hrm];
    try discriminate Hzero.
  - destruct (resolved_tag _ _ _ w0 tagName url _ _ Hres Hanswer)
      as (-> & -> & w1 & Hready & ->).
    destruct (folder_ready_dir _ _ _ Hstart Hready) as [d Hd].
    by apply (Hrun _ (Dir d) n).
  - destruct (resolved_tag _ _ _ w0 tagName url _ _ Hres Hanswer)
      as (-> & -> & w1 & Hready & ->).
    destruct (folder_ready_dir _ _ _ Hstart Hready) as [d Hd].
    apply Stat_Ok in Hd as [Hname Hd].
    destruct (extractTarGzFile_items _ _ _ _ _ Hex) as (items & Hgz & _).
    destruct (Harchive _ _ Hgz) as (h & payload & b & Hin & Hdir & Htarget).
    destruct (installed_entry_dir _ _ _ _ _ _ _ _ _ _ _ _ Hdl Hex Hrm Hgz
                Hin Hdir) as [wd Hmarker].
    rewrite Htarget in Hmarker.
    apply (Hrun _ (Dir d) (Dir wd));
      unfold before_removal, before_extraction; world_simpl; apply Stat_Ok.
    + split; [done |].
      by apply (installed_keeps_dir _ _ _ _ _ _ _ _ _ _ Hdl Hex Hrm).
    + split; [|done]. by apply Join_nonempty, folder_nonempty.
Qed.

(** The amended C1 on two runs in a row, with an archive that holds the
    directory v1.2.3. *)
Lemma installed_version_is_not_downloaded_witness :
  run (Scenario.network Scenario.release Scenario.versioned)
    (run (Scenario.network Scenario.release Scenario.versioned)
       (Scenario.world Scenario.fresh)).1
  = (printed (already_installed "v1.2.3")
       (sent apiURL
          (run (Scenario.network Scenario.release Scenario.versioned)
             (Scenario.world Scenario.fresh)).1), 0%Z).
Proof.
  apply (proj2 (installed_version_is_not_downloaded
                  (Scenario.network Scenario.release Scenario.versioned)
                  (mkResponse [] false) Scenario.release
                  "v1.2.3" "http://x/pkg.tar.gz"
                  ltac:(discriminate) eq_refl eq_refl eq_refl)
           (Scenario.world Scenario.fresh)).
  - left. exists true. vm_compute. reflexivity.
  - vm_compute. reflexivity.
  - intros fs items [= <-].
    exists (mkHeader "v1.2.3/" tar.TypeDir), [], false.
    split_and!; [apply elem_of_cons; by left | reflexivity |].
    vm_compute. reflexivity.
Defined.

(** * More about the runs that install *)

(** X11.  A run that ends with status 0 after the request for the archive of
    the latest release has removed the archive it had downloaded: its file
    system is the one the extraction left without the archive path, and the
    archive path of that release is not found in it. *)
Theorem finished_run_leaves_no_archive (env : Env) (w w' : World)
  (tagName url : string) :
  (getLatestReleaseURL env "GloriousEggroll" "proton-ge-custom" w).2
  = Ok (tagName, url) →
  run env w = (w', 0%Z) →
  requests w' = requests w ++ [apiURL; url] →
  fs w' !! os.resolve (cwd env) (archive env tagName) = None
  ∧ (∃ err, os.Stat (cwd env) (fs w') (archive env tagName) = Err err)
  ∧ ∃ w3 fs4,
      unpacked env w tagName url w3 fs4
      ∧ (∃ fw content,
           fs4 !! os.resolve (cwd env) (archive env tagName)
           = Some (File fw content))
      ∧ fs w' = delete (os.resolve (cwd env) (archive env tagName)) fs4.
Proof.
  intros Hanswer Hrun Hreq.
  destruct (Sync_total env w) as (t & w0 & Hsync).
  pose proof (Sync_run _ _ _ _ Hsync) as Hrun0.
  rewrite Hrun in Hrun0. injection Hrun0 as <- Hstatus.
  pose proof (Sync_requests _ _ _ _ Hsync) as Hsent.
  destruct Hsync
    as [Hhome'|err err' Hhome' Hstat Hne Hmk|w1 w2 err Hhome' Hready Hlatest
       |tagName0 url0 w2 n Hres Hstat|tagName0 url0 w2 w3 err Hwant Hdl
       |tagName0 url0 w3 fs4 err Htr Hex
       |tagName0 url0 w3 fs4 err [Htr Hex] Hrm
       |tagName0 url0 w3 fs4 fs5 Hun Hrm];
    try discriminate Hstatus.
  - rewrite Hreq in Hsent. apply app_inv_head in Hsent. discriminate Hsent.
  - pose proof Hun as [(w2 & [Hres Hwant] & Hdl) Hex].
    destruct (resolved_tag _ _ _ w tagName url _ _ Hres Hanswer)
      as (-> & -> & _).
    destruct (download_found _ _ _ _ _ Hdl) as [(fw & content & Hfile) _].
    apply walk_inr in Hfile. simpl in Hfile.
    destruct (extractTarGzFile_keeps _ _ _ _ _ _ Hex) as [_ Hkind].
    destruct (Hkind _ _ _ Hfile) as (fw' & content' & Hfile').
    apply Remove_ok in Hrm as [-> _].
    unfold before_removal, before_extraction. world_simpl. split_and!.
    + apply lookup_delete_eq.
    + apply Stat_removed.
    + exists w3, fs4. split_and!; [done | eauto | done].
Qed.

(** The run of the scenario installs the release and leaves no archive. *)
Lemma finished_run_leaves_no_archive_witness :
  fs (run Scenario.env (Scenario.world Scenario.fresh)).1
    !! os.resolve (cwd Scenario.env) (archive Scenario.env "v1.2.3") = None
  ∧ (∃ err, os.Stat (cwd Scenario.env)
               (fs (run Scenario.env (Scenario.world Scenario.fresh)).1)
               (archive Scenario.env "v1.2.3") = Err err)
  ∧ ∃ w3 fs4,
      unpacked Scenario.env (Scenario.world Scenario.fresh) "v1.2.3"
        "http://x/pkg.tar.gz" w3 fs4
      ∧ (∃ fw content,
           fs4 !! os.resolve (cwd Scenario.env) (archive Scenario.env "v1.2.3")
           = Some (File fw content))
      ∧ fs (run Scenario.env (Scenario.world Scenario.fresh)).1
        = delete (os.resolve (cwd Scenario.env)
                    (archive Scenario.env "v1.2.3")) fs4.
Proof.
  apply (finished_run_leaves_no_archive Scenario.env
           (Scenario.world Scenario.fresh) _ "v1.2.3" "http://x/pkg.tar.gz").
  - reflexivity.
  - apply with_second. vm_compute. reflexivity.
  - vm_compute. reflexivity.
Defined.

(** X12.  A run that fails in the extraction, that is, ends with status 1 and
    the message of a failed extraction on standard error, leaves the
    downloaded archive behind: the archive path of the latest release is
    still found, and it is a regular file. *)
Theorem failed_extraction_keeps_the_archive (env : Env) (w w' : World)
  (tagName url : string) (err : error) :
  (getLatestReleaseURL env "GloriousEggroll" "proton-ge-custom" w).2
  = Ok (tagName, url) →
  run env w = (w', 1%Z) →
  stderr w' = stderr w ++ [msg_extract err] →
  ∃ fw content,
    os.Stat (cwd env) (fs w') (archive env tagName) = Ok (File fw content).
Proof.
  intros Hanswer Hrun Hmsg.
  destruct (Sync_total env w) as (t & w0 & Hsync).
  pose proof (Sync_run _ _ _ _ Hsync) as Hrun0.
  rewrite Hrun in Hrun0. injection Hrun0 as <- Hstatus.
  pose proof (Sync_message _ _ _ _ Hsync) as Hstage.
  destruct (msg_extract_only err) as (Hm1 & Hm2 & Hm3 & Hm4 & Hm5).
  destruct Hsync
    as [Hhome'|err1 err' Hhome' Hstat Hne Hmk|w1 w2 err1 Hhome' Hready Hlatest
       |tagName0 url0 w2 n Hres Hstat|tagName0 url0 w2 w3 err1 Hwant Hdl
       |tagName0 url0 w3 fs4 err1 Htr Hex
       |tagName0 url0 w3 fs4 err1 [Htr Hex] Hrm
       |tagName0 url0 w3 fs4 fs5 Hun Hrm];
    try discriminate Hstatus.
  - destruct Hstage as [[e Hstage]|Hstage];
      rewrite Hmsg in Hstage; apply app_inv_head in Hstage;
      injection Hstage as Hstage;
      [by destruct (Hm1 e) | by destruct (Hm2 (folder env))].
  - destruct Hstage as [[e Hstage]|Hstage];
      rewrite Hmsg in Hstage; apply app_inv_head in Hstage;
      injection Hstage as Hstage;
      [by destruct (Hm1 e) | by destruct (Hm2 (folder env))].
  - destruct Hstage as [e Hstage].
    rewrite Hmsg in Hstage. apply app_inv_head in Hstage.
    injection Hstage as Hstage. by destruct (Hm3 e).
  - destruct Hstage as [e Hstage].
    rewrite Hmsg in Hstage. apply app_inv_head in Hstage.
    injection Hstage as Hstage. by destruct (Hm4 e).
  - destruct Htr as (w2 & [Hres Hwant] & Hdl).
    destruct (resolved_tag _ _ _ w tagName url _ _ Hres Hanswer)
      as (-> & -> & _).
    destruct (download_found _ _ _ _ _ Hdl) as [(fw & content & Hfile) _].
    destruct (extractTarGzFile_keeps _ _ _ _ _ _ Hex) as [Hkeep Hkind].
    pose proof (walk_inr _ _ _ _ Hfile) as Hthere. simpl in Hthere.
    destruct (Hkind _ _ _ Hthere) as (fw' & content' & Hfile').
    exists fw', content'. unfold before_extraction. world_simpl.
    apply Stat_Ok. split.
    + apply Join_nonempty, folder_nonempty.
      by destruct Hres as [Hhome _].
    + by apply (walk_final (fs w3) _ _ _ (File fw content)).
  - destruct Hstage as [e Hstage].
    rewrite Hmsg in Hstage. apply app_inv_head in Hstage.
    injection Hstage as Hstage. by destruct (Hm5 e).
Qed.

(** The run of the scenario on the archive that breaks in its second
    entry. *)
Lemma failed_extraction_keeps_the_archive_witness :
  ∃ fw content,
    os.Stat (cwd (Scenario.network Scenario.release Scenario.broken))
      (fs (run (Scenario.network Scenario.release Scenario.broken)
             (Scenario.world Scenario.locked)).1)
      (archive (Scenario.network Scenario.release Scenario.broken) "v1.2.3")
    = Ok (File fw content).
Proof.
  apply (failed_extraction_keeps_the_archive
           (Scenario.network Scenario.release Scenario.broken)
           (Scenario.world Scenario.locked) _ "v1.2.3" "http://x/pkg.tar.gz"
           ErrUnexpectedEOF).
  - reflexivity.
  - apply with_second. vm_compute. reflexivity.
  - vm_compute. reflexivity.
Defined.

(** X13.  When the archive holds a directory entry that goes to the path of its
    version in the folder, a run in which all steps succeed leaves that path
    in place; the next run, when it finds the folder, ends with status 0 as
    already installed after the one request for the latest release. *)
Theorem installed_version_is_found_again (env : Env) (w : World)
  (tagName url : string) (w3 : World) (fs4 fs5 : gmap path node) (fw : bool)
  (content : bytes) (items : list TarItem) (h : Header) (payload : bytes)
  (b : bool) :
  unpacked env w tagName url w3 fs4 →
  os.Remove (cwd env) fs4 (archive env tagName) = Ok fs5 →
  os.Open (cwd env) (fs w3) (archive env tagName) = Ok (File fw content) →
  gzip_tar env (fs w3) (archive env tagName) (folder env) = inr items →
  Entry h payload b ∈ items → Typeflag h = tar.TypeDir →
  target (cwd env) (folder env) h = os.resolve (cwd env) (marker env tagName) →
  run env w
  = (printed removed (set_fs fs5 (before_removal env tagName w3 fs4)), 0%Z)
  ∧ (∃ n, os.Stat (cwd env) fs5 (marker env tagName) = Ok n)
  ∧ (∀ m,
       os.Stat (cwd env) fs5 (folder env) = Ok m →
       run env (printed removed (set_fs fs5 (before_removal env tagName w3 fs4)))
       = (printed (already_installed tagName)
            (sent apiURL
               (printed removed
                  (set_fs fs5 (before_removal env tagName w3 fs4)))), 0%Z)).
Proof.
  intros Hun Hrm Hopen Hgz Hin Hdir Htarget.
  pose proof Hun as [(w2 & [Hres _] & _) Hex].
  pose proof Hres as (Hhome & w1 & _ & Hlatest).
  assert (marker env tagName ≠ "") as Hmarker.
  { by apply Join_nonempty, folder_nonempty. }
  unfold extractTarGzFile in Hex. rewrite Hopen, Hgz in Hex.
  destruct (extractEntries_dir_reachable _ _ _ _ _ _ _ _ _ Hex Hin Hdir)
    as [wd Hwalk].
  rewrite Htarget in Hwalk.
  assert (os.resolve (cwd env) (marker env tagName)
          ≠ os.resolve (cwd env) (archive env tagName)) as Hne.
  { intros Heq. unfold os.Open in Hopen.
    case_bool_decide; [done |].
    destruct (os.lookup_path (fs w3) _) as [no|n] eqn:Hfile; [done |].
    injection Hopen as ->.
    apply walk_inr in Hfile, Hwalk. simpl in Hfile, Hwalk. rewrite Heq in Hwalk.
    destruct (extractEntries_footprint _ _ _ _ _ _ _
                (os.resolve (cwd env) (archive env tagName)) Hex)
      as [Hsame|[(Hnone & _)|(_ & (fw' & c' & Hf) & _)]]; congruence. }
  assert (os.Stat (cwd env) fs5 (marker env tagName) = Ok (Dir wd)) as Hstat.
  { unfold os.Stat. rewrite bool_decide_eq_false_2 by done.
    by rewrite (Remove_keeps_walk _ _ _ _ _ _ Hrm Hwalk Hne). }
  split_and!.
  - by apply (Sync_run env w _ Done), (sync_done env w tagName url).
  - eauto.
  - intros m Hfolder.
    rewrite (run_resolved env _
               (sent apiURL (printed removed
                  (set_fs fs5 (before_removal env tagName w3 fs4))))
               tagName url).
    + world_simpl. by rewrite Hstat.
    + split; [done |]. eexists. split.
      * by apply (folder_found _ _ m).
      * by eapply getLatestReleaseURL_again.
Qed.

Lemma installed_version_is_found_again_witness :
  run (Scenario.network Scenario.release Scenario.versioned)
    (Scenario.world Scenario.fresh)
  = (installed_in (Scenario.network Scenario.release Scenario.versioned)
       Scenario.fresh, 0%Z)
  ∧ (∃ n, os.Stat (cwd (Scenario.network Scenario.release Scenario.versioned))
            (fs (installed_in
                   (Scenario.network Scenario.release Scenario.versioned)
                   Scenario.fresh))
            (marker (Scenario.network Scenario.release Scenario.versioned)
               "v1.2.3") = Ok n)
  ∧ (∀ m,
       os.Stat (cwd (Scenario.network Scenario.release Scenario.versioned))
         (fs (installed_in
                (Scenario.network Scenario.release Scenario.versioned)
                Scenario.fresh))
         (folder (Scenario.network Scenario.release Scenario.versioned))
       = Ok m →
       run (Scenario.network Scenario.release Scenario.versioned)
         (installed_in (Scenario.network Scenario.release Scenario.versioned)
            Scenario.fresh)
       = (printed (already_installed "v1.2.3")
            (sent apiURL
               (installed_in
                  (Scenario.network Scenario.release Scenario.versioned)
                  Scenario.fresh)), 0%Z)).
Proof.
  apply (installed_version_is_found_again
           (Scenario.network Scenario.release Scenario.versioned)
           (Scenario.world Scenario.fresh) "v1.2.3" "http://x/pkg.tar.gz"
           (downloaded_in (Scenario.network Scenario.release Scenario.versioned)
              Scenario.fresh)
           (extracted_in (Scenario.network Scenario.release Scenario.versioned)
              Scenario.fresh)
           _ true [x1f; x8b]%byte Scenario.versioned
           (mkHeader "v1.2.3/" tar.TypeDir) [] false).
  - split.
    + apply (scenario_transferred Scenario.versioned Scenario.fresh (Dir true)
               (PathError "stat"
                  (marker (Scenario.network Scenario.release Scenario.versioned)
                     "v1.2.3") ENOENT));
        vm_compute; reflexivity.
    + apply without_error. vm_compute. reflexivity.
  - apply Remove_succeeds. vm_compute. reflexivity.
  - vm_compute. reflexivity.
  - reflexivity.
  - apply elem_of_cons. by left.
  - reflexivity.
  - vm_compute. reflexivity.
Defined.

(** X14.  When the folder is not there and the directory that should hold it is a
    writable directory, the folder test makes the folder, a writable
    directory, changes nothing else and sends no request; the folder is then
    found and the run goes on with it. *)
Theorem missing_folder_is_made (env : Env) (w : World) :
  HOME env ≠ "" →
  os.resolve (cwd env) (folder env) ≠ [] →
  os.lookup_path (fs w) (os.parent (os.resolve (cwd env) (folder env)))
  = inr (Dir true) →
  fs w !! os.resolve (cwd env) (folder env) = None →
  compatibilityFolder env w
  = (set_fs (<[os.resolve (cwd env) (folder env) := Dir true]> (fs w)) w,
     inl (folder env))
  ∧ os.Stat (cwd env)
      (<[os.resolve (cwd env) (folder env) := Dir true]> (fs w)) (folder env)
    = Ok (Dir true).
Proof.
  intros Hhome Hne Hparent Hnone.
  destruct (exists_last Hne) as (p & c & Hp).
  unfold os.parent in Hparent. rewrite Hp, removelast_last in Hparent.
  assert (os.Stat (cwd env) (fs w) (folder env)
          = Err (PathError "stat" (folder env) ENOENT)) as Hstat.
  { unfold os.Stat. rewrite bool_decide_eq_false_2 by by apply folder_nonempty.
    unfold os.lookup_path in *. rewrite Hp, (walk_snoc _ _ _ _ _ Hparent).
    simpl. by rewrite <- Hp, Hnone. }
  assert (os.Mkdir (cwd env) (fs w) (folder env)
          = Ok (<[os.resolve (cwd env) (folder env) := Dir true]> (fs w)))
    as Hmk.
  { unfold os.Mkdir, os.mkdir_at.
    rewrite bool_decide_eq_false_2 by by apply folder_nonempty.
    rewrite bool_decide_eq_false_2 by done.
    unfold os.parent. rewrite Hnone, Hp, removelast_last. by rewrite Hparent. }
  split.
  - rewrite compatibilityFolder_home by done. by rewrite Hstat, Hmk.
  - unfold os.Stat. rewrite bool_decide_eq_false_2 by by apply folder_nonempty.
    unfold os.lookup_path in *. rewrite Hp.
    rewrite (walk_snoc _ _ _ _ true).
    + simpl. by rewrite lookup_insert_eq.
    + apply (walk_mono (fs w)); [|done].
      intros x w' Hx. rewrite lookup_insert_ne; [done |]. congruence.
Qed.

Lemma missing_folder_is_made_witness :
  compatibilityFolder Scenario.env (Scenario.world Scenario.without_folder)
  = (set_fs (<[os.resolve (cwd Scenario.env) (folder Scenario.env) := Dir true]>
               (fs (Scenario.world Scenario.without_folder)))
       (Scenario.world Scenario.without_folder),
     inl (folder Scenario.env))
  ∧ os.Stat (cwd Scenario.env)
      (<[os.resolve (cwd Scenario.env) (folder Scenario.env) := Dir true]>
         (fs (Scenario.world Scenario.without_folder)))
      (folder Scenario.env)
    = Ok (Dir true).
Proof.
  apply missing_folder_is_made.
  - discriminate.
  - vm_compute. discriminate.
  - vm_compute. reflexivity.
  - vm_compute. reflexivity.
Defined.
